(** * CircleChat: transport channel and call signalling

    A shallow embedding of the WebSocket service ([services/ws.js]) and of the
    signalling part of the call component ([components/voicecall.jsx]) of the
    CircleChat front end, with the properties of the specification proved
    about them.

    The browser runtime (WebSocket, RTCPeerConnection, MediaStreamTrack,
    timers) is not part of the repository; the small model of it used here is
    kept in [Module Runtime] and follows the Web platform interfaces. *)

From Stdlib Require Import Ascii String ZArith.
From stdpp Require Import gmap strings list fin_maps pretty.

Open Scope string_scope.
Open Scope list_scope.
Open Scope nat_scope.

(** ** JavaScript values and control flow *)

Module JS.

(** Plain data as it travels in signalling frames. [JUndefined] is the
    value of a missing property ([user?.id] with no user). *)
#[warnings="-register-all"]
Inductive JSON : Type :=
| JUndefined
| JNull
| JBool (b : bool)
| JNum (n : Z)
| JStr (s : string)
| JArr (items : list JSON)
| JObj (fields : list (string * JSON)).

(** Truthiness, as used by [if (data.type)] and [token ? .. : ..]. *)
Definition truthy (v : JSON) : bool :=
  match v with
  | JUndefined | JNull => false
  | JBool b => b
  | JNum n => negb (n =? 0)%Z
  | JStr s => negb (String.eqb s EmptyString)
  | JArr _ | JObj _ => true
  end.

(** Property read [v.k]; a missing property reads as [undefined]. *)
Fixpoint assoc (k : string) (fs : list (string * JSON)) : JSON :=
  match fs with
  | [] => JUndefined
  | (k', v) :: fs' => if String.eqb k k' then v else assoc k fs'
  end.

Definition prop (k : string) (v : JSON) : JSON :=
  match v with
  | JObj fs => assoc k fs
  | _ => JUndefined
  end.

(** [JSON.stringify]: text of a value. *)
Definition hex_digit (n : N) : ascii :=
  match n with
  | 0 => "0" | 1 => "1" | 2 => "2" | 3 => "3" | 4 => "4" | 5 => "5"
  | 6 => "6" | 7 => "7" | 8 => "8" | 9 => "9" | 10 => "a" | 11 => "b"
  | 12 => "c" | 13 => "d" | 14 => "e" | _ => "f"
  end%N%char.

Definition dquote : ascii := ascii_of_N 34.
Definition backslash : ascii := ascii_of_N 92.

Definition escape_char (c : ascii) : string :=
  let n := N_of_ascii c in
  if (n =? 34)%N then String backslash (String dquote EmptyString)
  else if (n =? 92)%N then String backslash (String backslash EmptyString)
  else if (n =? 8)%N then String backslash "b"
  else if (n =? 9)%N then String backslash "t"
  else if (n =? 10)%N then String backslash "n"
  else if (n =? 12)%N then String backslash "f"
  else if (n =? 13)%N then String backslash "r"
  else if (n <? 32)%N then
    String backslash
      ("u00" +:+ String (hex_digit (n / 16))
                  (String (hex_digit (n mod 16)) EmptyString))
  else String c EmptyString.

Fixpoint escape (s : string) : string :=
  match s with
  | EmptyString => EmptyString
  | String c s' => escape_char c +:+ escape s'
  end.

Definition quote (s : string) : string :=
  String dquote (escape s +:+ String dquote EmptyString).

Fixpoint join (sep : string) (l : list string) : string :=
  match l with
  | [] => EmptyString
  | [x] => x
  | x :: l' => x +:+ sep +:+ join sep l'
  end.

Definition is_undefined (v : JSON) : bool :=
  match v with JUndefined => true | _ => false end.

(** A thrown exception is a completion of its own; [js S T] is a piece of
    synchronous code over a state [S] that returns a [T] or throws. *)
Inductive Completion (T : Type) : Type :=
| Return (v : T)
| Throw.
Arguments Return {T} v.
Arguments Throw {T}.

Definition js (S T : Type) : Type := S -> S * Completion T.

Definition ret {S T} (v : T) : js S T := fun s => (s, Return v).
Definition throw {S T} : js S T := fun s => (s, Throw).

Definition bind {S T U} (m : js S T) (k : T -> js S U) : js S U :=
  fun s =>
    match m s with
    | (s', Return v) => k v s'
    | (s', Throw) => (s', Throw)
    end.

(** [try { body } catch (error) { handler }] *)
Definition try_catch {S T} (body handler : js S T) : js S T :=
  fun s =>
    match body s with
    | (s', Throw) => handler s'
    | done => done
    end.

(** A statement that only changes the state. *)
Definition exec {S} (f : S -> S) : js S unit := fun s => (f s, Return tt).

(** [items.forEach(f)]: an exception leaving [f] leaves the loop. *)
Fixpoint forEach {S X} (f : X -> js S unit) (items : list X) : js S unit :=
  match items with
  | [] => ret tt
  | x :: rest => bind (f x) (fun _ => forEach f rest)
  end.

Fixpoint stringify (v : JSON) : string :=
  match v with
  | JUndefined | JNull => "null"
  | JBool true => "true"
  | JBool false => "false"
  | JNum n => pretty n
  | JStr s => quote s
  | JArr items => "[" +:+ join "," (map stringify items) +:+ "]"
  | JObj fields =>
      "{" +:+ join ","
        ((fix members (fs : list (string * JSON)) : list string :=
            match fs with
            | [] => []
            | (k, x) :: fs' =>
                if is_undefined x then members fs'
                else (quote k +:+ ":" +:+ stringify x) :: members fs'
            end) fields)
      +:+ "}"
  end.

End JS.

Import JS.

Notation "x <~ m ; k" := (JS.bind m (fun x => k))
  (at level 20, m at level 100, k at level 200, only parsing).
Notation "m ;;; k" := (JS.bind m (fun _ => k))
  (at level 100, k at level 200, only parsing, right associativity).

(** ** The browser runtime *)

Module Runtime.

(** [WebSocket.readyState] *)
Inductive ReadyState : Type := CONNECTING | OPEN | CLOSING | CLOSED.

#[export] Instance ReadyState_eq_dec : EqDecision ReadyState.
Proof. solve_decision. Defined.

(** A WebSocket object. [sock_group] is the [groupId] captured by the
    handlers that [connect] wires on it; [sock_sent] the frames handed to
    the network. *)
Record Socket : Type := mkSocket {
  sock_url : string;
  sock_group : string;
  sock_state : ReadyState;
  sock_sent : list string;
}.

Definition set_sock_state (st : ReadyState) (s : Socket) : Socket :=
  mkSocket (sock_url s) (sock_group s) st (sock_sent s).

(** [socket.send(data)]: InvalidStateError while connecting, queued when
    open, dropped once closing or closed. *)
Definition sock_send (data : string) (s : Socket) : Completion Socket :=
  match sock_state s with
  | CONNECTING => Throw
  | OPEN => Return (mkSocket (sock_url s) (sock_group s) OPEN
                             (sock_sent s ++ [data]))
  | CLOSING | CLOSED => Return s
  end.

(** [socket.close()] starts the closing handshake. *)
Definition sock_close (s : Socket) : Socket :=
  match sock_state s with
  | CLOSED => s
  | _ => set_sock_state CLOSING s
  end.

(** Callbacks handed to [setTimeout]. *)
Inductive TimerAction : Type :=
| Reconnect (groupId : string)
| CreateOffer (userId : string)
| AnnounceReady.

Record Timer : Type := mkTimer {
  timer_delay : nat;
  timer_action : TimerAction;
}.

(** MediaStreamTrack *)
Inductive TrackKind : Type := audio | video.

#[export] Instance TrackKind_eq_dec : EqDecision TrackKind.
Proof. solve_decision. Defined.

Record Track : Type := mkTrack {
  kind : TrackKind;
  enabled : bool;
  ended : bool;
}.

Definition set_enabled (b : bool) (t : Track) : Track :=
  mkTrack (kind t) b (ended t).

(** [track.stop()] *)
Definition stop (t : Track) : Track := mkTrack (kind t) (enabled t) true.

(** A MediaStream is the list of its tracks, each a handle into the
    store of track objects: the same track is reached from the component
    state, from the ref and from every peer connection it was added to. *)
Definition MediaStream : Type := list nat.

(** RTCPeerConnection *)
Inductive SignalingState : Type :=
| stable
| have_local_offer
| have_remote_offer
| have_local_pranswer
| have_remote_pranswer
| signaling_closed.

#[export] Instance SignalingState_eq_dec : EqDecision SignalingState.
Proof. solve_decision. Defined.

Inductive ConnectionState : Type :=
| new | connecting | connected | disconnected | failed | closed.

#[export] Instance ConnectionState_eq_dec : EqDecision ConnectionState.
Proof. solve_decision. Defined.

Record PeerConnection : Type := mkPeer {
  signalingState : SignalingState;
  connectionState : ConnectionState;
  localDescription : option JSON;
  remoteDescription : option JSON;
  senders : list nat;
  candidates : list JSON;
}.

(** [new RTCPeerConnection(configuration)] followed by [addTrack] for each
    local track. *)
Definition new_peer (local_tracks : list nat) : PeerConnection :=
  mkPeer stable new None None local_tracks [].

Inductive SdpType : Type := sdp_offer | sdp_answer.

#[export] Instance SdpType_eq_dec : EqDecision SdpType.
Proof. solve_decision. Defined.

(** The signalling state machine of JSEP. [accept] is the verdict of the
    browser on the description itself (a malformed or mistyped one is
    refused); a description applied in the wrong state is refused
    whatever the verdict. *)
Definition setLocalDescription (t : SdpType) (desc : JSON) (accept : bool)
    (pc : PeerConnection) : Completion PeerConnection :=
  match t, signalingState pc with
  | sdp_offer, (stable | have_local_offer) =>
      if accept then
        Return (mkPeer have_local_offer (connectionState pc) (Some desc)
                  (remoteDescription pc) (senders pc) (candidates pc))
      else Throw
  | sdp_answer, (have_remote_offer | have_local_pranswer) =>
      if accept then
        Return (mkPeer stable (connectionState pc) (Some desc)
                  (remoteDescription pc) (senders pc) (candidates pc))
      else Throw
  | _, _ => Throw
  end.

Definition setRemoteDescription (t : SdpType) (desc : JSON) (accept : bool)
    (pc : PeerConnection) : Completion PeerConnection :=
  match t, signalingState pc with
  | sdp_offer, (stable | have_remote_offer) =>
      if accept then
        Return (mkPeer have_remote_offer (connectionState pc)
                  (localDescription pc) (Some desc) (senders pc)
                  (candidates pc))
      else Throw
  | sdp_answer, (have_local_offer | have_remote_pranswer) =>
      if accept then
        Return (mkPeer stable (connectionState pc) (localDescription pc)
                  (Some desc) (senders pc) (candidates pc))
      else Throw
  | _, _ => Throw
  end.

(** [createOffer] and [createAnswer] hand back the description the browser
    built, or throw; neither changes the connection. *)
Definition createOffer (built : option JSON) (pc : PeerConnection)
    : Completion JSON :=
  match signalingState pc, built with
  | signaling_closed, _ => Throw
  | _, Some d => Return d
  | _, None => Throw
  end.

Definition createAnswer (built : option JSON) (pc : PeerConnection)
    : Completion JSON :=
  match signalingState pc, built with
  | (have_remote_offer | have_local_pranswer), Some d => Return d
  | _, _ => Throw
  end.

Definition addIceCandidate (candidate : JSON) (accept : bool)
    (pc : PeerConnection) : Completion PeerConnection :=
  match remoteDescription pc with
  | None => Throw
  | Some _ =>
      if accept then
        Return (mkPeer (signalingState pc) (connectionState pc)
                  (localDescription pc) (remoteDescription pc) (senders pc)
                  (candidates pc ++ [candidate]))
      else Throw
  end.

(** [pc.close()] *)
Definition close_peer (pc : PeerConnection) : PeerConnection :=
  mkPeer signaling_closed closed (localDescription pc)
    (remoteDescription pc) (senders pc) (candidates pc).

(** [window.location] *)
Record Location : Type := mkLocation {
  protocol : string;
  hostname : string;
}.

End Runtime.

Import Runtime.

(** ** The transport channel: [class WebSocketService] *)

Module WebSocketService.

(** The fields of the service object. [ws] is a handle into the table of
    socket objects, [listeners] maps an event name to its callbacks in
    registration order, callbacks and the token getter being referred to
    by identity. [maxReconnectAttempts] and [reconnectDelay] are assigned
    by the constructor and never written again. *)
Record Service : Type := mkService {
  ws : option nat;
  reconnectAttempts : nat;
  listeners : gmap string (list nat);
  isConnecting : bool;
  getToken : option nat;
}.

Definition maxReconnectAttempts : nat := 5.
Definition reconnectDelay : nat := 1000.

Definition constructor : Service := mkService None 0 ∅ false None.

(** The service in its surroundings: every socket ever constructed (old
    ones keep their handlers), the pending timers, the [connect] calls
    suspended at [await this.getToken()], and the state [app] of the rest
    of the application, on which the listeners act. [scheduled], [emitted]
    and [invoked] record every [setTimeout], [emit] and callback call. *)
Record World (A : Type) : Type := mkWorld {
  this : Service;
  sockets : list Socket;
  timers : list Timer;
  awaiting : list string;
  location : Location;
  app : A;
  scheduled : list Timer;
  emitted : list (string * JSON);
  invoked : list (nat * JSON);
}.
Arguments mkWorld {A}.
Arguments this {A}.
Arguments sockets {A}.
Arguments timers {A}.
Arguments awaiting {A}.
Arguments location {A}.
Arguments app {A}.
Arguments scheduled {A}.
Arguments emitted {A}.
Arguments invoked {A}.

Section Methods.
Context {A : Type}.
Let W : Type := World A.

Definition set_this (s : Service) (w : W) : W :=
  mkWorld s (sockets w) (timers w) (awaiting w) (location w) (app w)
          (scheduled w) (emitted w) (invoked w).
Definition set_sockets (l : list Socket) (w : W) : W :=
  mkWorld (this w) l (timers w) (awaiting w) (location w) (app w)
          (scheduled w) (emitted w) (invoked w).
Definition set_timers (l : list Timer) (w : W) : W :=
  mkWorld (this w) (sockets w) l (awaiting w) (location w) (app w)
          (scheduled w) (emitted w) (invoked w).
Definition set_awaiting (l : list string) (w : W) : W :=
  mkWorld (this w) (sockets w) (timers w) l (location w) (app w)
          (scheduled w) (emitted w) (invoked w).
Definition set_app {B : Type} (a : B) (w : W) : World B :=
  mkWorld (this w) (sockets w) (timers w) (awaiting w) (location w) a
          (scheduled w) (emitted w) (invoked w).
Definition log_emitted (e : string * JSON) (w : W) : W :=
  mkWorld (this w) (sockets w) (timers w) (awaiting w) (location w)
          (app w) (scheduled w) (emitted w ++ [e]) (invoked w).
Definition log_invoked (c : nat * JSON) (w : W) : W :=
  mkWorld (this w) (sockets w) (timers w) (awaiting w) (location w)
          (app w) (scheduled w) (emitted w) (invoked w ++ [c]).

Definition set_ws (h : option nat) (w : W) : W :=
  set_this (mkService h (reconnectAttempts (this w)) (listeners (this w))
              (isConnecting (this w)) (getToken (this w))) w.
Definition set_reconnectAttempts (n : nat) (w : W) : W :=
  set_this (mkService (ws (this w)) n (listeners (this w))
              (isConnecting (this w)) (getToken (this w))) w.
Definition set_listeners (m : gmap string (list nat)) (w : W) : W :=
  set_this (mkService (ws (this w)) (reconnectAttempts (this w)) m
              (isConnecting (this w)) (getToken (this w))) w.
Definition set_isConnecting (b : bool) (w : W) : W :=
  set_this (mkService (ws (this w)) (reconnectAttempts (this w))
              (listeners (this w)) b (getToken (this w))) w.

(** [setTimeout(callback, delay)] *)
Definition setTimeout (action : TimerAction) (delay : nat) (w : W) : W :=
  let t := mkTimer delay action in
  mkWorld (this w) (sockets w) (timers w ++ [t]) (awaiting w)
          (location w) (app w) (scheduled w ++ [t]) (emitted w)
          (invoked w).

(** [setGetToken(fn)] *)
Definition setGetToken (fn : nat) (w : W) : W :=
  set_this (mkService (ws (this w)) (reconnectAttempts (this w))
              (listeners (this w)) (isConnecting (this w)) (Some fn)) w.

(** The socket [this.ws] refers to, if any. *)
Definition current_socket (w : W) : option Socket :=
  h ← ws (this w); sockets w !! h.

(** [this.ws.readyState], when there is a socket. *)
Definition readyState (w : W) : option ReadyState :=
  sock_state <$> current_socket w.

(** [this.ws && this.ws.readyState === WebSocket.OPEN] *)
Definition isConnected (w : W) : bool :=
  match current_socket w with
  | Some s => bool_decide (sock_state s = OPEN)
  | None => false
  end.

(** [send(data)] *)
Definition send (data : JSON) : js W bool := fun w =>
  match ws (this w) with
  | Some h =>
      match sockets w !! h with
      | Some s =>
          if bool_decide (sock_state s = OPEN) then
            match sock_send (stringify data) s with
            | Return s' => (set_sockets (<[h:=s']> (sockets w)) w,
                            Return true)
            | Throw => (w, Throw)
            end
          else (w, Return false)
      | None => (w, Return false)
      end
  | None => (w, Return false)
  end.

Definition sendMessage (content : JSON) : js W bool :=
  send (JObj [("type", JStr "message"); ("content", content)]).

Definition startCall (callType callerName : JSON) : js W bool :=
  send (JObj [("type", JStr "call_start"); ("call_type", callType);
              ("caller_name", callerName)]).

Definition endCall : js W bool :=
  send (JObj [("type", JStr "call_end")]).

Definition acceptCall (acceptorName : JSON) : js W bool :=
  send (JObj [("type", JStr "call_accept");
              ("acceptor_name", acceptorName)]).

Definition declineCall : js W bool :=
  send (JObj [("type", JStr "call_decline")]).

(** [on(event, callback)] *)
Definition on (event : string) (callback : nat) (w : W) : W :=
  let registry :=
    match listeners (this w) !! event with
    | Some _ => listeners (this w)
    | None => <[event:=[]]> (listeners (this w))
    end in
  set_listeners (alter (fun cbs => cbs ++ [callback]) event registry) w.

(** [callbacks.indexOf(callback)] then [splice(index, 1)] *)
Fixpoint remove_first (callback : nat) (cbs : list nat) : list nat :=
  match cbs with
  | [] => []
  | c :: rest =>
      if bool_decide (c = callback) then rest
      else c :: remove_first callback rest
  end.

(** [off(event, callback)] *)
Definition off (event : string) (callback : nat) (w : W) : W :=
  match listeners (this w) !! event with
  | Some _ => set_listeners (alter (remove_first callback) event
                               (listeners (this w))) w
  | None => w
  end.

(** [disconnect()] *)
Definition disconnect (w : W) : W :=
  let w1 :=
    match ws (this w) with
    | Some h =>
        set_ws None
          (set_sockets (alter sock_close h (sockets w)) w)
    | None => w
    end in
  set_reconnectAttempts 0 (set_listeners ∅ w1).

(** The lines of [connect] from the URL to the wiring of the handlers:
    a new socket object, connecting, becomes [this.ws]. The token is the
    empty string when there is no getter, and an empty or null token adds
    no query. The constructor is taken to accept the URL; the regular
    expression on the host name selects between two branches that build
    the same host. *)
Definition wsUrl (loc : Location) (groupId token : string) : string :=
  let wsProtocol :=
    if String.eqb (protocol loc) "https:" then "wss:" else "ws:" in
  let wsHost :=
    if String.eqb (hostname loc) "localhost"
       || String.eqb (hostname loc) "127.0.0.1"
    then "localhost:8000"
    else hostname loc +:+ ":8000" in
  wsProtocol +:+ "//" +:+ wsHost +:+ "/ws/" +:+ groupId
    +:+ (if truthy (JStr token) then "?token=" +:+ token else EmptyString).

Definition connect_open (groupId token : string) (w : W) : W :=
  let socket := mkSocket (wsUrl (location w) groupId token) groupId
                         CONNECTING [] in
  set_ws (Some (length (sockets w)))
         (set_sockets (sockets w ++ [socket]) w).

(** [connect(groupId)] up to its first suspension. *)
Definition connect (groupId : string) (w : W) : W :=
  if isConnecting (this w) || isConnected w then w
  else
    let w1 := set_isConnecting true w in
    match getToken (this w1) with
    | Some _ => set_awaiting (awaiting w1 ++ [groupId]) w1
    | None => connect_open groupId EmptyString w1
    end.

(** [connect] resumed when the token promise settles: with the token, or
    in the [catch] when the getter rejected. *)
Inductive TokenResult : Type :=
| Resolved (token : string)
| Rejected.

Definition connect_resume (groupId : string) (r : TokenResult) (w : W)
    : W :=
  match r with
  | Resolved token => connect_open groupId token w
  | Rejected => set_isConnecting false w
  end.

(** Listeners act on the application state and may throw. *)
Variable call : nat -> JSON -> A -> A * Completion unit.

Definition invoke (callback : nat) (data : JSON) : js W unit := fun w =>
  let r := call callback data (app w) in
  (set_app (fst r) (log_invoked (callback, data) w), snd r).

Definition console_error : js W unit := ret tt.

(** [emit(event, data)] *)
Definition emit (event : string) (data : JSON) : js W unit := fun w =>
  let w := log_emitted (event, data) w in
  match listeners (this w) !! event with
  | Some callbacks =>
      forEach (fun callback =>
                 try_catch (invoke callback data) console_error)
              callbacks w
  | None => (w, Return tt)
  end.

(** [attemptReconnect(groupId)] *)
Definition attemptReconnect (groupId : string) : js W unit := fun w =>
  if reconnectAttempts (this w) <? maxReconnectAttempts then
    let w1 := set_reconnectAttempts (S (reconnectAttempts (this w))) w in
    (setTimeout (Reconnect groupId)
       (reconnectDelay * reconnectAttempts (this w1)) w1, Return tt)
  else emit "reconnect_failed" JUndefined w.

(** The handlers wired on each socket. *)
Definition onopen : js W unit :=
  exec (set_isConnecting false) ;;;
  exec (set_reconnectAttempts 0) ;;;
  emit "connected" JUndefined.

(** [parsed] is [JSON.parse(event.data)], [None] when it throws. Reading
    [data.type] of [null] throws too, into the same [catch]. *)
Definition onmessage (parsed : option JSON) : js W unit :=
  try_catch
    (match parsed with
     | None => throw
     | Some data =>
         emit "message" data ;;;
         match data with
         | JNull => throw
         | _ =>
             match prop "type" data with
             | JStr type =>
                 if truthy (JStr type) then emit type data else ret tt
             | _ => ret tt
             end
         end
     end)
    console_error.

Definition onerror (error : JSON) : js W unit :=
  exec (set_isConnecting false) ;;;
  emit "error" error.

Definition onclose (groupId : string) : js W unit :=
  exec (set_isConnecting false) ;;;
  emit "disconnected" JUndefined ;;;
  attemptReconnect groupId.

End Methods.

End WebSocketService.

Module wsService := WebSocketService.

(** ** The call component: [VoiceCall] *)

Module VoiceCall.

(** An entry of the [participants] map. *)
Record Participant : Type := mkParticipant {
  participant_name : string;
  participant_isMuted : bool;
}.

(** An element of [remoteStreams]. *)
Record RemoteStream : Type := mkRemoteStream {
  stream : MediaStream;
  userId : string;
  id : string;
}.

Inductive PermissionStatus : Type := requesting | granted | denied | error.

(** Calls made on a peer connection, recorded per participant. *)
Inductive RtcCall : Type :=
| CreateOfferCall
| CreateAnswerCall
| SetLocalCall (t : SdpType)
| SetRemoteCall (t : SdpType)
| AddIceCall.

#[export] Instance RtcCall_eq_dec : EqDecision RtcCall.
Proof. solve_decision. Defined.

(** The component: route parameters and identity, [useState] cells,
    [useRef] cells, then the objects it owns in the runtime: the track
    objects, its pending timers, the profile lookups in flight, and the
    record of calls made on peer connections. A handler reads the state
    cells as the previous handler left them: the component has rendered
    in between. *)
Record Component : Type := mkComponent {
  groupId : option string;
  user_id : option string;
  isVideo : bool;
  localStream : option MediaStream;
  remoteStreams : list RemoteStream;
  participants : gmap string Participant;
  isMuted : bool;
  isVideoOff : bool;
  isConnected : bool;
  permissionStatus : PermissionStatus;
  peersRef : gmap string PeerConnection;
  localStreamRef : option MediaStream;
  remoteAudioRefs : list nat;
  tracks : list Track;
  pending : list Timer;
  profileRequests : list string;
  rtcCalls : list (string * RtcCall);
}.

Definition set_localStream (x : option MediaStream) (c : Component) : Component :=
  mkComponent (groupId c) (user_id c) (isVideo c) x (remoteStreams c)
    (participants c) (isMuted c) (isVideoOff c) (isConnected c)
    (permissionStatus c) (peersRef c) (localStreamRef c)
    (remoteAudioRefs c) (tracks c) (pending c) (profileRequests c)
    (rtcCalls c).
Definition set_remoteStreams (x : list RemoteStream) (c : Component) : Component :=
  mkComponent (groupId c) (user_id c) (isVideo c) (localStream c) x
    (participants c) (isMuted c) (isVideoOff c) (isConnected c)
    (permissionStatus c) (peersRef c) (localStreamRef c)
    (remoteAudioRefs c) (tracks c) (pending c) (profileRequests c)
    (rtcCalls c).
Definition set_participants (x : gmap string Participant) (c : Component) : Component :=
  mkComponent (groupId c) (user_id c) (isVideo c) (localStream c)
    (remoteStreams c) x (isMuted c) (isVideoOff c) (isConnected c)
    (permissionStatus c) (peersRef c) (localStreamRef c)
    (remoteAudioRefs c) (tracks c) (pending c) (profileRequests c)
    (rtcCalls c).
Definition set_isMuted (x : bool) (c : Component) : Component :=
  mkComponent (groupId c) (user_id c) (isVideo c) (localStream c)
    (remoteStreams c) (participants c) x (isVideoOff c) (isConnected
    c) (permissionStatus c) (peersRef c) (localStreamRef c)
    (remoteAudioRefs c) (tracks c) (pending c) (profileRequests c)
    (rtcCalls c).
Definition set_isVideoOff (x : bool) (c : Component) : Component :=
  mkComponent (groupId c) (user_id c) (isVideo c) (localStream c)
    (remoteStreams c) (participants c) (isMuted c) x (isConnected c)
    (permissionStatus c) (peersRef c) (localStreamRef c)
    (remoteAudioRefs c) (tracks c) (pending c) (profileRequests c)
    (rtcCalls c).
Definition set_peersRef (x : gmap string PeerConnection) (c : Component) : Component :=
  mkComponent (groupId c) (user_id c) (isVideo c) (localStream c)
    (remoteStreams c) (participants c) (isMuted c) (isVideoOff c)
    (isConnected c) (permissionStatus c) x (localStreamRef c)
    (remoteAudioRefs c) (tracks c) (pending c) (profileRequests c)
    (rtcCalls c).
Definition set_localStreamRef (x : option MediaStream) (c : Component) : Component :=
  mkComponent (groupId c) (user_id c) (isVideo c) (localStream c)
    (remoteStreams c) (participants c) (isMuted c) (isVideoOff c)
    (isConnected c) (permissionStatus c) (peersRef c) x
    (remoteAudioRefs c) (tracks c) (pending c) (profileRequests c)
    (rtcCalls c).
Definition set_remoteAudioRefs (x : list nat) (c : Component) : Component :=
  mkComponent (groupId c) (user_id c) (isVideo c) (localStream c)
    (remoteStreams c) (participants c) (isMuted c) (isVideoOff c)
    (isConnected c) (permissionStatus c) (peersRef c) (localStreamRef
    c) x (tracks c) (pending c) (profileRequests c) (rtcCalls c).
Definition set_tracks (x : list Track) (c : Component) : Component :=
  mkComponent (groupId c) (user_id c) (isVideo c) (localStream c)
    (remoteStreams c) (participants c) (isMuted c) (isVideoOff c)
    (isConnected c) (permissionStatus c) (peersRef c) (localStreamRef
    c) (remoteAudioRefs c) x (pending c) (profileRequests c) (rtcCalls
    c).
Definition set_pending (x : list Timer) (c : Component) : Component :=
  mkComponent (groupId c) (user_id c) (isVideo c) (localStream c)
    (remoteStreams c) (participants c) (isMuted c) (isVideoOff c)
    (isConnected c) (permissionStatus c) (peersRef c) (localStreamRef
    c) (remoteAudioRefs c) (tracks c) x (profileRequests c) (rtcCalls
    c).
Definition set_profileRequests (x : list string) (c : Component) : Component :=
  mkComponent (groupId c) (user_id c) (isVideo c) (localStream c)
    (remoteStreams c) (participants c) (isMuted c) (isVideoOff c)
    (isConnected c) (permissionStatus c) (peersRef c) (localStreamRef
    c) (remoteAudioRefs c) (tracks c) (pending c) x (rtcCalls c).
Definition set_rtcCalls (x : list (string * RtcCall)) (c : Component) : Component :=
  mkComponent (groupId c) (user_id c) (isVideo c) (localStream c)
    (remoteStreams c) (participants c) (isMuted c) (isVideoOff c)
    (isConnected c) (permissionStatus c) (peersRef c) (localStreamRef
    c) (remoteAudioRefs c) (tracks c) (pending c) (profileRequests c)
    x.

(** Signalling frames as the dispatcher tells them apart by
    [data.type]; identities are the strings the server sends. *)
Inductive Inbound : Type :=
| webrtc_offer (offer : JSON) (caller_id : string)
| webrtc_answer (answer : JSON) (answerer_id : string)
| webrtc_ice_candidate (candidate : JSON) (sender_id : string)
| user_joined (user_id : string)
| call_participant_ready (user_id : string)
| call_participants_list (participants : option (list string))
| participant_mute_status (user_id : string) (is_muted : bool)
| other_type.

(** What the browser answers to the asynchronous calls of one handler:
    the descriptions it builds ([None] when it throws) and whether it
    accepts the descriptions and candidates handed to it. An [async]
    handler is run here in one piece, its awaited calls answered by these
    verdicts; other handlers running between two of its [await]s are not
    part of this model. *)
Record Verdicts : Type := mkVerdicts {
  built_offer : option JSON;
  built_answer : option JSON;
  accept_local : bool;
  accept_remote : bool;
  accept_candidate : bool;
}.

Definition W : Type := wsService.World Component.

Definition comp (w : W) : Component := wsService.app w.

Definition upd (f : Component -> Component) (w : W) : W :=
  wsService.set_app (f (comp w)) w.

Definition json_of (o : option string) : JSON :=
  match o with
  | Some s => JStr s
  | None => JUndefined
  end.

(** [setTimeout] from the component. *)
Definition setTimeout (action : TimerAction) (delay : nat) (w : W) : W :=
  upd (fun c => set_pending (pending c ++ [mkTimer delay action]) c) w.

(** [fetchParticipantName(userId)] up to its request; the profile arrives
    later, see [profile_settled]. *)
Definition fetchParticipantName (userId : string) (w : W) : W :=
  if negb (truthy (JStr userId))
     || bool_decide (Some userId = user_id (comp w))
  then w
  else upd (fun c => set_profileRequests (profileRequests c ++ [userId]) c) w.

(** The two [setParticipants] updates of [fetchParticipantName]:
    [displayName] is the resolved name, [None] when the lookup failed. *)
Definition profile_settled (userId : string) (displayName : option string)
    (w : W) : W :=
  upd (fun c =>
         let existing :=
           default (mkParticipant EmptyString false)
                   (participants c !! userId) in
         set_participants
           (<[userId := mkParticipant (default "User" displayName)
                          (participant_isMuted existing)]>
              (participants c)) c) w.

(** [createPeerConnection(userId)] *)
Definition createPeerConnection (userId : string) (w : W) : W :=
  let local_tracks := default [] (localStreamRef (comp w)) in
  upd (fun c =>
         set_peersRef (<[userId := new_peer local_tracks]> (peersRef c)) c)
      w.

(** The three handlers it wires on the connection. *)
Definition ontrack (userId : string) (remoteStream : MediaStream) (w : W)
    : W :=
  let streamWithUserId :=
    mkRemoteStream remoteStream userId ("stream-" +:+ userId) in
  let same (s : RemoteStream) := String.eqb (id s) (id streamWithUserId) in
  fetchParticipantName userId
    (upd (fun c =>
            set_remoteStreams
              (if existsb same (remoteStreams c)
               then map (fun s => if same s then streamWithUserId else s)
                        (remoteStreams c)
               else remoteStreams c ++ [streamWithUserId]) c) w).

Definition onicecandidate (userId : string) (candidate : option JSON)
    : js W unit :=
  match candidate with
  | Some cand =>
      fun w =>
        (wsService.send
           (JObj [("type", JStr "webrtc_ice_candidate");
                  ("candidate", cand);
                  ("target_user_id", JStr userId);
                  ("group_id", json_of (groupId (comp w)))]) ;;;
         ret tt) w
  | None => ret tt
  end.

Definition onconnectionstatechange (userId : string)
    (state : ConnectionState) (w : W) : W :=
  let w1 :=
    upd (fun c =>
           set_peersRef
             (alter (fun pc =>
                       mkPeer (signalingState pc) state
                              (localDescription pc) (remoteDescription pc)
                              (senders pc) (candidates pc))
                    userId (peersRef c)) c) w in
  if bool_decide (state = failed) || bool_decide (state = disconnected)
  then
    upd (fun c =>
           set_remoteStreams
             (filter (fun s => id s ≠ "stream-" +:+ userId)
                     (remoteStreams c))
             (set_peersRef (delete userId (peersRef c)) c)) w1
  else w1.

(** A call on the connection kept for [userId]. *)
Definition log_rtc (userId : string) (op : RtcCall) (w : W) : W :=
  upd (fun c => set_rtcCalls (rtcCalls c ++ [(userId, op)]) c) w.

Definition peer_ask {T : Type} (userId : string) (op : RtcCall)
    (f : PeerConnection -> Completion T) : js W T := fun w =>
  let w1 := log_rtc userId op w in
  match peersRef (comp w1) !! userId with
  | Some pc => (w1, f pc)
  | None => (w1, Throw)
  end.

Definition peer_do (userId : string) (op : RtcCall)
    (f : PeerConnection -> Completion PeerConnection) : js W unit := fun w =>
  let w1 := log_rtc userId op w in
  match peersRef (comp w1) !! userId with
  | Some pc =>
      match f pc with
      | Return pc' =>
          (upd (fun c => set_peersRef (<[userId := pc']> (peersRef c)) c) w1,
           Return tt)
      | Throw => (w1, Throw)
      end
  | None => (w1, Throw)
  end.

(** [peersRef.current.delete(userId)] *)
Definition forget (userId : string) : js W unit :=
  exec (upd (fun c => set_peersRef (delete userId (peersRef c)) c)).

(** [peersRef.current.get(userId) || createPeerConnection(userId)] *)
Definition ensure_peer (userId : string) (w : W) : W :=
  match peersRef (comp w) !! userId with
  | Some _ => w
  | None => createPeerConnection userId w
  end.

(** The guard of [createOfferForUser] on an existing connection. *)
Definition offer_skipped (userId : string) (w : W) : bool :=
  match peersRef (comp w) !! userId with
  | Some existingPeer =>
      if bool_decide (signalingState existingPeer ≠ stable) then true
      else bool_decide (connectionState existingPeer = connected)
  | None => false
  end.

(** The [try] block of [createOfferForUser]. *)
Definition createOfferForUser_try (userId : string) (v : Verdicts)
    : js W unit :=
  offer <~ peer_ask userId CreateOfferCall (createOffer (built_offer v));
  peer_do userId (SetLocalCall sdp_offer)
    (setLocalDescription sdp_offer offer (accept_local v)) ;;;
  sent <~ (fun w =>
             wsService.send
               (JObj [("type", JStr "webrtc_offer");
                      ("offer", offer);
                      ("target_user_id", JStr userId);
                      ("group_id", json_of (groupId (comp w)))]) w);
  ret tt.

(** [createOfferForUser(userId)] *)
Definition createOfferForUser (userId : string) (v : Verdicts)
    : js W unit := fun w =>
  match localStreamRef (comp w) with
  | None => (w, Return tt)
  | Some _ =>
      if offer_skipped userId w then (w, Return tt)
      else
        try_catch (createOfferForUser_try userId v) (forget userId)
                  (ensure_peer userId w)
  end.

(** The [try] block of [handleOffer]. *)
Definition handleOffer_try (offer : JSON) (caller_id : string)
    (v : Verdicts) : js W unit :=
  peer_do caller_id (SetRemoteCall sdp_offer)
    (setRemoteDescription sdp_offer offer (accept_remote v)) ;;;
  answer <~ peer_ask caller_id CreateAnswerCall
              (createAnswer (built_answer v));
  peer_do caller_id (SetLocalCall sdp_answer)
    (setLocalDescription sdp_answer answer (accept_local v)) ;;;
  (fun w =>
     wsService.send
       (JObj [("type", JStr "webrtc_answer");
              ("answer", answer);
              ("target_user_id", JStr caller_id);
              ("group_id", json_of (groupId (comp w)))]) w) ;;;
  ret tt.

(** [handleOffer(data)] *)
Definition handleOffer (offer : JSON) (caller_id : string) (v : Verdicts)
    : js W unit := fun w =>
  match localStreamRef (comp w) with
  | None => (w, Return tt)
  | Some _ =>
      let w1 := ensure_peer caller_id w in
      match peersRef (comp w1) !! caller_id with
      | Some peerConnection =>
          if bool_decide (signalingState peerConnection ≠ stable)
          then (w1, Return tt)
          else try_catch (handleOffer_try offer caller_id v)
                         (forget caller_id) w1
      | None => (w1, Throw)
      end
  end.

(** The [try] block of [handleAnswer]. *)
Definition handleAnswer_try (answer : JSON) (answerer_id : string)
    (v : Verdicts) : js W unit :=
  peer_do answerer_id (SetRemoteCall sdp_answer)
    (setRemoteDescription sdp_answer answer (accept_remote v)).

(** [handleAnswer(data)] *)
Definition handleAnswer (answer : JSON) (answerer_id : string)
    (v : Verdicts) : js W unit := fun w =>
  match peersRef (comp w) !! answerer_id with
  | None => (w, Return tt)
  | Some peerConnection =>
      if bool_decide (signalingState peerConnection ≠ have_local_offer)
      then (w, Return tt)
      else try_catch (handleAnswer_try answer answerer_id v)
                     (forget answerer_id) w
  end.

(** [handleIceCandidate(data)] *)
Definition handleIceCandidate (candidate : JSON) (sender_id : string)
    (v : Verdicts) : js W unit := fun w =>
  match peersRef (comp w) !! sender_id with
  | Some _ =>
      try_catch
        (peer_do sender_id AddIceCall
           (addIceCandidate candidate (accept_candidate v)))
        (ret tt)
        w
  | None => (w, Return tt)
  end.

(** An [async] handler called without [await]: its promise is dropped. *)
Definition detached (m : js W unit) : js W unit := fun w =>
  (fst (m w), Return tt).

(** [array.forEach((item, index) => ..)] *)
Definition forEach_indexed {X : Type} (f : X -> nat -> js W unit)
    (items : list X) : js W unit :=
  forEach (fun p => f (snd p) (fst p)) (imap pair items).

(** The body of the loop over [data.participants]. *)
Definition offer_to_listed (participantId : string) (index : nat)
    : js W unit := fun w =>
  if bool_decide (Some participantId ≠ user_id (comp w))
     && negb (bool_decide (is_Some (peersRef (comp w) !! participantId)))
  then
    (fetchParticipantName participantId
       (setTimeout (CreateOffer participantId) (500 + index * 200) w),
     Return tt)
  else (w, Return tt).

(** [handleWebRTCMessage(data)] *)
Definition handleWebRTCMessage (data : Inbound) (v : Verdicts)
    : js W unit := fun w =>
  let has_stream :=
    match localStreamRef (comp w) with Some _ => true | None => false end in
  match data with
  | webrtc_offer sdp caller_id => detached (handleOffer sdp caller_id v) w
  | webrtc_answer sdp answerer_id =>
      detached (handleAnswer sdp answerer_id v) w
  | webrtc_ice_candidate candidate sender_id =>
      detached (handleIceCandidate candidate sender_id v) w
  | user_joined uid | call_participant_ready uid =>
      if bool_decide (Some uid ≠ user_id (comp w)) then
        if has_stream then (setTimeout (CreateOffer uid) 500 w, Return tt)
        else (w, Return tt)
      else (w, Return tt)
  | call_participants_list listed =>
      match listed with
      | Some (first :: others) =>
          if has_stream then
            forEach_indexed offer_to_listed (first :: others) w
          else (w, Return tt)
      | _ => (w, Return tt)
      end
  | participant_mute_status uid is_muted =>
      if bool_decide (Some uid ≠ user_id (comp w)) then
        (upd (fun c =>
                let existing :=
                  default (mkParticipant "User" false)
                          (participants c !! uid) in
                set_participants
                  (<[uid := mkParticipant (participant_name existing)
                              is_muted]> (participants c)) c) w,
         Return tt)
      else (w, Return tt)
  | other_type => (w, Return tt)
  end.

(** A pending timer of the component fires. *)
Definition fire (k : nat) (v : Verdicts) (w : W) : option W :=
  match pending (comp w) !! k with
  | Some t =>
      let w1 := upd (fun c => set_pending (delete k (pending c)) c) w in
      match timer_action t with
      | CreateOffer uid => Some (fst (createOfferForUser uid v w1))
      | AnnounceReady =>
          match localStreamRef (comp w1) with
          | Some _ =>
              Some (fst (wsService.send
                           (JObj [("type", JStr "call_participant_ready");
                                  ("user_id", json_of (user_id (comp w1)));
                                  ("group_id", json_of (groupId (comp w1)))])
                           w1))
          | None => Some w1
          end
      | Reconnect _ => None
      end
  | None => None
  end.

(** [stream.getAudioTracks().forEach(f)] and the like: [f] applied to the
    track objects of [stream] that satisfy [which]. *)
Definition update_tracks (which : Track -> bool) (f : Track -> Track)
    (stream : MediaStream) (store : list Track) : list Track :=
  foldl (fun st h => alter (fun t => if which t then f t else t) h st)
        store stream.

Definition is_audio (t : Track) : bool := bool_decide (kind t = audio).
Definition is_video (t : Track) : bool := bool_decide (kind t = video).

(** [toggleMute()] *)
Definition toggleMute : js W unit := fun w =>
  match localStream (comp w) with
  | Some stream =>
      let newMutedState := negb (isMuted (comp w)) in
      let w1 :=
        upd (fun c =>
               set_isMuted newMutedState
                 (set_tracks
                    (update_tracks is_audio (set_enabled newMutedState)
                       stream (tracks c)) c)) w in
      match groupId (comp w) with
      | Some g =>
          if truthy (JStr g) then
            (wsService.send
               (JObj [("type", JStr "participant_mute_status");
                      ("user_id", json_of (user_id (comp w)));
                      ("is_muted", JBool newMutedState);
                      ("group_id", JStr g)]) ;;;
             ret tt) w1
          else (w1, Return tt)
      | None => (w1, Return tt)
      end
  | None => (w, Return tt)
  end.

(** [toggleVideo()] *)
Definition toggleVideo (w : W) : W :=
  match localStream (comp w) with
  | Some stream =>
      upd (fun c =>
             set_isVideoOff (negb (isVideoOff c))
               (set_tracks
                  (update_tracks is_video (set_enabled (isVideoOff c))
                     stream (tracks c)) c)) w
  | None => w
  end.

(** [cleanup()]. [seen] is the [remoteStreams] value captured by the
    closure that runs: the current one from the End Call button, the one
    of the render that installed the effect on unmount. The audio
    elements are page objects outside this model; only the list of
    references to them is kept. *)
Definition cleanup (seen : list RemoteStream) (w : W) : W :=
  let w1 :=
    upd (fun c => set_peersRef ∅ (set_peersRef (close_peer <$> peersRef c) c))
        w in
  let w2 :=
    match localStreamRef (comp w1) with
    | Some local =>
        upd (fun c =>
               set_localStream None
                 (set_localStreamRef None
                    (set_tracks
                       (update_tracks (fun _ => true) stop local (tracks c))
                       c))) w1
    | None => w1
    end in
  let w3 :=
    upd (fun c =>
           set_tracks
             (foldl (fun st s =>
                       update_tracks (fun _ => true) stop (stream s) st)
                    (tracks c) seen) c) w2 in
  upd (fun c => set_remoteAudioRefs [] (set_remoteStreams [] c)) w3.

(** [handleEndCall()]; the navigation that follows unmounts the
    component. *)
Definition handleEndCall (w : W) : W := cleanup (remoteStreams (comp w)) w.

(** The function returned by the first effect, run on unmount. *)
Definition unmount (seen : list RemoteStream) : js W unit := fun w =>
  match groupId (comp w) with
  | Some g =>
      if truthy (JStr g) then
        (wsService.endCall ;;; exec (cleanup seen)) w
      else (cleanup seen w, Return tt)
  | None => (cleanup seen w, Return tt)
  end.

(** The participants on whose connection [createOffer] was called, in
    order. *)
Definition offers_created (w : W) : list string :=
  fst <$> filter (fun c => snd c = CreateOfferCall) (rtcCalls (comp w)).


(** [userId] has no entry any more and the other entries are those of
    [w]. *)
Definition forgotten (userId : string) (w w' : W) : Prop :=
  peersRef (comp w') !! userId = None
  /\ forall other, other <> userId ->
       peersRef (comp w') !! other = peersRef (comp w) !! other.

(** A piece of code that leaves the entries of the other participants
    alone. *)
Definition keeps_others (userId : string) {T : Type} (m : js W T) : Prop :=
  forall w w' c, m w = (w', c) ->
    forall other, other <> userId ->
      peersRef (comp w') !! other = peersRef (comp w) !! other.

End VoiceCall.

(** ** [createOfferForUser] between its [await]s

    [createOfferForUser] is suspended twice, at [await createOffer] and at
    [await setLocalDescription], and other handlers run meanwhile: a
    second timer may fire while the call for the first one waits. Here
    the call is taken apart at its [await]s. A suspended call keeps the
    connection object it read from the registry in its variable
    [peerConnection]; when the entry is deleted meanwhile the object goes
    on living outside the registry, and the calls that hold it go on
    using it. *)

Module OfferTasks.
Import VoiceCall.

(** Where a call is suspended. *)
Inductive Stage : Type :=
| AwaitOffer
| AwaitLocal (offer : JSON).

(** The connection a suspended call holds: the one the registry keeps for
    its user, or one that has been deleted from the registry since. *)
Inductive Held : Type :=
| Registered
| Detached (k : nat).

Record Task : Type := mkTask {
  task_user : string;
  task_held : Held;
  task_stage : Stage;
}.

(** The component with the calls that are suspended and the connections
    that have left the registry. *)
Record Calls : Type := mkCalls {
  world : W;
  detached : list PeerConnection;
  running : list Task;
}.

Definition held_peer (t : Task) (c : Calls) : option PeerConnection :=
  match task_held t with
  | Registered => peersRef (comp (world c)) !! task_user t
  | Detached k => detached c !! k
  end.

Definition set_held (t : Task) (pc : PeerConnection) (c : Calls) : Calls :=
  match task_held t with
  | Registered =>
      mkCalls
        (upd (fun x => set_peersRef (<[task_user t := pc]> (peersRef x)) x)
             (world c))
        (detached c) (running c)
  | Detached k => mkCalls (world c) (<[k := pc]> (detached c)) (running c)
  end.

(** [peersRef.current.delete(userId)] in the [catch]: the object, if
    there is one, leaves the registry, and the suspended calls that took
    it from there keep it. *)
Definition delete_entry (userId : string) (c : Calls) : Calls :=
  match peersRef (comp (world c)) !! userId with
  | Some pc =>
      mkCalls (fst (forget userId (world c)))
        (detached c ++ [pc])
        (map (fun t =>
                match task_held t with
                | Registered =>
                    if String.eqb (task_user t) userId
                    then mkTask (task_user t)
                           (Detached (length (detached c))) (task_stage t)
                    else t
                | Detached _ => t
                end) (running c))
  | None => c
  end.

(** [createOfferForUser(userId)] up to [await createOffer]: the guards,
    the connection, and the call of [createOffer] on it. *)
Definition start (userId : string) (c : Calls) : Calls :=
  match localStreamRef (comp (world c)) with
  | None => c
  | Some _ =>
      if offer_skipped userId (world c) then c
      else
        mkCalls
          (log_rtc userId CreateOfferCall (ensure_peer userId (world c)))
          (detached c)
          (running c ++ [mkTask userId Registered AwaitOffer])
  end.

Definition offer_frame (offer : JSON) (userId : string) (w : W) : JSON :=
  JObj [("type", JStr "webrtc_offer");
        ("offer", offer);
        ("target_user_id", JStr userId);
        ("group_id", json_of (groupId (comp w)))].

(** The call [i] goes on with what the browser answers: after
    [createOffer], it calls [setLocalDescription] with the offer; after
    [setLocalDescription], it sends the offer and ends. When the browser
    throws, the [catch] deletes the entry of the user and the call
    ends. *)
Definition resume (i : nat) (v : Verdicts) (c : Calls) : option Calls :=
  t ← running c !! i;
  pc ← held_peer t c;
  let ended := mkCalls (world c) (detached c) (delete i (running c)) in
  match task_stage t with
  | AwaitOffer =>
      match createOffer (built_offer v) pc with
      | Return offer =>
          Some (mkCalls
                  (log_rtc (task_user t) (SetLocalCall sdp_offer) (world c))
                  (detached c)
                  (<[i := mkTask (task_user t) (task_held t)
                            (AwaitLocal offer)]> (running c)))
      | Throw => Some (delete_entry (task_user t) ended)
      end
  | AwaitLocal offer =>
      match setLocalDescription sdp_offer offer (accept_local v) pc with
      | Return pc' =>
          let c1 := set_held t pc' ended in
          Some (mkCalls
                  (fst (wsService.send
                          (offer_frame offer (task_user t) (world c1))
                          (world c1)))
                  (detached c1) (running c1))
      | Throw => Some (delete_entry (task_user t) ended)
      end
  end.

(** A timer of the component fires; [createOfferForUser] runs as far as
    its first [await]. *)
Definition timer_fires (k : nat) (c : Calls) : option Calls :=
  t ← pending (comp (world c)) !! k;
  let w1 := upd (fun x => set_pending (delete k (pending x)) x) (world c) in
  match timer_action t with
  | CreateOffer uid => Some (start uid (mkCalls w1 (detached c) (running c)))
  | AnnounceReady =>
      Some (mkCalls
              match localStreamRef (comp w1) with
              | Some _ =>
                  fst (wsService.send
                         (JObj [("type", JStr "call_participant_ready");
                                ("user_id", json_of (user_id (comp w1)));
                                ("group_id", json_of (groupId (comp w1)))])
                         w1)
              | None => w1
              end (detached c) (running c))
  | Reconnect _ => None
  end.

(** What the event loop runs next: a timer, or the continuation of a
    suspended call. *)
Inductive Move : Type :=
| Fires (k : nat)
| Resumes (i : nat) (v : Verdicts).

Definition move (m : Move) (c : Calls) : option Calls :=
  match m with
  | Fires k => timer_fires k c
  | Resumes i v => resume i v c
  end.

Fixpoint play (moves : list Move) (c : Calls) : option Calls :=
  match moves with
  | [] => Some c
  | m :: rest =>
      match move m c with
      | Some c' => play rest c'
      | None => None
      end
  end.



(** The frames handed to the current socket. *)
Definition sent (w : W) : list string :=
  default [] (sock_sent <$> wsService.current_socket w).




End OfferTasks.

(** ** The earlier call component, without signalling *)

Module VoiceCallBasic.

(** Its [toggleMute()], on the stream, the flag and the track objects. *)
Definition toggleMute (localStream : option MediaStream) (isMuted : bool)
    (tracks : list Track) : bool * list Track :=
  match localStream with
  | Some stream =>
      (negb isMuted,
       VoiceCall.update_tracks VoiceCall.is_audio (set_enabled isMuted)
         stream tracks)
  | None => (isMuted, tracks)
  end.

End VoiceCallBasic.

(** ** The life of the transport channel

    What can happen to the service, one event at a time: a call from the
    application, a token promise settling, a socket opening, failing to
    open (the browser closes it and fires [error] then [close]), an open
    or closing socket reaching CLOSED, a frame arriving, a timer firing,
    an open socket entering its closing handshake. Each event runs its
    handlers to completion, as the event loop does; a socket becomes
    CLOSED in the step that fires its [close] handler; it becomes CLOSING
    through [close()], or when the closing handshake starts from the
    other end, in which case no handler runs before [close] is fired.
    Listeners act on the application state: none calls back into the
    service while it is dispatched. [step] is [None] when the event
    cannot happen in that state. *)

Module Lifecycle.
Import WebSocketService.

Inductive Event : Type :=
| CallSetGetToken (fn : nat)
| CallConnect (groupId : string)
| CallSend (data : JSON)
| CallOn (event : string) (callback : nat)
| CallOff (event : string) (callback : nat)
| CallDisconnect
| TokenSettled (k : nat) (r : TokenResult)
| SocketOpened (h : nat)
| SocketFailed (h : nat)
| SocketClosed (h : nat)
| SocketMessage (h : nat) (parsed : option JSON)
| TimerFired (k : nat)
| SocketClosing (h : nat).

Section Step.
Context {A : Type}.
Variable call : nat -> JSON -> A -> A * Completion unit.

Definition mark (h : nat) (st : ReadyState) (w : World A) : World A :=
  set_sockets (alter (set_sock_state st) h (sockets w)) w.

Definition step (e : Event) (w : World A) : option (World A) :=
  match e with
  | CallSetGetToken fn => Some (setGetToken fn w)
  | CallConnect groupId => Some (connect groupId w)
  | CallSend data => Some (fst (send data w))
  | CallOn event callback => Some (on event callback w)
  | CallOff event callback => Some (off event callback w)
  | CallDisconnect => Some (disconnect w)
  | TokenSettled k r =>
      groupId ← awaiting w !! k;
      Some (connect_resume groupId r
              (set_awaiting (delete k (awaiting w)) w))
  | SocketOpened h =>
      s ← sockets w !! h;
      if bool_decide (sock_state s = CONNECTING)
      then Some (fst (onopen call (mark h OPEN w)))
      else None
  | SocketFailed h =>
      s ← sockets w !! h;
      if bool_decide (sock_state s = CONNECTING)
      then Some (fst ((onerror call JUndefined ;;;
                       onclose call (sock_group s)) (mark h CLOSED w)))
      else None
  | SocketClosed h =>
      s ← sockets w !! h;
      if bool_decide (sock_state s = OPEN)
         || bool_decide (sock_state s = CLOSING)
      then Some (fst (onclose call (sock_group s) (mark h CLOSED w)))
      else None
  | SocketMessage h parsed =>
      s ← sockets w !! h;
      if bool_decide (sock_state s = OPEN)
      then Some (fst (onmessage call parsed w))
      else None
  | TimerFired k =>
      t ← timers w !! k;
      match timer_action t with
      | Reconnect groupId =>
          Some (connect groupId (set_timers (delete k (timers w)) w))
      | _ => None
      end
  | SocketClosing h =>
      s ← sockets w !! h;
      if bool_decide (sock_state s = OPEN)
      then Some (mark h CLOSING w)
      else None
  end.

Fixpoint run (trace : list Event) (w : World A) : option (World A) :=
  match trace with
  | [] => Some w
  | e :: rest =>
      match step e w with
      | Some w' => run rest w'
      | None => None
      end
  end.

(** The page loads: the service is constructed, nothing else exists. *)
Definition start (loc : Location) (a : A) : World A :=
  mkWorld constructor [] [] [] loc a [] [] [].

(** Sockets that are not closed. *)
Definition live (w : World A) : list nat :=
  filter (fun h => sock_state <$> sockets w !! h ≠ Some CLOSED)
         (seq 0 (length (sockets w))).

(** How many times [event] was emitted. *)
Definition emissions (event : string) (w : World A) : nat :=
  length (filter (fun e => fst e = event) (emitted w)).

(** Events of the runtime alone, the application staying silent. *)
Definition spontaneous (e : Event) : bool :=
  match e with
  | TokenSettled _ _ | SocketOpened _ | SocketFailed _ | SocketClosed _
  | SocketMessage _ _ | TimerFired _ | SocketClosing _ => true
  | _ => false
  end.


(** The run in which every attempt to open fails: socket [h] fails,
    the reconnect timer fires, the token (when there is a getter)
    arrives and socket [h + 1] is constructed, and so on, [n] times,
    until a last failure. *)
Definition reopen (token : option string) : list Event :=
  match token with
  | Some t => [TimerFired 0; TokenSettled 0 (Resolved t)]
  | None => [TimerFired 0]
  end.

Fixpoint failures (token : option string) (n h : nat) : list Event :=
  match n with
  | 0 => [SocketFailed h]
  | S n' => SocketFailed h :: reopen token ++ failures token n' (S h)
  end.

(** Every socket is closed. *)
Definition all_closed (w : World A) : Prop :=
  forall h s, sockets w !! h = Some s -> sock_state s = CLOSED.


(** An attempt to open is in flight: socket [h], the last one constructed,
    is connecting and is the current one, the earlier ones are closed, no
    timer is pending, nobody waits for a token, [n] reconnections have been
    counted. [token] tells whether a token getter is installed. *)
Definition attempting (token : option string) (h n : nat) (w : World A)
    : Prop :=
  ws (this w) = Some h
  /\ length (sockets w) = S h
  /\ (exists s, sockets w !! h = Some s /\ sock_state s = CONNECTING)
  /\ (forall h' s, h' < h -> sockets w !! h' = Some s ->
                   sock_state s = CLOSED)
  /\ timers w = [] /\ awaiting w = []
  /\ reconnectAttempts (this w) = n
  /\ (is_Some (getToken (this w)) <-> is_Some token).

(** The part of the state [consistent] looks at. *)
Definition shape (w : World A)
    : option nat * bool * list string * list ReadyState :=
  (ws (this w), isConnecting (this w), awaiting w, sock_state <$> sockets w).

End Step.

End Lifecycle.

(** ** The call component: media, mount and profile lookups *)

Module VoiceCallSession.
Import VoiceCall.

Definition set_isConnected (x : bool) (c : Component) : Component :=
  mkComponent (groupId c) (user_id c) (isVideo c) (localStream c)
    (remoteStreams c) (participants c) (isMuted c) (isVideoOff c) x
    (permissionStatus c) (peersRef c) (localStreamRef c) (remoteAudioRefs
    c) (tracks c) (pending c) (profileRequests c) (rtcCalls c).
Definition set_permissionStatus (x : PermissionStatus) (c : Component) : Component :=
  mkComponent (groupId c) (user_id c) (isVideo c) (localStream c)
    (remoteStreams c) (participants c) (isMuted c) (isVideoOff c)
    (isConnected c) x (peersRef c) (localStreamRef c) (remoteAudioRefs c)
    (tracks c) (pending c) (profileRequests c) (rtcCalls c).

(** The profile [usersAPI.getUserProfile] answers with; a field that is
    missing or null is [None]. *)
Record Profile : Type := mkProfile {
  display_name : option string;
  firstName : option string;
  lastName : option string;
  username : option string;
  email : option string;
}.

(** [a || b] on strings that may be missing. *)
Definition or_else (a b : option string) : option string :=
  match a with
  | Some s => if truthy (JStr s) then a else b
  | None => b
  end.

(** [email.split('@')[0]] *)
Fixpoint before_at (s : string) : string :=
  match s with
  | EmptyString => EmptyString
  | String c rest =>
      if Ascii.eqb c "@"%char then EmptyString else String c (before_at rest)
  end.

(** The name [fetchParticipantName] computes from the profile. *)
Definition displayName (profile : option Profile) : string :=
  let full :=
    match profile ≫= firstName, profile ≫= lastName with
    | Some f, Some l =>
        if truthy (JStr f) && truthy (JStr l) then Some (f +:+ " " +:+ l)
        else None
    | _, _ => None
    end in
  default "User"
    (or_else
       (or_else
          (or_else (or_else (profile ≫= display_name) full)
                   (profile ≫= username))
          (before_at <$> (profile ≫= email)))
       (Some "User")).

(** The lookup of [fetchParticipantName] answers, or fails. *)
Definition profile_resolved (userId : string) (profile : option Profile)
    (w : W) : W :=
  profile_settled userId (Some (displayName profile)) w.

Definition profile_failed (userId : string) (w : W) : W :=
  profile_settled userId None w.

(** The [error] and [permissionError] cells, beside the component. *)
Record Notice : Type := mkNotice {
  error_text : string;
  permissionError : option string;
}.

(** What [getUserMedia] answers: a stream of new tracks, or an error with
    its name and message. *)
Inductive MediaResult : Type :=
| GotStream (new_tracks : list Track)
| MediaError (name : string) (message : option string).

(** The [catch] of [requestMediaAccess]: category and text. *)
Definition classify (name : string) (message : option string)
    : string * string :=
  let said := "Failed to access camera/microphone. " in
  if String.eqb name "NotAllowedError"
     || String.eqb name "PermissionDeniedError"
  then ("permission-denied",
        said +:+ "Please allow camera/microphone access when prompted, or enable permissions in your browser settings.")
  else if String.eqb name "NotFoundError"
          || String.eqb name "DevicesNotFoundError"
  then ("device-not-found",
        said +:+ "No camera or microphone found. Please connect a device and try again.")
  else if String.eqb name "NotReadableError"
          || String.eqb name "TrackStartError"
  then ("device-in-use",
        said +:+ "Camera or microphone is already in use by another application.")
  else if String.eqb name "OverconstrainedError"
          || String.eqb name "ConstraintNotSatisfiedError"
  then ("constraint-error",
        said +:+ "Camera/microphone does not support the required settings.")
  else ("unknown",
        said +:+ "Error: "
        +:+ default "Unknown error occurred" (or_else message None)).

(** [requestMediaAccess()], with the answer of [getUserMedia].
    [currentUserName] is the name computed from the signed-in user. *)
Definition requestMediaAccess (result : MediaResult)
    (currentUserName : string) (s : W * Notice) : W * Notice :=
  let w0 := upd (set_permissionStatus requesting) (fst s) in
  match result with
  | GotStream new_tracks =>
      let stream := seq (length (tracks (comp w0))) (length new_tracks) in
      let w1 :=
        upd (fun c =>
               set_permissionStatus granted
                 (set_isConnected true
                    (set_localStreamRef (Some stream)
                       (set_localStream (Some stream)
                          (set_tracks (tracks c ++ new_tracks) c))))) w0 in
      let w2 :=
        match groupId (comp w1), user_id (comp w1) with
        | Some g, Some u =>
            if truthy (JStr g) && truthy (JStr u) then
              upd (fun c =>
                     set_participants
                       (<[u := mkParticipant currentUserName false]>
                          (participants c)) c)
                  (fst (wsService.send
                          (JObj [("type", JStr "call_participant_ready");
                                 ("user_id", JStr u);
                                 ("group_id", JStr g)]) w1))
            else w1
        | _, _ => w1
        end in
      (w2, mkNotice EmptyString None)
  | MediaError name message =>
      (upd (set_permissionStatus denied) w0,
       mkNotice (snd (classify name message))
                (Some (fst (classify name message))))
  end.

(** What [navigator.permissions] answers: absent, throwing, or the states
    of the microphone and of the camera. *)
Inductive PermissionQuery : Type :=
| NoPermissionsApi
| QueryThrows
| QueryStates (microphone camera : string).

(** [checkPermissionsAndInitialize()] *)
Definition checkPermissionsAndInitialize (has_getUserMedia : bool)
    (query : PermissionQuery) (result : MediaResult)
    (currentUserName : string) (s : W * Notice) : W * Notice :=
  if negb has_getUserMedia then
    (upd (set_permissionStatus error) (fst s),
     mkNotice "Your browser does not support camera/microphone access."
              (permissionError (snd s)))
  else
    let blocked :=
      match query with
      | QueryStates microphone camera =>
          String.eqb microphone "denied"
          || (isVideo (comp (fst s)) && String.eqb camera "denied")
      | _ => false
      end in
    if blocked then
      (upd (set_permissionStatus denied) (fst s),
       mkNotice "Camera/microphone permissions were denied. Please enable them in your browser settings."
                (permissionError (snd s)))
    else requestMediaAccess result currentUserName s.

(** [initializeCall] once [await wsService.connect(groupId)] has returned:
    the call notification, then the timer that announces readiness. *)
Definition initializeCall_resume (callType callerName : JSON) : js W unit :=
  wsService.startCall callType callerName ;;;
  exec (setTimeout AnnounceReady 1000).

(** The first effect when the component mounts with the token getter
    [fn]: [setGetToken], then [initializeCall] as far as it runs at once.
    When [connect] returns at its guard the rest follows in the same
    turn; otherwise it waits for the token, see [token_settled]. *)
Definition mount (fn : nat) (callType callerName : JSON) (w : W) : W :=
  let w1 := wsService.setGetToken fn w in
  match groupId (comp w1) with
  | Some g =>
      if truthy (JStr g) then
        if wsService.isConnecting (wsService.this w1)
           || wsService.isConnected w1
        then fst (initializeCall_resume callType callerName
                    (wsService.connect g w1))
        else wsService.connect g w1
      else w1
  | None => w1
  end.

(** The token of that [connect] settles: [connect] finishes and
    [initializeCall] goes on. *)
Definition token_settled (k : nat) (r : wsService.TokenResult)
    (callType callerName : JSON) (w : W) : option W :=
  match wsService.awaiting w !! k with
  | Some g =>
      Some (fst (initializeCall_resume callType callerName
                   (wsService.connect_resume g r
                      (wsService.set_awaiting
                         (delete k (wsService.awaiting w)) w))))
  | None => None
  end.

(** What happens to a mounted component, one event at a time. *)
Inductive Action : Type :=
| Receive (data : Inbound) (v : Verdicts)
| Fire (k : nat) (v : Verdicts)
| TrackArrived (userId : string) (remoteStream : MediaStream)
| CandidateFound (userId : string) (candidate : option JSON)
| ConnectionChanged (userId : string) (state : ConnectionState)
| ProfileResolved (userId : string) (profile : option Profile)
| ProfileFailed (userId : string)
| MediaSettled (result : MediaResult) (currentUserName : string)
| PressMute
| PressVideo
| PressEndCall.

Definition act (a : Action) (s : W * Notice) : option (W * Notice) :=
  let keep (w : W) := Some (w, snd s) in
  match a with
  | Receive data v => keep (fst (handleWebRTCMessage data v (fst s)))
  | Fire k v => w ← fire k v (fst s); keep w
  | TrackArrived userId remoteStream =>
      keep (ontrack userId remoteStream (fst s))
  | CandidateFound userId candidate =>
      keep (fst (onicecandidate userId candidate (fst s)))
  | ConnectionChanged userId state =>
      keep (onconnectionstatechange userId state (fst s))
  | ProfileResolved userId profile =>
      keep (profile_resolved userId profile (fst s))
  | ProfileFailed userId => keep (profile_failed userId (fst s))
  | MediaSettled result currentUserName =>
      Some (requestMediaAccess result currentUserName s)
  | PressMute => keep (fst (toggleMute (fst s)))
  | PressVideo => keep (toggleVideo (fst s))
  | PressEndCall => keep (handleEndCall (fst s))
  end.

Fixpoint session (actions : list Action) (s : W * Notice)
    : option (W * Notice) :=
  match actions with
  | [] => Some s
  | a :: rest =>
      match act a s with
      | Some s' => session rest s'
      | None => None
      end
  end.


(** What the component keeps true: the state cell and the ref hold the
    same local stream, and the remote streams carry distinct ids, the id
    of each being built from its user. *)
Definition tidy (w : W) : Prop :=
  localStream (comp w) = localStreamRef (comp w)
  /\ NoDup (id <$> remoteStreams (comp w))
  /\ forall s, s ∈ remoteStreams (comp w) -> id s = "stream-" +:+ userId s.

(** The events the second effect subscribes [handleWebRTCMessage] to. *)
Definition subscribed : list string :=
  ["webrtc_offer"; "webrtc_answer"; "webrtc_ice_candidate"; "user_joined";
   "call_participant_ready"; "call_participants_list"].

(** That effect when the room is known, [handler] being the
    [handleWebRTCMessage] of the render, and the function it returns. *)
Definition listen {A : Type} (handler : nat) (w : wsService.World A)
    : wsService.World A :=
  foldl (fun w event => wsService.on event handler w) w subscribed.

Definition unlisten {A : Type} (handler : nat) (w : wsService.World A)
    : wsService.World A :=
  foldl (fun w event => wsService.off event handler w) w subscribed.

(** The cells that hold media: the local stream, in the state and in the
    ref, and the remote streams. *)
Definition media (w : W)
    : option MediaStream * option MediaStream * list RemoteStream :=
  (localStream (comp w), localStreamRef (comp w), remoteStreams (comp w)).

(** A piece of code that leaves them alone. *)
Definition keeps_media {T : Type} (m : js W T) : Prop :=
  forall w, media (fst (m w)) = media w.

End VoiceCallSession.

(** ** The chat room: its listeners on the transport *)

Module ChatRoom.

(** [a || b] *)
Definition or_else (a b : JSON) : JSON := if truthy a then a else b.

(** [data.type === name] *)
Definition has_type (name : string) (data : JSON) : bool :=
  match prop "type" data with
  | JStr s => String.eqb s name
  | _ => false
  end.

(** The entry [handleMessage] builds from a frame. *)
Definition messageData (data : JSON) : JSON :=
  JObj [("id", or_else (prop "id" data) (prop "timestamp" data));
        ("user_id", prop "user_id" data);
        ("username", or_else (prop "username" data) (JStr "User"));
        ("content", prop "content" data);
        ("timestamp", prop "timestamp" data);
        ("created_at",
         or_else (prop "created_at" data) (prop "timestamp" data))].

(** [handleMessage(data)] on the [messages] cell. Reading [data.type] of
    null or undefined throws. *)
Definition handleMessage (data : JSON) (messages : list JSON)
    : list JSON * Completion unit :=
  match data with
  | JNull | JUndefined => (messages, Throw)
  | _ =>
      if has_type "message" data || has_type "new_message" data then
        (messages ++ [messageData data], Return tt)
      else (messages, Return tt)
  end.

(** The listeners of the page: callback 0 is [handleMessage]; callback 1,
    [handleIncomingCall], and any other leave the messages alone. *)
Definition listener (callback : nat) (data : JSON) (messages : list JSON)
    : list JSON * Completion unit :=
  if callback =? 0 then handleMessage data messages
  else (messages, Return tt).

(** The effect that connects the page, with the token getter [fn], and
    the function it returns. *)
Definition mount (fn : nat) (groupId : string)
    (w : wsService.World (list JSON)) : wsService.World (list JSON) :=
  wsService.on "call_declined" 1
    (wsService.on "call_ended" 1
       (wsService.on "incoming_call" 1
          (wsService.on "message" 0
             (wsService.connect groupId (wsService.setGetToken fn w))))).

Definition unmount (w : wsService.World (list JSON))
    : wsService.World (list JSON) :=
  wsService.off "call_declined" 1
    (wsService.off "call_ended" 1
       (wsService.off "incoming_call" 1 (wsService.off "message" 0 w))).

End ChatRoom.

(** ** Concrete situations, used to exercise the statements below *)

Module Scenario.
Import VoiceCall.

Definition page : Location := mkLocation "https:" "chat.example".

(** Listeners that return, on an application without state. *)
Definition quiet (callback : nat) (data : JSON) (a : unit)
    : unit * Completion unit :=
  (a, Return tt).

(** Listeners that note their own call; listener 1 then throws. *)
Definition faulty (callback : nat) (data : JSON) (a : list nat)
    : list nat * Completion unit :=
  (a ++ [callback], if callback =? 1 then Throw else Return tt).

(** The first [connect] of a page, token received, socket 0 connecting. *)
Definition first_attempt : wsService.World unit :=
  default (Lifecycle.start page tt)
    (Lifecycle.run quiet
       [Lifecycle.CallSetGetToken 7; Lifecycle.CallConnect "g1";
        Lifecycle.TokenSettled 0 (wsService.Resolved "tok")]
       (Lifecycle.start page tt)).

(** A voice call in room g1: user u1 with one microphone track, the
    socket open, an offer sent to u2 and not yet answered. *)
Definition mic : Track := mkTrack audio true false.

Definition offering : PeerConnection :=
  mkPeer have_local_offer new (Some (JStr "offer-sdp")) None [0] [].

Definition component : Component :=
  mkComponent (Some "g1") (Some "u1") false (Some [0]) []
    {["u2" := mkParticipant "Bob" false]} false false true granted
    {["u2" := offering]} (Some [0]) [] [mic] [] [] [].

Definition in_call : W :=
  wsService.mkWorld (wsService.mkService (Some 0) 0 ∅ false (Some 7))
    [mkSocket "wss://chat.example:8000/ws/g1" "g1" OPEN []] [] [] page
    component [] [] [].

(** The same call before anybody else is known. *)
Definition alone : W :=
  wsService.set_app
    (set_participants ∅ (set_peersRef ∅ component)) in_call.

Definition accepting : Verdicts :=
  mkVerdicts (Some (JStr "offer-sdp")) (Some (JStr "answer-sdp"))
    true true true.

Definition refusing : Verdicts := mkVerdicts None None false false false.

End Scenario.

(** * Properties of the transport channel *)

Section TransportFacts.
Import WebSocketService Lifecycle.
Context {A : Type}.
Variable call : nat -> JSON -> A -> A * Completion unit.

(** C7. [send] hands the serialized message to the socket exactly when the
    connection is open and then returns true; in every other state, a
    closed socket and no socket at all included, it returns false and
    changes nothing. It always returns a boolean: it never throws. *)
Theorem send_transmits_iff_open (data : JSON) (w : World A) :
  exists (sent : bool) (w' : World A),
    send data w = (w', Return sent)
    /\ (sent = true <-> readyState w = Some OPEN)
    /\ (sent = true ->
          exists h s,
            ws (this w) = Some h /\ sockets w !! h = Some s
            /\ w' = set_sockets
                      (<[h := mkSocket (sock_url s) (sock_group s) OPEN
                                (sock_sent s ++ [stringify data])]>
                         (sockets w)) w)
    /\ (sent = false -> w' = w).
Proof.
  unfold send, readyState, current_socket.
  destruct (ws (this w)) as [h|] eqn:Hws; simpl.
  - destruct (sockets w !! h) as [s|] eqn:Hs; simpl.
    + destruct (sock_state s) eqn:Hst; unfold sock_send; rewrite ?Hst; simpl.
      * exists false, w. repeat split; try congruence.
      * eexists true, _. split; [reflexivity|].
        repeat split; try congruence.
        intros _. exists h, s. repeat split; assumption.
      * exists false, w. repeat split; try congruence.
      * exists false, w. repeat split; try congruence.
    + exists false, w. repeat split; congruence.
  - exists false, w. repeat split; congruence.
Qed.

(** Registration appends to the list kept for the event and touches
    nothing else. *)
Lemma on_registers (event : string) (callback : nat) (w : World A) :
  listeners (this (on event callback w)) !! event
  = Some (default [] (listeners (this w) !! event) ++ [callback]).
Proof.
  unfold on. simpl.
  destruct (listeners (this w) !! event) as [cbs|] eqn:H; simpl.
  - rewrite lookup_alter_eq, H. reflexivity.
  - rewrite lookup_alter_eq, lookup_insert_eq. reflexivity.
Qed.

Lemma on_keeps (event : string) (callback : nat) (w : World A) :
  invoked (on event callback w) = invoked w
  /\ app (on event callback w) = app w
  /\ emitted (on event callback w) = emitted w.
Proof. repeat split. Qed.

Lemma on_many_registers (event : string) (callbacks : list nat)
    (w : World A) :
  callbacks <> [] ->
  listeners (this (foldl (fun w cb => on event cb w) w callbacks)) !! event
  = Some (default [] (listeners (this w) !! event) ++ callbacks).
Proof.
  revert w. induction callbacks as [|cb rest IH]; intros w Hne; [done|].
  simpl. destruct rest as [|cb' rest'].
  - simpl. apply on_registers.
  - rewrite IH by done. rewrite on_registers. simpl.
    by rewrite <- app_assoc.
Qed.

Lemma on_many_keeps (event : string) (callbacks : list nat) (w : World A) :
  let w1 := foldl (fun w cb => on event cb w) w callbacks in
  invoked w1 = invoked w /\ app w1 = app w
  /\ (callbacks = [] -> w1 = w).
Proof.
  revert w. induction callbacks as [|cb rest IH]; intros w; simpl.
  - done.
  - destruct (IH (on event cb w)) as (Hi & Ha & _).
    repeat split; [by rewrite Hi | by rewrite Ha | done].
Qed.

(** One callback inside its [try]/[catch]: whatever it does, the loop
    goes on. *)
Lemma guarded_invoke (callback : nat) (data : JSON) (w : World A) :
  try_catch (invoke call callback data) console_error w
  = (set_app (fst (call callback data (app w)))
       (log_invoked (callback, data) w), Return tt).
Proof.
  unfold try_catch, invoke, console_error, ret.
  destruct (call callback data (app w)) as [a [[]|]]; reflexivity.
Qed.

Lemma dispatch_all (data : JSON) (callbacks : list nat) (w : World A) :
  exists w',
    forEach (fun callback =>
               try_catch (invoke call callback data) console_error)
            callbacks w = (w', Return tt)
    /\ invoked w' = invoked w ++ map (fun cb => (cb, data)) callbacks
    /\ app w' = foldl (fun a cb => fst (call cb data a)) (app w) callbacks
    /\ this w' = this w /\ sockets w' = sockets w /\ timers w' = timers w
    /\ awaiting w' = awaiting w /\ location w' = location w
    /\ scheduled w' = scheduled w /\ emitted w' = emitted w.
Proof.
  revert w. induction callbacks as [|cb rest IH]; intros w.
  - exists w. simpl. rewrite app_nil_r. repeat split.
  - simpl. unfold bind at 1. rewrite guarded_invoke.
    destruct (IH (set_app (fst (call cb data (app w)))
                    (log_invoked (cb, data) w)))
      as (w' & Hrun & Hinv & Happ & Hrest).
    exists w'. split; [exact Hrun|].
    split; [rewrite Hinv; simpl; by rewrite <- app_assoc|].
    split; [exact Happ|]. exact Hrest.
Qed.

(** [emit] never throws and leaves the service, the sockets and the
    timers as they were. *)
Lemma emit_spec (event : string) (data : JSON) (w : World A) :
  exists w',
    emit call event data w = (w', Return tt)
    /\ invoked w' = invoked w
         ++ map (fun cb => (cb, data))
                (default [] (listeners (this w) !! event))
    /\ app w' = foldl (fun a cb => fst (call cb data a)) (app w)
                      (default [] (listeners (this w) !! event))
    /\ this w' = this w /\ sockets w' = sockets w /\ timers w' = timers w
    /\ awaiting w' = awaiting w /\ location w' = location w
    /\ scheduled w' = scheduled w
    /\ emitted w' = emitted w ++ [(event, data)].
Proof.
  unfold emit. simpl.
  destruct (listeners (this w) !! event) as [cbs|] eqn:H; simpl.
  - destruct (dispatch_all data cbs (log_emitted (event, data) w))
      as (w' & Hrun & Hrest).
    exists w'. split; [exact Hrun|]. exact Hrest.
  - eexists. split; [reflexivity|]. simpl. rewrite app_nil_r.
    repeat split.
Qed.

(** C8. Callbacks registered with [on] for an event are all invoked, in
    registration order, each time the event is emitted, whether or not
    some of them throw: the dispatch itself completes normally, the
    record of invocations grows by the registered callbacks in order, and
    the application state is the one reached by running every one of them
    in that order. *)
Theorem emit_in_registration_order (event : string) (data : JSON)
    (callbacks : list nat) (w : World A) :
  let registered :=
    default [] (listeners (this w) !! event) ++ callbacks in
  let w1 := foldl (fun w cb => on event cb w) w callbacks in
  exists w2,
    emit call event data w1 = (w2, Return tt)
    /\ invoked w2 = invoked w ++ map (fun cb => (cb, data)) registered
    /\ app w2 = foldl (fun a cb => fst (call cb data a)) (app w) registered.
Proof.
  intros registered w1.
  destruct (emit_spec event data w1) as (w2 & Hrun & Hinv & Happ & _).
  exists w2. split; [exact Hrun|].
  destruct (on_many_keeps event callbacks w) as (Hi & Ha & Hnil).
  fold w1 in Hi, Ha, Hnil.
  assert (Hreg : default [] (listeners (this w1) !! event) = registered).
  { destruct callbacks as [|cb rest].
    - rewrite Hnil by done. unfold registered. by rewrite app_nil_r.
    - unfold w1. by rewrite on_many_registers. }
  rewrite Hreg in Hinv, Happ. rewrite Hinv, Happ, Hi, Ha. done.
Qed.

(** *** What the socket handlers do to the service *)

Lemma exec_then {T : Type} (f : World A -> World A) (m : js (World A) T)
    (w : World A) :
  (exec f ;;; m) w = m (f w).
Proof. reflexivity. Qed.

Lemma onopen_spec (w : World A) :
  exists w',
    onopen call w = (w', Return tt)
    /\ this w' = mkService (ws (this w)) 0 (listeners (this w)) false
                           (getToken (this w))
    /\ sockets w' = sockets w /\ timers w' = timers w
    /\ awaiting w' = awaiting w /\ scheduled w' = scheduled w
    /\ emitted w' = emitted w ++ [("connected", JUndefined)].
Proof.
  unfold onopen. rewrite !exec_then.
  destruct (emit_spec "connected" JUndefined
              (set_reconnectAttempts 0 (set_isConnecting false w)))
    as (w' & Hrun & _ & _ & Hthis & Hs & Ht & Ha & _ & Hsch & Hem).
  exists w'. split; [exact Hrun|].
  rewrite Hthis, Hs, Ht, Ha, Hsch, Hem. repeat split.
Qed.

Lemma onerror_spec (error : JSON) (w : World A) :
  exists w',
    onerror call error w = (w', Return tt)
    /\ this w' = mkService (ws (this w)) (reconnectAttempts (this w))
                           (listeners (this w)) false (getToken (this w))
    /\ sockets w' = sockets w /\ timers w' = timers w
    /\ awaiting w' = awaiting w /\ scheduled w' = scheduled w
    /\ emitted w' = emitted w ++ [("error", error)].
Proof.
  unfold onerror. rewrite exec_then.
  destruct (emit_spec "error" error (set_isConnecting false w))
    as (w' & Hrun & _ & _ & Hthis & Hs & Ht & Ha & _ & Hsch & Hem).
  exists w'. split; [exact Hrun|].
  rewrite Hthis, Hs, Ht, Ha, Hsch, Hem. repeat split.
Qed.

Lemma attemptReconnect_spec (groupId : string) (w : World A) :
  exists w',
    attemptReconnect call groupId w = (w', Return tt)
    /\ sockets w' = sockets w /\ awaiting w' = awaiting w
    /\ ws (this w') = ws (this w)
    /\ isConnecting (this w') = isConnecting (this w)
    /\ getToken (this w') = getToken (this w)
    /\ listeners (this w') = listeners (this w)
    /\ if reconnectAttempts (this w) <? maxReconnectAttempts then
         let t := mkTimer (reconnectDelay * S (reconnectAttempts (this w)))
                          (Reconnect groupId) in
         reconnectAttempts (this w') = S (reconnectAttempts (this w))
         /\ timers w' = timers w ++ [t]
         /\ scheduled w' = scheduled w ++ [t]
         /\ emitted w' = emitted w
       else
         reconnectAttempts (this w') = reconnectAttempts (this w)
         /\ timers w' = timers w
         /\ scheduled w' = scheduled w
         /\ emitted w' = emitted w ++ [("reconnect_failed", JUndefined)].
Proof.
  unfold attemptReconnect.
  destruct (reconnectAttempts (this w) <? maxReconnectAttempts) eqn:Hlt.
  - eexists. split; [reflexivity|]. simpl. repeat split.
  - destruct (emit_spec "reconnect_failed" JUndefined w)
      as (w' & Hrun & _ & _ & Hthis & Hs & Ht & Ha & _ & Hsch & Hem).
    exists w'. split; [exact Hrun|].
    rewrite Hthis, Hs, Ht, Ha, Hsch, Hem. repeat split.
Qed.

Lemma onclose_spec (groupId : string) (w : World A) :
  exists w',
    onclose call groupId w = (w', Return tt)
    /\ sockets w' = sockets w /\ awaiting w' = awaiting w
    /\ ws (this w') = ws (this w)
    /\ isConnecting (this w') = false
    /\ getToken (this w') = getToken (this w)
    /\ listeners (this w') = listeners (this w)
    /\ if reconnectAttempts (this w) <? maxReconnectAttempts then
         let t := mkTimer (reconnectDelay * S (reconnectAttempts (this w)))
                          (Reconnect groupId) in
         reconnectAttempts (this w') = S (reconnectAttempts (this w))
         /\ timers w' = timers w ++ [t]
         /\ scheduled w' = scheduled w ++ [t]
         /\ emitted w' = emitted w ++ [("disconnected", JUndefined)]
       else
         reconnectAttempts (this w') = reconnectAttempts (this w)
         /\ timers w' = timers w
         /\ scheduled w' = scheduled w
         /\ emitted w' = emitted w ++ [("disconnected", JUndefined);
                                       ("reconnect_failed", JUndefined)].
Proof.
  unfold onclose. rewrite exec_then.
  destruct (emit_spec "disconnected" JUndefined (set_isConnecting false w))
    as (w1 & Hrun1 & _ & _ & Hthis & Hs & Ht & Ha & _ & Hsch & Hem).
  unfold bind at 1. rewrite Hrun1.
  destruct (attemptReconnect_spec groupId w1)
    as (w' & Hrun & Hs' & Ha' & Hws & Hic & Hgt & Hl & Hcase).
  exists w'. split; [exact Hrun|].
  rewrite Hs', Ha', Hws, Hic, Hgt, Hl, Hthis, Hs, Ha. simpl.
  do 6 (split; [reflexivity|]).
  rewrite Hthis in Hcase. simpl in Hcase.
  destruct (reconnectAttempts (this w) <? maxReconnectAttempts).
  - destruct Hcase as (H1 & H2 & H3 & H4).
    rewrite H1, H2, H3, H4, Ht, Hsch, Hem. repeat split.
  - destruct Hcase as (H1 & H2 & H3 & H4).
    rewrite H1, H2, H3, H4, Ht, Hsch, Hem, <- app_assoc. repeat split.
Qed.


(** *** At most one connection *)







Lemma mark_lookup (h h' : nat) (st : ReadyState) (w : World A) :
  sockets (mark h st w) !! h'
  = if decide (h = h') then set_sock_state st <$> sockets w !! h'
    else sockets w !! h'.
Proof.
  unfold mark. simpl. destruct (decide (h = h')) as [->|Hne].
  - apply list_lookup_alter_eq.
  - by apply list_lookup_alter_ne.
Qed.



Lemma send_shape (data : JSON) (w : World A) :
  shape (fst (send data w)) = shape w.
Proof.
  unfold send.
  destruct (ws (this w)) as [h|] eqn:Hws; [|done].
  destruct (sockets w !! h) as [s|] eqn:Hs; [|done].
  destruct (bool_decide (sock_state s = OPEN)) eqn:Hopen; [|done].
  apply bool_decide_eq_true_1 in Hopen.
  unfold sock_send. rewrite Hopen. unfold shape. simpl.
  rewrite list_fmap_insert. simpl.
  rewrite list_insert_id; [done|].
  rewrite list_lookup_fmap, Hs. simpl. by rewrite Hopen.
Qed.

(** [send] never throws and touches the sockets only, leaving each in
    the state it was in. *)
Lemma send_frame (data : JSON) (w : World A) :
  exists sent w',
    send data w = (w', Return sent)
    /\ this w' = this w /\ app w' = app w /\ timers w' = timers w
    /\ sock_state <$> sockets w' = sock_state <$> sockets w.
Proof.
  pose proof (send_shape data w) as Hshape.
  unfold shape in Hshape. injection Hshape as _ _ _ Hst.
  revert Hst. unfold send.
  destruct (ws (this w)) as [h|]; [|by exists false, w].
  destruct (sockets w !! h) as [s|]; [|by exists false, w].
  destruct (bool_decide (sock_state s = OPEN)) eqn:Hopen;
    [|by exists false, w].
  apply bool_decide_eq_true_1 in Hopen.
  unfold sock_send. rewrite Hopen. intros Hst.
  eexists true, _. split; [reflexivity|]. repeat split. exact Hst.
Qed.

Lemma send_app (data : JSON) (w : World A) :
  exists sent w', send data w = (w', Return sent) /\ app w' = app w.
Proof.
  destruct (send_frame data w) as (sent & w' & Hrun & _ & Happ & _).
  by exists sent, w'.
Qed.







(** *** Bounded reconnection *)

Lemma emissions_app (event : string) (l : list (string * JSON))
    (w w' : World A) :
  emitted w' = emitted w ++ l ->
  emissions event w'
  = emissions event w + length (filter (fun e => fst e = event) l).
Proof.
  intros H. unfold emissions. by rewrite H, filter_app, length_app.
Qed.

Lemma connect_fresh (groupId : string) (w : World A) :
  isConnecting (this w) = false -> isConnected w = false ->
  connect groupId w
  = match getToken (this w) with
    | Some _ => set_awaiting (awaiting w ++ [groupId])
                  (set_isConnecting true w)
    | None => connect_open groupId EmptyString (set_isConnecting true w)
    end.
Proof. intros Hic Hopen. unfold connect. by rewrite Hic, Hopen. Qed.

Lemma closed_not_connected (h : nat) (w : World A) :
  ws (this w) = Some h ->
  (forall s, sockets w !! h = Some s -> sock_state s = CLOSED) ->
  isConnected w = false.
Proof.
  intros Hws Hcl. unfold isConnected, current_socket. rewrite Hws. simpl.
  destruct (sockets w !! h) as [s|] eqn:Hs; [|done]. by rewrite (Hcl s).
Qed.

(** The attempt fails: what the state is once the handlers have run. *)
Lemma attempt_fails (token : option string) (h n : nat) (w : World A) :
  attempting token h n w ->
  exists w' groupId,
    step call (SocketFailed h) w = Some w'
    /\ ws (this w') = Some h /\ isConnecting (this w') = false
    /\ getToken (this w') = getToken (this w)
    /\ length (sockets w') = S h /\ all_closed w'
    /\ awaiting w' = []
    /\ if n <? maxReconnectAttempts then
         let t := mkTimer (reconnectDelay * S n) (Reconnect groupId) in
         reconnectAttempts (this w') = S n /\ timers w' = [t]
         /\ scheduled w' = scheduled w ++ [t]
         /\ emissions "reconnect_failed" w' = emissions "reconnect_failed" w
       else
         reconnectAttempts (this w') = n /\ timers w' = []
         /\ scheduled w' = scheduled w
         /\ emissions "reconnect_failed" w'
            = S (emissions "reconnect_failed" w).
Proof.
  intros (Hws & Hlen & (s & Hs & Hst) & Hold & Htm & Haw & Hn & Htok).
  simpl. rewrite Hs. simpl. rewrite Hst, bool_decide_eq_true_2 by done.
  destruct (onerror_spec JUndefined (mark h CLOSED w))
    as (w1 & Hrun1 & Hthis1 & Hso1 & Htm1 & Haw1 & Hsch1 & Hem1).
  destruct (onclose_spec (sock_group s) w1)
    as (w2 & Hrun2 & Hso2 & Haw2 & Hws2 & Hic2 & Hgt2 & _ & Hcase).
  unfold bind. rewrite Hrun1, Hrun2. simpl.
  exists w2, (sock_group s). split; [reflexivity|].
  rewrite Hws2, Hgt2, Hthis1, Hso2, Hso1, Haw2, Haw1. simpl.
  split; [exact Hws|]. split; [exact Hic2|]. split; [reflexivity|].
  split; [unfold mark; simpl; by rewrite length_alter|].
  split.
  { intros h' s' Hs'. rewrite Hso2, Hso1, mark_lookup in Hs'.
    destruct (decide (h = h')) as [<-|Hne].
    - rewrite Hs in Hs'. simpl in Hs'. by injection Hs' as <-.
    - apply (Hold h' s'); [|done].
      apply lookup_lt_Some in Hs'. lia. }
  split; [exact Haw|].
  rewrite Hthis1 in Hcase. simpl in Hcase. rewrite Hn in Hcase.
  destruct (n <? maxReconnectAttempts).
  - destruct Hcase as (H1 & H2 & H3 & H4).
    rewrite H1, H2, H3, Htm1, Hsch1. simpl. rewrite Htm.
    repeat split.
    rewrite (emissions_app _ [("error", JUndefined);
                              ("disconnected", JUndefined)] w w2); [done|].
    rewrite H4, Hem1, <- app_assoc. done.
  - destruct Hcase as (H1 & H2 & H3 & H4).
    rewrite H1, H2, H3, Htm1, Hsch1. simpl. rewrite Htm.
    repeat split.
    rewrite (emissions_app _ [("error", JUndefined);
                              ("disconnected", JUndefined);
                              ("reconnect_failed", JUndefined)] w w2);
      [simpl; lia|].
    rewrite H4, Hem1, <- app_assoc. done.
Qed.

(** The reconnect timer fires (and the token arrives): a new socket is
    constructed and is the attempt in flight. *)
Lemma timer_reopens (token : option string) (h m d : nat) (groupId : string)
    (w : World A) :
  ws (this w) = Some h -> isConnecting (this w) = false ->
  length (sockets w) = S h -> all_closed w -> awaiting w = [] ->
  timers w = [mkTimer d (Reconnect groupId)] ->
  reconnectAttempts (this w) = m ->
  (is_Some (getToken (this w)) <-> is_Some token) ->
  exists w',
    run call (reopen token) w = Some w'
    /\ attempting token (S h) m w'
    /\ emitted w' = emitted w /\ scheduled w' = scheduled w.
Proof.
  intros Hws Hic Hlen Hall Haw Htm Hm Htok.
  assert (Hfresh : connect groupId (set_timers (delete 0 (timers w)) w)
            = match getToken (this w) with
              | Some _ =>
                  set_awaiting (awaiting w ++ [groupId])
                    (set_isConnecting true
                       (set_timers (delete 0 (timers w)) w))
              | None =>
                  connect_open groupId EmptyString
                    (set_isConnecting true
                       (set_timers (delete 0 (timers w)) w))
              end).
  { apply (connect_fresh groupId (set_timers (delete 0 (timers w)) w));
      [exact Hic|].
    apply (closed_not_connected h); [exact Hws|]. intros s Hs.
    by apply (Hall h s). }
  assert (Hattempt : forall tok,
            attempting token (S h) m
              (connect_open groupId tok
                 (set_awaiting []
                    (set_isConnecting true
                       (set_timers (delete 0 (timers w)) w))))).
  { intros tok. unfold attempting. simpl. rewrite Hlen, Htm. simpl.
    split; [reflexivity|].
    split; [rewrite length_app; simpl; lia|].
    split.
    { exists (mkSocket (wsUrl (location w) groupId tok) groupId
                       CONNECTING []).
      split; [|reflexivity].
      rewrite lookup_app_r by lia. by rewrite Hlen, Nat.sub_diag. }
    split.
    { intros h' s Hlt Hs. rewrite lookup_app_l in Hs by lia.
      by apply (Hall h' s). }
    repeat split; try done; apply Htok. }
  destruct token as [t|].
  - destruct (getToken (this w)) as [fn|] eqn:Hgt.
    2:{ destruct Htok as [_ Htok]. destruct Htok as [? ?]; [by eexists|done]. }
    exists (connect_open groupId t
              (set_awaiting []
                 (set_isConnecting true
                    (set_timers (delete 0 (timers w)) w)))).
    split.
    + simpl. rewrite Htm. simpl. rewrite Htm in Hfresh. simpl in Hfresh.
      rewrite Hfresh, Haw. simpl. reflexivity.
    + split; [apply Hattempt|]. done.
  - destruct (getToken (this w)) as [fn|] eqn:Hgt.
    1:{ destruct Htok as [Htok _]. destruct Htok as [? ?]; [by eexists|done]. }
    exists (connect_open groupId EmptyString
              (set_awaiting []
                 (set_isConnecting true
                    (set_timers (delete 0 (timers w)) w)))).
    split.
    + simpl. rewrite Htm. simpl. rewrite Htm in Hfresh. simpl in Hfresh.
      rewrite Hfresh.
      unfold connect_open, set_awaiting, set_ws, set_sockets,
        set_isConnecting, set_this, set_timers. simpl.
      by rewrite Haw.
    + split; [apply Hattempt|]. done.
Qed.

Lemma run_app (l1 l2 : list Event) (w : World A) :
  run call (l1 ++ l2) w
  = match run call l1 w with
    | Some w' => run call l2 w'
    | None => None
    end.
Proof.
  revert w. induction l1 as [|e l1 IH]; intros w; simpl; [done|].
  destruct (step call e w); [apply IH|done].
Qed.

(** From an attempt in flight, with every open failing, until the
    attempts are used up. *)
Lemma exhaustion (token : option string) (k : nat) :
  forall (h n : nat) (w : World A),
    n + k = maxReconnectAttempts ->
    attempting token h n w ->
    exists w',
      run call (failures token k h) w = Some w'
      /\ emissions "reconnect_failed" w'
         = S (emissions "reconnect_failed" w)
      /\ map timer_delay (scheduled w')
         = map timer_delay (scheduled w)
           ++ map (fun i => reconnectDelay * i) (seq (S n) k)
      /\ timers w' = [] /\ awaiting w' = [] /\ all_closed w'
      /\ length (sockets w') = S h + k.
Proof.
  induction k as [|k IH]; intros h n w Hsum Hat.
  - destruct (attempt_fails token h n w Hat)
      as (w' & g & Hstep & _ & _ & _ & Hlen & Hall & Haw & Hcase).
    assert (Hn : (n <? maxReconnectAttempts) = false)
      by (apply Nat.ltb_ge; lia).
    rewrite Hn in Hcase. destruct Hcase as (_ & Htm & Hsch & Hem).
    exists w'. cbn [failures run]. rewrite Hstep.
    rewrite Hsch, app_nil_r, Nat.add_0_r. done.
  - destruct (attempt_fails token h n w Hat)
      as (w1 & g & Hstep & Hws & Hic & Hgt & Hlen & Hall & Haw & Hcase).
    assert (Hn : (n <? maxReconnectAttempts) = true)
      by (apply Nat.ltb_lt; lia).
    rewrite Hn in Hcase. destruct Hcase as (Hcnt & Htm & Hsch & Hem).
    destruct Hat as (_ & _ & _ & _ & _ & _ & _ & Htok).
    rewrite <- Hgt in Htok.
    destruct (timer_reopens token h (S n) _ g w1
                Hws Hic Hlen Hall Haw Htm Hcnt Htok)
      as (w2 & Hrun2 & Hat2 & Hem2 & Hsch2).
    destruct (IH (S h) (S n) w2 ltac:(lia) Hat2)
      as (w3 & Hrun3 & Hem3 & Hsch3 & Hrest).
    exists w3. split.
    { cbn [failures run]. rewrite Hstep, run_app, Hrun2. exact Hrun3. }
    split.
    { rewrite Hem3. unfold emissions at 1. rewrite Hem2.
      fold (emissions "reconnect_failed" w1). by rewrite Hem. }
    split.
    { rewrite Hsch3, Hsch2, Hsch, map_app, <- app_assoc. done. }
    destruct Hrest as (H1 & H2 & H3 & H4).
    repeat split; try done. lia.
Qed.

(** Nothing pending and no socket left: the runtime has no event to
    deliver. *)
Lemma quiescent (w : World A) :
  timers w = [] -> awaiting w = [] -> all_closed w ->
  forall e, spontaneous e = true -> step call e w = None.
Proof.
  intros Htm Haw Hall e He.
  destruct e; simpl in *; try discriminate.
  - by rewrite Haw.
  - destruct (sockets w !! h) as [s|] eqn:Hs; [|done]. simpl.
    by rewrite (Hall h s Hs).
  - destruct (sockets w !! h) as [s|] eqn:Hs; [|done]. simpl.
    by rewrite (Hall h s Hs).
  - destruct (sockets w !! h) as [s|] eqn:Hs; [|done]. simpl.
    by rewrite (Hall h s Hs).
  - destruct (sockets w !! h) as [s|] eqn:Hs; [|done]. simpl.
    by rewrite (Hall h s Hs).
  - by rewrite Htm.
  - destruct (sockets w !! h) as [s|] eqn:Hs; [|done]. simpl.
    by rewrite (Hall h s Hs).
Qed.

Lemma all_closed_live (w : World A) : all_closed w -> live w = [].
Proof.
  intros Hall. apply elem_of_nil_inv. intros h Hh. unfold live in Hh.
  apply list_elem_of_filter in Hh as [Hlive Hh]. apply elem_of_seq in Hh.
  destruct (lookup_lt_is_Some_2 (sockets w) h) as [s Hs]; [lia|].
  rewrite Hs in Hlive. simpl in Hlive. by rewrite (Hall h s Hs) in Hlive.
Qed.

(** C1. Each time a socket closes, [onclose] either counts one more
    reconnection and schedules it after 1000 ms times the new count, while
    the count was below 5, or emits [reconnect_failed] and schedules
    nothing. And when every attempt to open fails, from an attempt in
    flight with [n] reconnections counted: the run goes through the 5 - n
    remaining reconnections, scheduled after 1000 (n + 1), ..., 5000 ms,
    each constructing one socket; [reconnect_failed] is emitted exactly
    once; and then no timer is pending, no socket is left and the runtime
    has nothing more to deliver, so no reconnection is scheduled again. *)
Theorem reconnection_bounded :
  (forall (groupId : string) (w : World A),
      exists w',
        onclose call groupId w = (w', Return tt)
        /\ if reconnectAttempts (this w) <? 5 then
             reconnectAttempts (this w') = S (reconnectAttempts (this w))
             /\ timers w'
                = timers w
                  ++ [mkTimer (1000 * S (reconnectAttempts (this w)))
                              (Reconnect groupId)]
             /\ emissions "reconnect_failed" w'
                = emissions "reconnect_failed" w
           else
             reconnectAttempts (this w') = reconnectAttempts (this w)
             /\ timers w' = timers w
             /\ emissions "reconnect_failed" w'
                = S (emissions "reconnect_failed" w))
  /\ (forall (token : option string) (h n : nat) (w : World A),
        attempting token h n w -> n <= 5 ->
        exists w',
          run call (failures token (5 - n) h) w = Some w'
          /\ emissions "reconnect_failed" w'
             = S (emissions "reconnect_failed" w)
          /\ map timer_delay (scheduled w')
             = map timer_delay (scheduled w)
               ++ map (fun i => 1000 * i) (seq (S n) (5 - n))
          /\ length (sockets w') = length (sockets w) + (5 - n)
          /\ timers w' = [] /\ live w' = []
          /\ forall e, spontaneous e = true -> step call e w' = None).
Proof.
  split.
  - intros groupId w.
    destruct (onclose_spec groupId w)
      as (w' & Hrun & _ & _ & _ & _ & _ & _ & Hcase).
    exists w'. split; [exact Hrun|].
    change 5 with maxReconnectAttempts.
    change 1000 with reconnectDelay.
    destruct (reconnectAttempts (this w) <? maxReconnectAttempts).
    + destruct Hcase as (H1 & H2 & _ & H4). repeat split; try done.
      rewrite (emissions_app _ [("disconnected", JUndefined)] w w' H4).
      simpl. lia.
    + destruct Hcase as (H1 & H2 & _ & H4). repeat split; try done.
      rewrite (emissions_app _ [("disconnected", JUndefined);
                                ("reconnect_failed", JUndefined)] w w' H4).
      simpl. lia.
  - intros token h n w Hat Hn.
    destruct (exhaustion token (5 - n) h n w) as
      (w' & Hrun & Hem & Hsch & Htm & Haw & Hall & Hlen);
      [unfold maxReconnectAttempts; lia|exact Hat|].
    exists w'. split; [exact Hrun|]. split; [exact Hem|].
    split; [exact Hsch|].
    destruct Hat as (_ & Hl & _). 
    split; [lia|]. split; [exact Htm|].
    split; [by apply all_closed_live|]. by apply quiescent.
Qed.

End TransportFacts.






(** * Properties of call signalling *)

Section CallFacts.
Import VoiceCall.

(** C2. An offer from P that arrives while P has an entry whose signalling
    state is not stable (have-local-offer in particular) is dropped: the
    handler returns with the whole state as it was, so no description was
    set on P's connection, no answer was created and nothing was sent. *)
Theorem glare_offer_dropped (offer : JSON) (P : string) (v : Verdicts)
    (w : W) (pc : PeerConnection) :
  peersRef (comp w) !! P = Some pc ->
  signalingState pc <> stable ->
  handleOffer offer P v w = (w, Return tt)
  /\ handleWebRTCMessage (webrtc_offer offer P) v w = (w, Return tt).
Proof.
  intros Hpc Hstate.
  assert (H : handleOffer offer P v w = (w, Return tt)).
  { unfold handleOffer, ensure_peer.
    destruct (localStreamRef (comp w)); [|done].
    rewrite Hpc. simpl. rewrite Hpc.
    by rewrite bool_decide_eq_true_2. }
  split; [exact H|].
  unfold handleWebRTCMessage, detached. by rewrite H.
Qed.

(** *** The entries of the other participants *)

Lemma keeps_ret (P : string) {T : Type} (x : T) : keeps_others P (ret x).
Proof. intros w w' c H. by injection H as <- _. Qed.

Lemma keeps_bind (P : string) {T U : Type} (m : js W T) (k : T -> js W U) :
  keeps_others P m -> (forall x, keeps_others P (k x)) ->
  keeps_others P (JS.bind m k).
Proof.
  intros Hm Hk w w' c H other Hne. unfold JS.bind in H.
  destruct (m w) as [w1 [x|]] eqn:Hmw.
  - rewrite (Hk x w1 w' c H other Hne). by apply (Hm w w1 (Return x)).
  - injection H as <- _. by apply (Hm w w1 Throw).
Qed.

Lemma keeps_try_catch (P : string) {T : Type} (body handler : js W T) :
  keeps_others P body -> keeps_others P handler ->
  keeps_others P (try_catch body handler).
Proof.
  intros Hb Hh w w' c H other Hne. unfold try_catch in H.
  destruct (body w) as [w1 [x|]] eqn:Hbw.
  - injection H as <- _. by apply (Hb w w1 (Return x)).
  - rewrite (Hh w1 w' c H other Hne). by apply (Hb w w1 Throw).
Qed.

Lemma keeps_peer_ask (P : string) {T : Type} (op : RtcCall)
    (f : PeerConnection -> Completion T) :
  keeps_others P (peer_ask P op f).
Proof.
  intros w w' c H other Hne. unfold peer_ask in H. simpl in H.
  destruct (peersRef (comp w) !! P); by injection H as <- _.
Qed.

Lemma keeps_peer_do (P : string) (op : RtcCall)
    (f : PeerConnection -> Completion PeerConnection) :
  keeps_others P (peer_do P op f).
Proof.
  intros w w' c H other Hne. unfold peer_do in H. simpl in H.
  destruct (peersRef (comp w) !! P) as [pc|]; [|by injection H as <- _].
  destruct (f pc) as [pc'|]; injection H as <- _; simpl; [|done].
  by rewrite lookup_insert_ne.
Qed.

Lemma keeps_send (P : string) (frame : W -> JSON) :
  keeps_others P (fun w => wsService.send (frame w) w).
Proof.
  intros w w' c H other Hne.
  destruct (send_app (frame w) w) as (sent & w1 & Hrun & Happ).
  rewrite Hrun in H. injection H as <- _. unfold comp. by rewrite Happ.
Qed.

Lemma keeps_forget (P : string) : keeps_others P (forget P).
Proof.
  intros w w' c H other Hne. injection H as <- _.
  change (delete P (peersRef (comp w)) !! other = peersRef (comp w) !! other).
  by rewrite lookup_delete_ne.
Qed.

Lemma peers_forget (P : string) (w : W) :
  peersRef (comp (fst (forget P w))) = delete P (peersRef (comp w)).
Proof. reflexivity. Qed.

Lemma keeps_createOfferForUser_try (P : string) (v : Verdicts) :
  keeps_others P (createOfferForUser_try P v).
Proof.
  unfold createOfferForUser_try.
  apply keeps_bind; [apply keeps_peer_ask|]. intros offer.
  apply keeps_bind; [apply keeps_peer_do|]. intros _.
  apply keeps_bind; [apply (keeps_send P)|]. intros _. apply keeps_ret.
Qed.

Lemma keeps_handleOffer_try (offer : JSON) (P : string) (v : Verdicts) :
  keeps_others P (handleOffer_try offer P v).
Proof.
  unfold handleOffer_try.
  apply keeps_bind; [apply keeps_peer_do|]. intros _.
  apply keeps_bind; [apply keeps_peer_ask|]. intros answer.
  apply keeps_bind; [apply keeps_peer_do|]. intros _.
  apply keeps_bind; [apply (keeps_send P)|]. intros _. apply keeps_ret.
Qed.

Lemma keeps_handleAnswer_try (answer : JSON) (P : string) (v : Verdicts) :
  keeps_others P (handleAnswer_try answer P v).
Proof. apply keeps_peer_do. Qed.

Lemma ensure_peer_others (P other : string) (w : W) :
  other <> P ->
  peersRef (comp (ensure_peer P w)) !! other = peersRef (comp w) !! other.
Proof.
  intros Hne. unfold ensure_peer.
  destruct (peersRef (comp w) !! P); [done|]. simpl.
  by rewrite lookup_insert_ne.
Qed.

(** A [try] block that throws, then the [catch] that forgets P. *)
Lemma caught_forgets (P : string) (body : js W unit) (w0 w w2 : W) :
  keeps_others P body ->
  (forall other, other <> P ->
     peersRef (comp w) !! other = peersRef (comp w0) !! other) ->
  body w = (w2, Throw) ->
  forgotten P w0 (fst (try_catch body (forget P) w)).
Proof.
  intros Hk H0 Hthrow. unfold try_catch. rewrite Hthrow.
  unfold forgotten. rewrite peers_forget. split.
  - apply lookup_delete_eq.
  - intros other Hne. rewrite lookup_delete_ne by done.
    rewrite (Hk w w2 Throw Hthrow other Hne). by apply H0.
Qed.

(** C10. In [createOfferForUser], [handleOffer] and [handleAnswer], when
    the [try] block is reached and an exception is raised in it, the entry
    of P is gone from the registry when the handler is done and the entry
    of every other participant is what it was when the handler started. *)
Theorem failure_forgets_only_that_peer (P : string) (v : Verdicts) (w : W) :
  (forall w2,
      localStreamRef (comp w) <> None ->
      offer_skipped P w = false ->
      createOfferForUser_try P v (ensure_peer P w) = (w2, Throw) ->
      forgotten P w (fst (createOfferForUser P v w)))
  /\ (forall offer w2,
        localStreamRef (comp w) <> None ->
        (forall pc, peersRef (comp w) !! P = Some pc ->
                    signalingState pc = stable) ->
        handleOffer_try offer P v (ensure_peer P w) = (w2, Throw) ->
        forgotten P w (fst (handleOffer offer P v w)))
  /\ (forall answer w2 pc,
        peersRef (comp w) !! P = Some pc ->
        signalingState pc = have_local_offer ->
        handleAnswer_try answer P v w = (w2, Throw) ->
        forgotten P w (fst (handleAnswer answer P v w))).
Proof.
  split; [|split].
  - intros w2 Hstream Hskip Hthrow. unfold createOfferForUser.
    destruct (localStreamRef (comp w)); [|done]. rewrite Hskip.
    apply (caught_forgets P _ w _ w2); [| | exact Hthrow].
    + apply keeps_createOfferForUser_try.
    + intros other Hne. by apply ensure_peer_others.
  - intros offer w2 Hstream Hstable Hthrow. unfold handleOffer.
    destruct (localStreamRef (comp w)); [|done].
    assert (Hentry : exists pc, peersRef (comp (ensure_peer P w)) !! P = Some pc
                                /\ signalingState pc = stable).
    { unfold ensure_peer. destruct (peersRef (comp w) !! P) as [pc|] eqn:Hpc.
      - exists pc. split; [exact Hpc|]. by apply Hstable.
      - exists (new_peer (default [] (localStreamRef (comp w)))).
        split; [|done]. unfold createPeerConnection, upd, comp. simpl.
        apply lookup_insert_eq. }
    destruct Hentry as (pc & -> & Hst).
    rewrite bool_decide_eq_false_2 by (rewrite Hst; intros H; by apply H).
    apply (caught_forgets P _ w _ w2); [| | exact Hthrow].
    + apply keeps_handleOffer_try.
    + intros other Hne. by apply ensure_peer_others.
  - intros answer w2 pc Hpc Hst Hthrow. unfold handleAnswer.
    rewrite Hpc.
    rewrite bool_decide_eq_false_2 by (rewrite Hst; intros H; by apply H).
    apply (caught_forgets P _ w _ w2); [| done | exact Hthrow].
    apply keeps_handleAnswer_try.
Qed.

(** C6, as the code has it. An answer from P is handed to
    [setRemoteDescription] exactly when P has an entry in state
    have-local-offer. It is then applied when the browser accepts it: the
    entry becomes stable with the answer as its remote description; when
    the browser refuses it the entry is removed. With no entry, or an entry
    in any other state, the answer is ignored and nothing changes. *)
Theorem answer_applied_when_accepted (answer : JSON) (P : string)
    (v : Verdicts) (w : W) :
  (forall pc,
      peersRef (comp w) !! P = Some pc ->
      signalingState pc = have_local_offer ->
      let w' := fst (handleAnswer answer P v w) in
      rtcCalls (comp w')
      = rtcCalls (comp w) ++ [(P, SetRemoteCall sdp_answer)]
      /\ (accept_remote v = true ->
           peersRef (comp w') !! P
           = Some (mkPeer stable (connectionState pc) (localDescription pc)
                          (Some answer) (senders pc) (candidates pc)))
      /\ (accept_remote v = false -> peersRef (comp w') !! P = None))
  /\ ((forall pc, peersRef (comp w) !! P = Some pc ->
                  signalingState pc <> have_local_offer) ->
      handleAnswer answer P v w = (w, Return tt)).
Proof.
  split.
  - intros pc Hpc Hst w'. unfold w', handleAnswer. rewrite Hpc.
    rewrite bool_decide_eq_false_2 by (rewrite Hst; intros H; by apply H).
    unfold try_catch, handleAnswer_try, peer_do.
    change (peersRef (comp (log_rtc P (SetRemoteCall sdp_answer) w)))
      with (peersRef (comp w)).
    rewrite Hpc. unfold setRemoteDescription. rewrite Hst.
    destruct (accept_remote v).
    + split; [reflexivity|]. split; [|done]. intros _.
      unfold upd, comp. simpl. apply lookup_insert_eq.
    + split; [reflexivity|]. split; [done|]. intros _.
      rewrite peers_forget. apply lookup_delete_eq.
  - intros Hother. unfold handleAnswer.
    destruct (peersRef (comp w) !! P) as [pc|] eqn:Hpc; [|done].
    by rewrite bool_decide_eq_true_2 by (by apply Hother).
Qed.

(** *** The track objects *)

Lemma update_tracks_lookup (which : Track -> bool) (f : Track -> Track)
    (stream : MediaStream) (store : list Track) (h : nat) :
  let g := fun t => if which t then f t else t in
  (forall t, g (g t) = g t) ->
  update_tracks which f stream store !! h
  = if decide (h ∈ stream) then g <$> store !! h else store !! h.
Proof.
  intros g Hidem. unfold update_tracks. fold g.
  revert store. induction stream as [|a rest IH]; intros store.
  - case_decide as Hin; [|done]. by apply elem_of_nil in Hin.
  - cbn [foldl]. rewrite IH.
    destruct (decide (a = h)) as [->|Hne].
    + rewrite list_lookup_alter_eq.
      assert (Hhere : h ∈ h :: rest) by (apply elem_of_cons; by left).
      repeat case_decide; try done.
      destruct (store !! h); simpl; [|done]. by rewrite Hidem.
    + rewrite list_lookup_alter_ne by done.
      assert (Hiff : h ∈ a :: rest <-> h ∈ rest).
      { rewrite elem_of_cons. split; [intros [->|?]; done|by right]. }
      repeat case_decide; try done; exfalso; tauto.
Qed.

Lemma mute_idempotent (b : bool) (t : Track) :
  let g := fun t => if is_audio t then set_enabled b t else t in
  g (g t) = g t.
Proof.
  simpl. unfold is_audio. destruct t as [k e x]. simpl.
  destruct (bool_decide (k = audio)) eqn:Hk; simpl; by rewrite ?Hk.
Qed.

Lemma stop_idempotent (t : Track) :
  let g := fun t => if (fun _ : Track => true) t then stop t else t in
  g (g t) = g t.
Proof. reflexivity. Qed.

(** What [toggleMute] does to the component. *)
Lemma toggleMute_comp (w : W) :
  exists w',
    toggleMute w = (w', Return tt)
    /\ comp w'
       = match localStream (comp w) with
         | Some stream =>
             set_isMuted (negb (isMuted (comp w)))
               (set_tracks
                  (update_tracks is_audio
                     (set_enabled (negb (isMuted (comp w)))) stream
                     (tracks (comp w))) (comp w))
         | None => comp w
         end.
Proof.
  unfold toggleMute.
  destruct (localStream (comp w)) as [stream|]; [|by eexists].
  destruct (groupId (comp w)) as [g|]; [|by eexists].
  destruct (truthy (JStr g)); [|by eexists].
  match goal with
  | |- context [JS.bind (wsService.send ?d) _ ?w1] =>
      destruct (send_app d w1) as (sent & w' & Hrun & Happ)
  end.
  exists w'. unfold JS.bind. rewrite Hrun. split; [reflexivity|].
  unfold comp at 1. rewrite Happ. reflexivity.
Qed.

Lemma toggleMute_fields (w : W) (stream : MediaStream) :
  localStream (comp w) = Some stream ->
  exists w',
    toggleMute w = (w', Return tt)
    /\ tracks (comp w')
       = update_tracks is_audio (set_enabled (negb (isMuted (comp w))))
           stream (tracks (comp w))
    /\ isMuted (comp w') = negb (isMuted (comp w))
    /\ localStream (comp w') = Some stream.
Proof.
  intros Hstream. destruct (toggleMute_comp w) as (w' & Hrun & Hc).
  exists w'. split; [exact Hrun|]. rewrite Hc, Hstream. repeat split.
  exact Hstream.
Qed.

(** After two calls an audio track of the local stream is enabled exactly
    when the component was muted before the first one: the flag it had
    before plays no part. *)
Lemma toggleMute_twice_enabled (w : W) (stream : MediaStream) (h : nat)
    (t : Track) :
  localStream (comp w) = Some stream ->
  h ∈ stream -> tracks (comp w) !! h = Some t -> kind t = audio ->
  tracks (comp (fst (toggleMute (fst (toggleMute w))))) !! h
  = Some (set_enabled (isMuted (comp w)) t).
Proof.
  intros Hstream Hin Ht Hkind.
  destruct (toggleMute_fields w stream Hstream)
    as (w1 & Hrun1 & Htr1 & Hm1 & Hs1).
  destruct (toggleMute_fields w1 stream Hs1)
    as (w2 & Hrun2 & Htr2 & Hm2 & Hs2).
  rewrite Hrun1. cbn [fst]. rewrite Hrun2. cbn [fst].
  rewrite Htr2, Htr1, Hm1.
  rewrite !update_tracks_lookup by apply mute_idempotent.
  rewrite !decide_True by done. rewrite Ht. cbn [fmap option_fmap option_map].
  unfold is_audio. cbn [kind set_enabled]. rewrite Hkind.
  rewrite !bool_decide_eq_true_2 by done.
  by rewrite negb_involutive.
Qed.


(** *** Teardown *)

Lemma cleanup_spec (seen : list RemoteStream) (w : W) :
  let w' := cleanup seen w in
  wsService.this w' = wsService.this w
  /\ wsService.sockets w' = wsService.sockets w
  /\ wsService.timers w' = wsService.timers w
  /\ peersRef (comp w') = ∅
  /\ localStreamRef (comp w') = None
  /\ (localStream (comp w) = localStreamRef (comp w) ->
      localStream (comp w') = None)
  /\ remoteStreams (comp w') = [] /\ remoteAudioRefs (comp w') = []
  /\ participants (comp w') = participants (comp w)
  /\ isMuted (comp w') = isMuted (comp w)
  /\ isVideoOff (comp w') = isVideoOff (comp w)
  /\ isConnected (comp w') = isConnected (comp w)
  /\ permissionStatus (comp w') = permissionStatus (comp w)
  /\ tracks (comp w')
     = foldl (fun st s => update_tracks (fun _ => true) stop (stream s) st)
         (match localStreamRef (comp w) with
          | Some local =>
              update_tracks (fun _ => true) stop local (tracks (comp w))
          | None => tracks (comp w)
          end) seen.
Proof.
  unfold cleanup, upd, comp. cbn [wsService.app wsService.set_app].
  cbn [localStreamRef set_peersRef].
  destruct (localStreamRef (wsService.app w)) as [local|] eqn:Href;
    cbn; rewrite ?Href; repeat split; try done.
Qed.


(** *** Offers to the listed participants *)







Lemma offers_created_app (w w' : W) (more : list (string * RtcCall)) :
  rtcCalls (comp w') = rtcCalls (comp w) ++ more ->
  offers_created w'
  = offers_created w
    ++ (fst <$> filter (fun c => snd c = CreateOfferCall) more).
Proof.
  intros H. unfold offers_created. by rewrite H, filter_app, fmap_app.
Qed.

(** [createOfferForUser] for a participant without an entry: [createOffer]
    is called on a new connection, once, whatever the browser answers. *)
Lemma offer_for_new_peer (p : string) (v : Verdicts) (w : W) :
  localStreamRef (comp w) <> None ->
  peersRef (comp w) !! p = None ->
  exists w',
    createOfferForUser p v w = (w', Return tt)
    /\ offers_created w' = offers_created w ++ [p]
    /\ localStreamRef (comp w') = localStreamRef (comp w)
    /\ pending (comp w') = pending (comp w)
    /\ (forall q, q <> p ->
          peersRef (comp w') !! q = peersRef (comp w) !! q)
    /\ (forall o, built_offer v = Some o -> accept_local v = true ->
          peersRef (comp w') !! p
          = Some (mkPeer have_local_offer new (Some o) None
                    (default [] (localStreamRef (comp w))) [])).
Proof.
  intros Hstream Hnone. unfold createOfferForUser.
  destruct (localStreamRef (comp w)) as [local|] eqn:Href; [|done].
  unfold offer_skipped, ensure_peer. rewrite Hnone.
  set (w0 := createPeerConnection p w).
  assert (Hp0 : peersRef (comp w0) !! p = Some (new_peer local)).
  { change (<[p := new_peer (default [] (localStreamRef (comp w)))]>
              (peersRef (comp w)) !! p = Some (new_peer local)).
    rewrite Href. apply lookup_insert_eq. }
  assert (Hq0 : forall q, q <> p ->
            peersRef (comp w0) !! q = peersRef (comp w) !! q).
  { intros q Hq.
    change (<[p := new_peer (default [] (localStreamRef (comp w)))]>
              (peersRef (comp w)) !! q = peersRef (comp w) !! q).
    by rewrite lookup_insert_ne. }
  unfold try_catch, createOfferForUser_try, JS.bind, peer_ask.
  change (peersRef (comp (log_rtc p CreateOfferCall w0)))
    with (peersRef (comp w0)).
  rewrite Hp0. unfold createOffer. cbn [signalingState new_peer].
  destruct (built_offer v) as [o|].
  2:{ eexists. split; [reflexivity|].
      split; [by rewrite (offers_created_app w _ [(p, CreateOfferCall)])|].
      split; [exact Href|]. split; [done|]. split.
      - intros q Hq.
        change (delete p (peersRef (comp w0)) !! q
                = peersRef (comp w) !! q).
        rewrite lookup_delete_ne by done. by apply Hq0.
      - done. }
  unfold peer_do.
  change (peersRef (comp (log_rtc p (SetLocalCall sdp_offer)
                            (log_rtc p CreateOfferCall w0))))
    with (peersRef (comp w0)).
  rewrite Hp0. unfold setLocalDescription. cbn [signalingState new_peer].
  destruct (accept_local v).
  2:{ eexists. split; [reflexivity|].
      split.
      { rewrite (offers_created_app w _ [(p, CreateOfferCall);
                                         (p, SetLocalCall sdp_offer)]);
          [reflexivity|]. cbn. by rewrite <- app_assoc. }
      split; [exact Href|]. split; [done|]. split.
      - intros q Hq.
        change (delete p (peersRef (comp w0)) !! q
                = peersRef (comp w) !! q).
        rewrite lookup_delete_ne by done. by apply Hq0.
      - done. }
  match goal with
  | |- context [wsService.send ?d ?w1] =>
      destruct (send_app d w1) as (sent & w' & Hrun & Happ);
      rewrite Hrun
  end.
  exists w'. split; [reflexivity|].
  assert (Hc : comp w'
               = comp (upd (fun c =>
                              set_peersRef
                                (<[p := mkPeer have_local_offer new (Some o)
                                          None local []]> (peersRef c)) c)
                         (log_rtc p (SetLocalCall sdp_offer)
                            (log_rtc p CreateOfferCall w0)))) by exact Happ.
  split.
  { rewrite (offers_created_app w _ [(p, CreateOfferCall);
                                     (p, SetLocalCall sdp_offer)]);
      [reflexivity|].
    rewrite Hc. cbn. by rewrite <- app_assoc. }
  split; [rewrite Hc; exact Href|].
  split; [by rewrite Hc|]. split.
  - intros q Hq. rewrite Hc.
    change (<[p := mkPeer have_local_offer new (Some o) None local []]>
              (peersRef (comp w0)) !! q = peersRef (comp w) !! q).
    rewrite lookup_insert_ne by done. by apply Hq0.
  - intros o' Ho _. injection Ho as <-. rewrite Hc.
    change (<[p := mkPeer have_local_offer new (Some o) None local []]>
              (peersRef (comp w0)) !! p
            = Some (mkPeer have_local_offer new (Some o) None local [])).
    apply lookup_insert_eq.
Qed.

End CallFacts.

(** * Offers to the listed participants, call by call *)

Section OfferFacts.
Import VoiceCall OfferTasks.

Lemma send_on_open (data : JSON) (w : W) :
  wsService.readyState w = Some OPEN ->
  exists w',
    wsService.send data w = (w', Return true)
    /\ comp w' = comp w
    /\ wsService.readyState w' = Some OPEN
    /\ sent w' = sent w ++ [stringify data].
Proof.
  unfold sent, wsService.readyState, wsService.current_socket,
    wsService.send, comp.
  destruct (wsService.ws (wsService.this w)) as [h|] eqn:Hws; [|done].
  cbn. destruct (wsService.sockets w !! h) as [s|] eqn:Hs; [|done].
  cbn. intros Hopen. injection Hopen as Hopen.
  rewrite bool_decide_eq_true_2 by done.
  unfold sock_send. rewrite Hopen.
  eexists. split; [reflexivity|]. split; [reflexivity|].
  cbn. rewrite Hws. cbn.
  rewrite list_lookup_insert_eq by (by apply lookup_lt_Some in Hs).
  done.
Qed.

Lemma delete_middle {X : Type} (l r : list X) (x : X) :
  delete (length l) (l ++ x :: r) = l ++ r.
Proof. induction l as [|a l IH]; [done|]. simpl. f_equal. exact IH. Qed.



Lemma offers_created_log (userId : string) (op : RtcCall) (w : W) :
  offers_created (log_rtc userId op w)
  = offers_created w ++ (if decide (op = CreateOfferCall) then [userId]
                         else []).
Proof.
  unfold offers_created.
  change (rtcCalls (comp (log_rtc userId op w)))
    with (rtcCalls (comp w) ++ [(userId, op)]).
  rewrite filter_app, fmap_app. f_equal.
  destruct (decide (op = CreateOfferCall)) as [->|Hne].
  - by rewrite filter_cons_True.
  - by rewrite filter_cons_False.
Qed.














(** A timer for an offer fires and the guards let the call through. *)
Lemma fires_offer (k : nat) (uid : string) (t : Timer) (c : Calls) :
  pending (comp (world c)) !! k = Some t ->
  timer_action t = CreateOffer uid ->
  localStreamRef (comp (world c)) <> None ->
  offer_skipped uid (world c) = false ->
  timer_fires k c
  = Some (mkCalls
            (log_rtc uid CreateOfferCall
               (ensure_peer uid
                  (upd (fun x => set_pending (delete k (pending x)) x)
                       (world c))))
            (detached c)
            (running c ++ [mkTask uid Registered AwaitOffer])).
Proof.
  intros Ht Ha Hs Hskip. unfold timer_fires. rewrite Ht.
  cbn [mbind option_bind]. rewrite Ha. unfold start.
  cbn [world detached running].
  change (localStreamRef (comp (upd _ (world c))))
    with (localStreamRef (comp (world c))).
  destruct (localStreamRef (comp (world c))); [|done].
  change (offer_skipped uid (upd _ (world c)))
    with (offer_skipped uid (world c)).
  by rewrite Hskip.
Qed.

(** A call holding the entry of its user goes on after [createOffer]. *)
Lemma resume_offer_registered (i : nat) (v : Verdicts) (t : Task)
    (pc : PeerConnection) (o : JSON) (c : Calls) :
  running c !! i = Some t ->
  task_held t = Registered -> task_stage t = AwaitOffer ->
  peersRef (comp (world c)) !! task_user t = Some pc ->
  signalingState pc <> signaling_closed ->
  built_offer v = Some o ->
  resume i v c
  = Some (mkCalls
            (log_rtc (task_user t) (SetLocalCall sdp_offer) (world c))
            (detached c)
            (<[i := mkTask (task_user t) Registered (AwaitLocal o)]>
               (running c))).
Proof.
  intros Hi Hh Hst Hpc Hsig Hb. unfold resume, held_peer.
  rewrite Hi. cbn [mbind option_bind]. rewrite Hh, Hpc.
  cbn [mbind option_bind]. rewrite Hst. unfold createOffer. rewrite Hb.
  by destruct (signalingState pc).
Qed.

(** ... and after [setLocalDescription]. *)
Lemma resume_local_registered (i : nat) (v : Verdicts) (t : Task)
    (pc : PeerConnection) (o : JSON) (c : Calls) :
  running c !! i = Some t ->
  task_held t = Registered -> task_stage t = AwaitLocal o ->
  peersRef (comp (world c)) !! task_user t = Some pc ->
  signalingState pc = stable \/ signalingState pc = have_local_offer ->
  accept_local v = true ->
  let w1 :=
    upd (fun x =>
           set_peersRef
             (<[task_user t :=
                  mkPeer have_local_offer (connectionState pc) (Some o)
                    (remoteDescription pc) (senders pc) (candidates pc)]>
                (peersRef x)) x) (world c) in
  resume i v c
  = Some (mkCalls
            (fst (wsService.send (offer_frame o (task_user t) w1) w1))
            (detached c) (delete i (running c))).
Proof.
  intros Hi Hh Hst Hpc Hsig Ha w1. unfold resume, held_peer.
  rewrite Hi. cbn [mbind option_bind]. rewrite Hh, Hpc.
  cbn [mbind option_bind]. rewrite Hst. unfold setLocalDescription.
  rewrite Ha. unfold set_held. rewrite Hh.
  by destruct Hsig as [-> | ->].
Qed.

(** The same three steps, with what they leave of the world they start
    from. *)
Lemma fires_step (k : nat) (uid : string) (t : Timer) (local : MediaStream)
    (ds : list PeerConnection) (r : list Task) (x : W) :
  pending (comp x) !! k = Some t ->
  timer_action t = CreateOffer uid ->
  localStreamRef (comp x) = Some local ->
  offer_skipped uid x = false ->
  exists x',
    timer_fires k (mkCalls x ds r)
    = Some (mkCalls x' ds (r ++ [mkTask uid Registered AwaitOffer]))
    /\ pending (comp x') = delete k (pending (comp x))
    /\ peersRef (comp x') !! uid
       = Some (default (new_peer local) (peersRef (comp x) !! uid))
    /\ offers_created x' = offers_created x ++ [uid]
    /\ localStreamRef (comp x') = Some local
    /\ groupId (comp x') = groupId (comp x)
    /\ sent x' = sent x
    /\ wsService.readyState x' = wsService.readyState x.
Proof.
  intros Ht Ha Hs Hskip. eexists. split.
  { apply (fires_offer k uid t (mkCalls x ds r)); cbn [world];
      [exact Ht|exact Ha|by rewrite Hs|exact Hskip]. }
  cbn [world detached running]. unfold ensure_peer.
  change (peersRef (comp (upd _ x))) with (peersRef (comp x)).
  rewrite offers_created_log, decide_True by done.
  destruct (peersRef (comp x) !! uid) as [pc|] eqn:He.
  - repeat split; try reflexivity; try assumption.
  - repeat split; try reflexivity; try assumption.
    change (<[uid := new_peer (default [] (localStreamRef (comp x)))]>
              (peersRef (comp x)) !! uid = Some (new_peer local)).
    rewrite Hs. apply lookup_insert_eq.
Qed.

(** A timer for an offer fires and the call returns at its guard. *)
Lemma fires_guarded (k : nat) (uid : string) (t : Timer)
    (ds : list PeerConnection) (r : list Task) (x : W) :
  pending (comp x) !! k = Some t ->
  timer_action t = CreateOffer uid ->
  offer_skipped uid x = true ->
  exists x',
    timer_fires k (mkCalls x ds r) = Some (mkCalls x' ds r)
    /\ pending (comp x') = delete k (pending (comp x))
    /\ peersRef (comp x') = peersRef (comp x)
    /\ offers_created x' = offers_created x
    /\ sent x' = sent x.
Proof.
  intros Ht Ha Hskip.
  exists (upd (fun c => set_pending (delete k (pending c)) c) x).
  split; [|by repeat split].
  unfold timer_fires. cbn [world detached running]. rewrite Ht.
  cbn [mbind option_bind]. rewrite Ha. unfold start.
  cbn [world detached running].
  change (offer_skipped uid (upd _ x)) with (offer_skipped uid x).
  rewrite Hskip. by destruct (localStreamRef _).
Qed.

Lemma resume_offer_step (i : nat) (v : Verdicts) (t : Task)
    (pc : PeerConnection) (o : JSON) (ds : list PeerConnection)
    (r : list Task) (x : W) :
  r !! i = Some t ->
  task_held t = Registered -> task_stage t = AwaitOffer ->
  peersRef (comp x) !! task_user t = Some pc ->
  signalingState pc <> signaling_closed ->
  built_offer v = Some o ->
  exists x',
    resume i v (mkCalls x ds r)
    = Some (mkCalls x' ds
              (<[i := mkTask (task_user t) Registered (AwaitLocal o)]> r))
    /\ pending (comp x') = pending (comp x)
    /\ peersRef (comp x') = peersRef (comp x)
    /\ offers_created x' = offers_created x
    /\ localStreamRef (comp x') = localStreamRef (comp x)
    /\ groupId (comp x') = groupId (comp x)
    /\ sent x' = sent x
    /\ wsService.readyState x' = wsService.readyState x.
Proof.
  intros Hi Hh Hst Hpc Hsig Hb. eexists. split.
  { by apply (resume_offer_registered i v t pc o (mkCalls x ds r)). }
  cbn [world]. rewrite offers_created_log, decide_False by done.
  rewrite app_nil_r. by repeat split.
Qed.

Lemma resume_local_step (i : nat) (v : Verdicts) (t : Task)
    (pc : PeerConnection) (o : JSON) (ds : list PeerConnection)
    (r : list Task) (x : W) :
  r !! i = Some t ->
  task_held t = Registered -> task_stage t = AwaitLocal o ->
  peersRef (comp x) !! task_user t = Some pc ->
  signalingState pc = stable \/ signalingState pc = have_local_offer ->
  accept_local v = true ->
  exists x',
    resume i v (mkCalls x ds r) = Some (mkCalls x' ds (delete i r))
    /\ pending (comp x') = pending (comp x)
    /\ peersRef (comp x') !! task_user t
       = Some (mkPeer have_local_offer (connectionState pc) (Some o)
                 (remoteDescription pc) (senders pc) (candidates pc))
    /\ offers_created x' = offers_created x
    /\ localStreamRef (comp x') = localStreamRef (comp x)
    /\ groupId (comp x') = groupId (comp x)
    /\ (wsService.readyState x = Some OPEN ->
        wsService.readyState x' = Some OPEN
        /\ sent x' = sent x ++ [stringify (offer_frame o (task_user t) x)]).
Proof.
  intros Hi Hh Hst Hpc Hsig Ha.
  pose proof (resume_local_registered i v t pc o (mkCalls x ds r)
                Hi Hh Hst Hpc Hsig Ha) as Hrun.
  cbn [world detached running] in Hrun.
  set (pc' := mkPeer have_local_offer (connectionState pc) (Some o)
                (remoteDescription pc) (senders pc) (candidates pc))
    in Hrun |- *.
  set (x1 := upd (fun c =>
                    set_peersRef (<[task_user t := pc']> (peersRef c)) c) x)
    in Hrun.
  assert (Hframe : offer_frame o (task_user t) x1
                   = offer_frame o (task_user t) x) by reflexivity.
  rewrite Hframe in Hrun.
  destruct (send_app (offer_frame o (task_user t) x) x1)
    as (ok & x' & Hsend & Happ).
  assert (Hcomp : comp x' = comp x1) by exact Happ.
  rewrite Hsend in Hrun. cbn [fst] in Hrun.
  exists x'. split; [exact Hrun|].
  unfold offers_created. rewrite Hcomp.
  split; [reflexivity|]. split; [apply lookup_insert_eq|].
  split; [reflexivity|]. split; [reflexivity|]. split; [reflexivity|].
  intros Hopen.
  destruct (send_on_open (offer_frame o (task_user t) x) x1)
    as (x2 & Hsend2 & _ & Hopen2 & Hsent2); [exact Hopen|].
  rewrite Hsend in Hsend2. injection Hsend2 as <- _.
  split; [exact Hopen2|exact Hsent2].
Qed.

(** X12. Presence signals may repeat, and the guard of
    [createOfferForUser] does not see a call that is suspended:
    [user_joined] and [call_participant_ready] for the same newcomer each
    set a timer at 500 ms. When the second timer fires while the call of
    the first is suspended at [await createOffer], the connection is
    still stable, the second call passes the guard and [createOffer] is
    called twice on the same connection; with an open channel and a
    browser that builds and accepts both offers, two [webrtc_offer]
    frames go to the newcomer and the entry keeps the second offer. Only
    when the first call has ended before the second timer fires does the
    second call return at the guard, and [createOffer] is called once. *)
Theorem repeated_signal_offers (uid : string) (va vb : Verdicts) (w : W) :
  Some uid <> user_id (comp w) ->
  localStreamRef (comp w) <> None ->
  peersRef (comp w) !! uid = None ->
  let k := length (pending (comp w)) in
  let tracks := default [] (localStreamRef (comp w)) in
  exists w2,
    handleWebRTCMessage (call_participant_ready uid) vb
      (fst (handleWebRTCMessage (user_joined uid) va w))
    = (w2, Return tt)
    /\ pending (comp w2)
       = pending (comp w)
         ++ [mkTimer 500 (CreateOffer uid); mkTimer 500 (CreateOffer uid)]
    /\ (exists c,
          play [Fires k; Fires k] (mkCalls w2 [] []) = Some c
          /\ offers_created (world c) = offers_created w ++ [uid; uid]
          /\ running c = [mkTask uid Registered AwaitOffer;
                          mkTask uid Registered AwaitOffer])
    /\ (forall v1 v2 v3 v4 o1 o2,
          built_offer v1 = Some o1 -> built_offer v2 = Some o2 ->
          accept_local v3 = true -> accept_local v4 = true ->
          wsService.readyState w = Some OPEN ->
          exists c,
            play [Fires k; Fires k; Resumes 0 v1; Resumes 1 v2;
                  Resumes 0 v3; Resumes 0 v4] (mkCalls w2 [] []) = Some c
            /\ running c = []
            /\ sent (world c)
               = sent w ++ [stringify (offer_frame o1 uid w);
                            stringify (offer_frame o2 uid w)]
            /\ peersRef (comp (world c)) !! uid
               = Some (mkPeer have_local_offer new (Some o2) None tracks []))
    /\ (forall v1 v2 o,
          built_offer v1 = Some o -> accept_local v2 = true ->
          exists c,
            play [Fires k; Resumes 0 v1; Resumes 0 v2; Fires k]
              (mkCalls w2 [] []) = Some c
            /\ offers_created (world c) = offers_created w ++ [uid]
            /\ running c = []).
Proof.
  intros Hother Hstream Hnone k tracks.
  destruct (localStreamRef (comp w)) as [local|] eqn:Href; [|done].
  cbn [default] in tracks. subst tracks.
  set (t := mkTimer 500 (CreateOffer uid)).
  set (A := mkTask uid Registered AwaitOffer).
  set (wa := setTimeout (CreateOffer uid) 500 w).
  set (wb := setTimeout (CreateOffer uid) 500 wa).
  assert (Ha : handleWebRTCMessage (user_joined uid) va w = (wa, Return tt)).
  { unfold handleWebRTCMessage. rewrite bool_decide_eq_true_2 by done.
    by rewrite Href. }
  assert (Hb : handleWebRTCMessage (call_participant_ready uid) vb wa
               = (wb, Return tt)).
  { unfold handleWebRTCMessage.
    change (user_id (comp wa)) with (user_id (comp w)).
    change (localStreamRef (comp wa)) with (localStreamRef (comp w)).
    rewrite bool_decide_eq_true_2 by done. by rewrite Href. }
  assert (Hpb : pending (comp wb) = pending (comp w) ++ [t; t]).
  { change (pending (comp wb)) with ((pending (comp w) ++ [t]) ++ [t]).
    by rewrite <- app_assoc. }
  assert (Hlb : localStreamRef (comp wb) = Some local) by exact Href.
  assert (Heb : peersRef (comp wb) !! uid = None) by exact Hnone.
  assert (Hob : offers_created wb = offers_created w) by reflexivity.
  assert (Hgb : groupId (comp wb) = groupId (comp w)) by reflexivity.
  assert (Hsb : sent wb = sent w) by reflexivity.
  assert (Hrb : wsService.readyState wb = wsService.readyState w)
    by reflexivity.
  clearbody wb wa.
  (* the first timer fires *)
  destruct (fires_step k uid t local [] [] wb)
    as (w1 & Hf1 & Hp1 & He1 & Ho1 & Hl1 & Hg1 & Hs1 & Hr1).
  { rewrite Hpb. by apply list_lookup_middle. }
  { reflexivity. }
  { exact Hlb. }
  { unfold offer_skipped. by rewrite Heb. }
  rewrite Heb in He1. cbn [default] in He1. cbn [app] in Hf1.
  rewrite Hpb in Hp1.
  change (pending (comp w) ++ [t; t])
    with (pending (comp w) ++ t :: [t]) in Hp1.
  unfold k in Hp1. rewrite delete_middle in Hp1.
  exists wb. rewrite Ha. split; [exact Hb|]. split; [exact Hpb|].
  split; [|split].
  - (* the second timer fires before the first call goes on *)
    destruct (fires_step k uid t local [] [A] w1)
      as (w2 & Hf2 & _ & _ & Ho2 & _).
    { rewrite Hp1. by apply list_lookup_middle. }
    { reflexivity. }
    { exact Hl1. }
    { unfold offer_skipped. by rewrite He1. }
    cbn [app] in Hf2.
    exists (mkCalls w2 [] [A; A]). split; [|split; [|reflexivity]].
    + subst A. cbn [play move]. rewrite Hf1. cbn [play move].
      by rewrite Hf2.
    + cbn [world]. by rewrite Ho2, Ho1, Hob, <- app_assoc.
  - intros v1 v2 v3 v4 o1 o2 Hb1 Hb2 Ha3 Ha4 Hopen.
    destruct (fires_step k uid t local [] [A] w1)
      as (w2 & Hf2 & _ & He2 & _ & _ & Hg2 & Hs2 & Hr2).
    { rewrite Hp1. by apply list_lookup_middle. }
    { reflexivity. }
    { exact Hl1. }
    { unfold offer_skipped. by rewrite He1. }
    cbn [app] in Hf2. rewrite He1 in He2. cbn [default] in He2.
    set (A1 := mkTask uid Registered (AwaitLocal o1)).
    set (A2 := mkTask uid Registered (AwaitLocal o2)).
    destruct (resume_offer_step 0 v1 A (new_peer local) o1 [] [A; A] w2)
      as (w3 & Hm3 & _ & He3 & _ & _ & Hg3 & Hs3 & Hr3);
      [reflexivity|reflexivity|reflexivity|exact He2|discriminate|exact Hb1|].
    cbn [task_user A] in Hm3.
    change (<[0 := mkTask uid Registered (AwaitLocal o1)]> [A; A])
      with [A1; A] in Hm3.
    destruct (resume_offer_step 1 v2 A (new_peer local) o2 [] [A1; A] w3)
      as (w4 & Hm4 & _ & He4 & _ & _ & Hg4 & Hs4 & Hr4);
      [reflexivity|reflexivity|reflexivity| |discriminate|exact Hb2|].
    { cbn [task_user A]. by rewrite He3. }
    cbn [task_user A] in Hm4.
    change (<[1 := mkTask uid Registered (AwaitLocal o2)]> [A1; A])
      with [A1; A2] in Hm4.
    destruct (resume_local_step 0 v3 A1 (new_peer local) o1 [] [A1; A2] w4)
      as (w5 & Hm5 & _ & He5 & _ & _ & Hg5 & Hw5);
      [reflexivity|reflexivity|reflexivity| |by left|exact Ha3|].
    { cbn [task_user A1]. by rewrite He4, He3. }
    cbn [task_user A1 new_peer connectionState remoteDescription senders
         candidates] in Hm5, He5, Hw5.
    change (delete 0 [A1; A2]) with [A2] in Hm5.
    destruct Hw5 as [Hr5 Hs5]; [by rewrite Hr4, Hr3, Hr2, Hr1, Hrb|].
    destruct (resume_local_step 0 v4 A2
                (mkPeer have_local_offer new (Some o1) None local [])
                o2 [] [A2] w5)
      as (w6 & Hm6 & _ & He6 & _ & _ & Hg6 & Hw6);
      [reflexivity|reflexivity|reflexivity|exact He5|by right|exact Ha4|].
    cbn [task_user A2 connectionState remoteDescription senders candidates]
      in Hm6, He6, Hw6.
    change (delete 0 [A2]) with (@nil Task) in Hm6.
    destruct Hw6 as [Hr6 Hs6]; [exact Hr5|].
    exists (mkCalls w6 [] []). split; [|split; [reflexivity|split]].
    + subst A A1 A2. cbn [play move]. rewrite Hf1. cbn [play move].
      rewrite Hf2.
      cbn [play move]. rewrite Hm3. cbn [play move]. rewrite Hm4.
      cbn [play move]. rewrite Hm5. cbn [play move]. by rewrite Hm6.
    + cbn [world]. rewrite Hs6, Hs5, Hs4, Hs3, Hs2, Hs1, Hsb.
      rewrite <- app_assoc. unfold offer_frame.
      by rewrite Hg5, Hg4, Hg3, Hg2, Hg1, Hgb.
    + exact He6.
  - intros v1 v2 o Hb1 Ha2.
    set (A1 := mkTask uid Registered (AwaitLocal o)).
    destruct (resume_offer_step 0 v1 A (new_peer local) o [] [A] w1)
      as (w3 & Hm3 & Hp3 & He3 & Ho3 & _);
      [reflexivity|reflexivity|reflexivity|exact He1|discriminate|exact Hb1|].
    cbn [task_user A] in Hm3.
    change (<[0 := mkTask uid Registered (AwaitLocal o)]> [A])
      with [A1] in Hm3.
    destruct (resume_local_step 0 v2 A1 (new_peer local) o [] [A1] w3)
      as (w4 & Hm4 & Hp4 & He4 & Ho4 & _);
      [reflexivity|reflexivity|reflexivity| |by left|exact Ha2|].
    { cbn [task_user A1]. by rewrite He3. }
    cbn [task_user A1 new_peer connectionState remoteDescription senders
         candidates] in Hm4, He4.
    change (delete 0 [A1]) with (@nil Task) in Hm4.
    destruct (fires_guarded k uid t [] [] w4)
      as (w5 & Hf5 & _ & _ & Ho5 & _).
    { rewrite Hp4, Hp3, Hp1. by apply list_lookup_middle. }
    { reflexivity. }
    { unfold offer_skipped. by rewrite He4. }
    exists (mkCalls w5 [] []). split; [|split; [|reflexivity]].
    + subst A A1. cbn [play move]. rewrite Hf1. cbn [play move].
      rewrite Hm3.
      cbn [play move]. rewrite Hm4. cbn [play move]. by rewrite Hf5.
    + cbn [world]. by rewrite Ho5, Ho4, Ho3, Ho1, Hob.
Qed.

End OfferFacts.

(** * The statements at work on the concrete situations *)

Section Instances.
Import VoiceCall Scenario.

(** Every open fails after the first [connect] of the page: five
    reconnections at 1 to 5 seconds, one [reconnect_failed], then
    silence. *)
Lemma reconnection_bounded_on_first_attempt :
  Lifecycle.attempting (Some "tok") 0 0 first_attempt
  /\ exists w',
      Lifecycle.run quiet (Lifecycle.failures (Some "tok") 5 0) first_attempt
      = Some w'
      /\ Lifecycle.emissions "reconnect_failed" w' = 1
      /\ timer_delay <$> wsService.scheduled w'
         = [1000 * 1; 1000 * 2; 1000 * 3; 1000 * 4; 1000 * 5]
      /\ length (wsService.sockets w') = 6
      /\ wsService.timers w' = [] /\ Lifecycle.live w' = [].
Proof.
  assert (Hat : Lifecycle.attempting (Some "tok") 0 0 first_attempt).
  { unfold Lifecycle.attempting. split; [reflexivity|].
    split; [reflexivity|]. split.
    { eexists. split; [reflexivity|reflexivity]. }
    split; [intros h' s Hlt; lia|].
    split; [reflexivity|]. split; [reflexivity|]. split; [reflexivity|].
    split; intros _; by eexists. }
  split; [exact Hat|].
  destruct (proj2 (reconnection_bounded quiet) (Some "tok") 0 0 first_attempt
              Hat (Nat.le_0_l 5))
    as (w' & Hrun & Hem & Hsch & Hlen & Htm & Hlive & _).
  exists w'. split; [exact Hrun|]. split; [exact Hem|].
  split; [exact Hsch|]. split; [exact Hlen|]. split; [exact Htm|].
  exact Hlive.
Defined.

(** An offer from u2 while our own offer to u2 is pending. *)
Lemma glare_offer_dropped_in_call :
  peersRef (comp in_call) !! "u2" = Some offering
  /\ signalingState offering <> stable
  /\ handleOffer (JStr "their-offer") "u2" accepting in_call
     = (in_call, Return tt).
Proof.
  assert (H1 : peersRef (comp in_call) !! "u2" = Some offering)
    by reflexivity.
  assert (H2 : signalingState offering <> stable) by discriminate.
  split; [exact H1|]. split; [exact H2|].
  exact (proj1 (glare_offer_dropped (JStr "their-offer") "u2" accepting
                  in_call offering H1 H2)).
Defined.


(** C3 as stated fails: the application calls [connect] only, the socket
    opens, the closing handshake starts from the other end, and a second
    [connect] made before the [close] event constructs a socket beside
    the closing one: two sockets are not closed. *)
Lemma connect_while_closing_two_sockets :
  exists w,
    Lifecycle.run quiet
      [Lifecycle.CallConnect "g1"; Lifecycle.SocketOpened 0;
       Lifecycle.SocketClosing 0; Lifecycle.CallConnect "g1"]
      (Lifecycle.start page tt) = Some w
    /\ sock_state <$> wsService.sockets w = [CLOSING; CONNECTING]
    /\ Lifecycle.live w = [0; 1]
    /\ ~ length (Lifecycle.live w) <= 1.
Proof.
  eexists. split; [vm_compute; reflexivity|].
  split; [reflexivity|]. split; [reflexivity|].
  vm_compute. lia.
Qed.


(** The answer of u2 to our pending offer, accepted by the browser. *)
Lemma answer_applied_in_call :
  peersRef (comp (fst (handleAnswer (JStr "answer-sdp") "u2" accepting
                         in_call))) !! "u2"
  = Some (mkPeer stable new (Some (JStr "offer-sdp"))
                 (Some (JStr "answer-sdp")) [0] []).
Proof.
  exact (proj1 (proj2 (proj1 (answer_applied_when_accepted
                                (JStr "answer-sdp") "u2" accepting in_call)
                             offering eq_refl eq_refl))
               eq_refl).
Defined.

(** C6 as stated fails: u2 has an entry in state have-local-offer, the
    answer arrives, the browser refuses it; no remote description is set
    and the entry is not stable, it is gone. *)
Lemma answer_refused_not_applied :
  (exists pc, peersRef (comp in_call) !! "u2" = Some pc
              /\ signalingState pc = have_local_offer)
  /\ ~ (exists pc',
          peersRef (comp (fst (handleAnswer (JStr "answer-sdp") "u2"
                                 refusing in_call))) !! "u2" = Some pc'
          /\ remoteDescription pc' = Some (JStr "answer-sdp")
          /\ signalingState pc' = stable).
Proof.
  split.
  - exists offering. split; reflexivity.
  - intros (pc' & Hpc & _). vm_compute in Hpc. discriminate.
Qed.



(** The browser refuses the answer of u2. *)
Lemma failure_forgets_u2_only :
  forgotten "u2" in_call
    (fst (handleAnswer (JStr "answer-sdp") "u2" refusing in_call)).
Proof.
  eapply (proj2 (proj2 (failure_forgets_only_that_peer "u2" refusing
                          in_call))
            (JStr "answer-sdp") _ offering); reflexivity.
Defined.

(** C4 on the code. The microphone is enabled and the component not
    muted, as a call starts. The first [toggleMute] announces muted and
    leaves the track enabled; the second announces unmuted and disables
    it: after the two calls the track is not back to its value, while two
    frames have been sent. *)
Theorem toggleMute_twice_not_restored :
  let once := fst (toggleMute in_call) in
  let twice := fst (toggleMute once) in
  tracks (comp in_call) !! 0 = Some (mkTrack audio true false)
  /\ isMuted (comp in_call) = false
  /\ tracks (comp once) !! 0 = Some (mkTrack audio true false)
  /\ isMuted (comp once) = true
  /\ tracks (comp twice) !! 0 = Some (mkTrack audio false false)
  /\ isMuted (comp twice) = false
  /\ (sock_sent <$> wsService.sockets twice)
     = [[stringify (JObj [("type", JStr "participant_mute_status");
                          ("user_id", JStr "u1"); ("is_muted", JBool true);
                          ("group_id", JStr "g1")]);
         stringify (JObj [("type", JStr "participant_mute_status");
                          ("user_id", JStr "u1"); ("is_muted", JBool false);
                          ("group_id", JStr "g1")])]].
Proof. repeat split. Qed.

(** The earlier component on the same track: there the two calls do
    restore it. *)
Lemma basic_toggleMute_twice_restores :
  let once := VoiceCallBasic.toggleMute (Some [0]) false [mic] in
  let twice := VoiceCallBasic.toggleMute (Some [0]) (fst once) (snd once) in
  once = (true, [mkTrack audio false false]) /\ twice = (false, [mic]).
Proof. split; reflexivity. Qed.

(** Beyond runs made of [connect] calls: the page that owned the socket
    disconnects, the next page connects while the old socket is still
    closing, the old socket's [close] handler then lowers the in-progress
    flag and schedules a reconnection to the old room, which opens a second
    connection next to the one being opened. *)
Lemma disconnect_then_connect_two_sockets :
  exists w,
    Lifecycle.run quiet
      [Lifecycle.CallConnect "g1"; Lifecycle.SocketOpened 0;
       Lifecycle.CallDisconnect; Lifecycle.CallConnect "g2";
       Lifecycle.SocketClosed 0; Lifecycle.TimerFired 0]
      (Lifecycle.start page tt) = Some w
    /\ sock_state <$> wsService.sockets w = [CLOSED; CONNECTING; CONNECTING]
    /\ sock_group <$> wsService.sockets w = ["g1"; "g2"; "g1"]
    /\ Lifecycle.live w = [1; 2].
Proof.
  eexists. split; [vm_compute; reflexivity|].
  split; [reflexivity|]. split; reflexivity.
Qed.

(** Three listeners, the second one throwing: all three run, in order. *)
Lemma faulty_listener_isolated :
  let w := foldl (fun w cb => wsService.on "call_ended" cb w)
                 (Lifecycle.start page []) [0; 1; 2] in
  exists w',
    wsService.emit faulty "call_ended" JNull w = (w', Return tt)
    /\ wsService.invoked w' = [(0, JNull); (1, JNull); (2, JNull)]
    /\ wsService.app w' = [0; 1; 2].
Proof.
  eexists. split; [vm_compute; reflexivity|]. split; reflexivity.
Qed.

End Instances.

(** * More on the transport channel *)

Section TransportMore.
Import WebSocketService Lifecycle.
Context {A : Type}.
Variable call : nat -> JSON -> A -> A * Completion unit.

Lemma step_opened (h : nat) (s : Socket) (w : World A) :
  sockets w !! h = Some s -> sock_state s = CONNECTING ->
  step call (SocketOpened h) w = Some (fst (onopen call (mark h OPEN w))).
Proof. intros Hs Hst. unfold step. rewrite Hs. cbn. by rewrite Hst. Qed.

Lemma step_closed (h : nat) (s : Socket) (w : World A) :
  sockets w !! h = Some s ->
  sock_state s = OPEN \/ sock_state s = CLOSING ->
  step call (SocketClosed h) w
  = Some (fst (onclose call (sock_group s) (mark h CLOSED w))).
Proof.
  intros Hs Hst. unfold step. rewrite Hs. cbn.
  by destruct Hst as [-> | ->].
Qed.

Lemma remove_first_absent (callback : nat) (cbs : list nat) :
  callback ∉ cbs -> remove_first callback cbs = cbs.
Proof.
  induction cbs as [|c rest IH]; intros Hnot; [done|]. simpl.
  rewrite bool_decide_eq_false_2.
  - f_equal. apply IH. intros Hin. apply Hnot, elem_of_cons. by right.
  - intros ->. apply Hnot, elem_of_cons. by left.
Qed.

Lemma remove_first_app (callback : nat) (cbs more : list nat) :
  callback ∈ cbs ->
  remove_first callback (cbs ++ more) = remove_first callback cbs ++ more.
Proof.
  induction cbs as [|c rest IH]; intros Hin.
  - by apply elem_of_nil in Hin.
  - simpl. destruct (bool_decide (c = callback)) eqn:Hc; [done|].
    apply bool_decide_eq_false_1 in Hc. simpl. f_equal. apply IH.
    apply elem_of_cons in Hin as [->|Hin]; done.
Qed.

Lemma remove_first_last (callback : nat) (cbs : list nat) :
  callback ∉ cbs -> remove_first callback (cbs ++ [callback]) = cbs.
Proof.
  induction cbs as [|c rest IH]; intros Hnot; simpl.
  - by rewrite bool_decide_eq_true_2.
  - rewrite bool_decide_eq_false_2.
    + f_equal. apply IH. intros Hin. apply Hnot, elem_of_cons. by right.
    + intros ->. apply Hnot, elem_of_cons. by left.
Qed.

Lemma off_listeners (event : string) (callback : nat) (w : World A) :
  listeners (this (off event callback w)) !! event
  = remove_first callback <$> listeners (this w) !! event.
Proof.
  unfold off. destruct (listeners (this w) !! event) as [cbs|] eqn:H.
  - cbn. by rewrite lookup_alter_eq, H.
  - by rewrite H.
Qed.

Lemma on_other (event other : string) (callback : nat) (w : World A) :
  other <> event ->
  listeners (this (on event callback w)) !! other
  = listeners (this w) !! other.
Proof.
  intros Hne. unfold on. cbn.
  rewrite lookup_alter_ne by done.
  destruct (listeners (this w) !! event); [done|].
  by rewrite lookup_insert_ne.
Qed.

Lemma off_other (event other : string) (callback : nat) (w : World A) :
  other <> event ->
  listeners (this (off event callback w)) !! other
  = listeners (this w) !! other.
Proof.
  intros Hne. unfold off.
  destruct (listeners (this w) !! event); [|done]. cbn.
  by rewrite lookup_alter_ne.
Qed.

(** X1. Unsubscribing undoes the subscription of a callback that was not
    registered for the event before: the event's callbacks are the ones
    there were, in the same order, and the other events are untouched.
    When the callback was registered already, [off] takes out its
    earliest registration and the new one stays at the end. *)
Theorem off_undoes_on (event : string) (callback : nat) (w : World A) :
  let before := default [] (listeners (this w) !! event) in
  let after :=
    default []
      (listeners (this (off event callback (on event callback w))) !! event)
  in
  (callback ∉ before -> after = before)
  /\ (callback ∈ before ->
      after = remove_first callback before ++ [callback])
  /\ (forall other, other <> event ->
        listeners (this (off event callback (on event callback w))) !! other
        = listeners (this w) !! other).
Proof.
  intros before after.
  assert (Hafter : after = remove_first callback (before ++ [callback])).
  { unfold after. by rewrite off_listeners, on_registers. }
  split; [|split].
  - intros Hnot. rewrite Hafter. by apply remove_first_last.
  - intros Hin. rewrite Hafter. by apply remove_first_app.
  - intros other Hne. rewrite off_other, on_other by done. done.
Qed.

(** X2. After [disconnect] the service holds no socket, counts no
    reconnection and has no listener: whatever is emitted, no callback is
    invoked, and [send] returns false and sends nothing. A socket that
    was not closed is now closing. The pending timers are still there. *)
Theorem disconnect_silences (w : World A) :
  let w' := disconnect w in
  ws (this w') = None
  /\ reconnectAttempts (this w') = 0
  /\ timers w' = timers w
  /\ (forall event data,
        exists w'', emit call event data w' = (w'', Return tt)
                    /\ invoked w'' = invoked w' /\ app w'' = app w')
  /\ (forall data, send data w' = (w', Return false))
  /\ (forall h s,
        ws (this w) = Some h -> sockets w !! h = Some s ->
        sock_state s <> CLOSED ->
        sock_state <$> sockets w' !! h = Some CLOSING).
Proof.
  intros w'.
  assert (Hws : ws (this w') = None)
    by (unfold w', disconnect; destruct (ws (this w)) eqn:E; cbn; done).
  assert (Hl : listeners (this w') = ∅)
    by (unfold w', disconnect; destruct (ws (this w)); reflexivity).
  split; [exact Hws|]. split.
  { unfold w', disconnect. destruct (ws (this w)); reflexivity. }
  split.
  { unfold w', disconnect. destruct (ws (this w)); reflexivity. }
  split.
  { intros event data.
    destruct (emit_spec call event data w')
      as (w'' & Hrun & Hinv & Happ & _).
    exists w''. split; [exact Hrun|].
    rewrite Hl, lookup_empty in Hinv, Happ. simpl in Hinv, Happ.
    by rewrite app_nil_r in Hinv. }
  split.
  { intros data. unfold send. by rewrite Hws. }
  intros h s Hh Hs Hlive. unfold w', disconnect. rewrite Hh. cbn.
  rewrite list_lookup_alter_eq, Hs. cbn. unfold sock_close.
  by destruct (sock_state s).
Qed.

(** X3. [disconnect] does not stop reconnection. When the socket it
    closed reaches CLOSED, the close handler, with the counter back at 0,
    sets a timer 1000 ms ahead to reconnect to the room of that socket;
    when the timer fires, [connect] passes its guard and a connection is
    in progress again, although the application had disconnected. *)
Theorem disconnect_then_reconnects (w : World A) (h : nat) (s : Socket) :
  ws (this w) = Some h -> sockets w !! h = Some s ->
  sock_state s = OPEN \/ sock_state s = CONNECTING ->
  exists w1 w2,
    step call (SocketClosed h) (disconnect w) = Some w1
    /\ timers w1 = timers w ++ [mkTimer 1000 (Reconnect (sock_group s))]
    /\ step call (TimerFired (length (timers w))) w1 = Some w2
    /\ isConnecting (this w2) = true
    /\ (getToken (this w) = None ->
        exists s', sockets w2 !! length (sockets w) = Some s'
                   /\ sock_group s' = sock_group s
                   /\ sock_state s' = CONNECTING).
Proof.
  intros Hh Hs Hst.
  assert (Hd : sockets (disconnect w) !! h = Some (set_sock_state CLOSING s)).
  { unfold disconnect. rewrite Hh. cbn.
    rewrite list_lookup_alter_eq, Hs. cbn. unfold sock_close.
    by destruct Hst as [-> | ->]. }
  assert (Hfields : ws (this (disconnect w)) = None
                    /\ reconnectAttempts (this (disconnect w)) = 0
                    /\ timers (disconnect w) = timers w
                    /\ getToken (this (disconnect w)) = getToken (this w)
                    /\ awaiting (disconnect w) = awaiting w
                    /\ length (sockets (disconnect w)) = length (sockets w)).
  { unfold disconnect. rewrite Hh. cbn. by rewrite length_alter. }
  destruct Hfields as (Dws & Dn & Dt & Dg & Da & Dl).
  destruct (onclose_spec call (sock_group s) (mark h CLOSED (disconnect w)))
    as (w1 & Hrun & Hso & Haw & Hws & Hic & Hgt & _ & Hcase).
  change (reconnectAttempts (this (mark h CLOSED (disconnect w))))
    with (reconnectAttempts (this (disconnect w))) in Hcase.
  rewrite Dn in Hcase.
  change (0 <? maxReconnectAttempts) with true in Hcase.
  cbv beta iota zeta in Hcase.
  destruct Hcase as (Hn & Htm & _ & _).
  assert (Hstep : step call (SocketClosed h) (disconnect w) = Some w1).
  { rewrite (step_closed h (set_sock_state CLOSING s)) by (done || by right).
    change (sock_group (set_sock_state CLOSING s)) with (sock_group s).
    by rewrite Hrun. }
  assert (Htm1 : timers w1
                 = timers w ++ [mkTimer 1000 (Reconnect (sock_group s))]).
  { rewrite Htm.
    change (timers (mark h CLOSED (disconnect w)))
      with (timers (disconnect w)).
    rewrite Dt. reflexivity. }
  assert (Hws1 : ws (this w1) = None) by (rewrite Hws; exact Dws).
  assert (Hgt1 : getToken (this w1) = getToken (this w))
    by (rewrite Hgt; exact Dg).
  assert (Hlen1 : length (sockets w1) = length (sockets w)).
  { rewrite Hso. unfold mark. cbn [sockets set_sockets].
    by rewrite length_alter. }
  assert (Hopen : isConnected (set_timers (delete (length (timers w))
                                             (timers w1)) w1) = false).
  { unfold isConnected, current_socket.
    change (ws (this (set_timers (delete (length (timers w)) (timers w1))
                        w1)))
      with (ws (this w1)).
    by rewrite Hws1. }
  exists w1, (connect (sock_group s)
                (set_timers (delete (length (timers w)) (timers w1)) w1)).
  split; [exact Hstep|]. split; [exact Htm1|]. split.
  { unfold step. rewrite Htm1, lookup_app_r by lia.
    by rewrite Nat.sub_diag. }
  rewrite connect_fresh by done.
  change (getToken (this (set_timers (delete (length (timers w)) (timers w1))
                            w1)))
    with (getToken (this w1)).
  rewrite Hgt1.
  destruct (getToken (this w)) as [fn|]; [split; [done|done]|].
  split; [done|]. intros _.
  exists (mkSocket (wsUrl (location w1) (sock_group s) EmptyString)
                   (sock_group s) CONNECTING []).
  split; [|done].
  change (sockets (connect_open (sock_group s) EmptyString
                     (set_isConnecting true
                        (set_timers (delete (length (timers w)) (timers w1))
                           w1))))
    with (sockets w1
          ++ [mkSocket (wsUrl (location w1) (sock_group s) EmptyString)
                       (sock_group s) CONNECTING []]).
  rewrite lookup_app_r by lia. by rewrite Hlen1, Nat.sub_diag.
Qed.

(** X4. A socket that opens resets the count: [connected] is emitted and
    the counter is 0 whatever it was, so that the next closure of that
    socket schedules a reconnection 1000 ms ahead. *)
Theorem open_resets_backoff (w : World A) (h : nat) (s : Socket) :
  sockets w !! h = Some s -> sock_state s = CONNECTING ->
  exists w1 w2,
    step call (SocketOpened h) w = Some w1
    /\ reconnectAttempts (this w1) = 0
    /\ isConnecting (this w1) = false
    /\ emitted w1 = emitted w ++ [("connected", JUndefined)]
    /\ step call (SocketClosed h) w1 = Some w2
    /\ reconnectAttempts (this w2) = 1
    /\ timers w2 = timers w ++ [mkTimer 1000 (Reconnect (sock_group s))].
Proof.
  intros Hs Hst.
  destruct (onopen_spec call (mark h OPEN w))
    as (w1 & Hrun1 & Hthis1 & Hso1 & Htm1 & _ & _ & Hem1).
  assert (Hs1 : sockets w1 !! h = Some (set_sock_state OPEN s)).
  { rewrite Hso1, mark_lookup, decide_True by done. by rewrite Hs. }
  destruct (onclose_spec call (sock_group s) (mark h CLOSED w1))
    as (w2 & Hrun2 & _ & _ & _ & _ & _ & _ & Hcase).
  change (reconnectAttempts (this (mark h CLOSED w1)))
    with (reconnectAttempts (this w1)) in Hcase.
  rewrite Hthis1 in Hcase.
  change (reconnectAttempts (mkService _ 0 _ _ _)) with 0 in Hcase.
  change (0 <? maxReconnectAttempts) with true in Hcase.
  cbv beta iota zeta in Hcase.
  destruct Hcase as (Hn & Htm & _ & _).
  exists w1, w2. split.
  { rewrite (step_opened h s) by done. by rewrite Hrun1. }
  split; [by rewrite Hthis1|]. split; [by rewrite Hthis1|].
  split; [exact Hem1|]. split.
  { rewrite (step_closed h (set_sock_state OPEN s)) by (done || by left).
    change (sock_group (set_sock_state OPEN s)) with (sock_group s).
    by rewrite Hrun2. }
  split; [exact Hn|]. rewrite Htm.
  change (timers (mark h CLOSED w1)) with (timers w1). rewrite Htm1.
  reflexivity.
Qed.

(** The callbacks a frame reaches, in order: those of [message], then
    those of the event named by its type. *)
Lemma onmessage_deliveries (data : JSON) (w : World A) :
  exists w',
    onmessage call (Some data) w = (w', Return tt)
    /\ this w' = this w /\ sockets w' = sockets w /\ timers w' = timers w
    /\ scheduled w' = scheduled w
    /\ invoked w'
       = invoked w
         ++ map (fun cb => (cb, data))
                (default [] (listeners (this w) !! "message"))
         ++ match prop "type" data with
            | JStr t =>
                if truthy (JStr t) then
                  map (fun cb => (cb, data))
                      (default [] (listeners (this w) !! t))
                else []
            | _ => []
            end.
Proof.
  unfold onmessage, try_catch. unfold JS.bind at 1.
  destruct (emit_spec call "message" data w)
    as (w1 & Hrun1 & Hinv1 & _ & Hthis & Hs & Ht & _ & _ & Hsch & _).
  rewrite Hrun1.
  assert (Hbase : this w1 = this w /\ sockets w1 = sockets w
                  /\ timers w1 = timers w /\ scheduled w1 = scheduled w
                  /\ invoked w1
                     = invoked w
                       ++ map (fun cb => (cb, data))
                              (default [] (listeners (this w) !! "message"))
                       ++ []).
  { by rewrite app_nil_r. }
  destruct data; cbn [prop];
    try (exists w1; split; [reflexivity|exact Hbase]).
  destruct (assoc "type" fields) eqn:Hty;
    try (exists w1; split; [reflexivity|exact Hbase]).
  destruct (truthy (JStr s)) eqn:Htr;
    try (exists w1; split; [reflexivity|exact Hbase]).
  destruct (emit_spec call s (JObj fields) w1)
    as (w2 & Hrun2 & Hinv2 & _ & Hthis2 & Hs2 & Ht2 & _ & _ & Hsch2 & _).
  rewrite Hrun2. exists w2. split; [reflexivity|].
  rewrite Hthis2, Hs2, Ht2, Hsch2, Hinv2, Hinv1, Hthis, <- app_assoc.
  done.
Qed.

(** X5. A frame that cannot be parsed is dropped: the handler returns
    with the state as it was. Whatever arrives, text that is not JSON,
    the JSON null or a value without a type, [onmessage] returns
    normally, and it leaves the service, the sockets and the timers
    alone: a bad frame neither closes the connection nor starts a
    reconnection. *)
Theorem onmessage_survives_bad_frames (parsed : option JSON) (w : World A) :
  onmessage call None w = (w, Return tt)
  /\ exists w',
      onmessage call parsed w = (w', Return tt)
      /\ this w' = this w /\ sockets w' = sockets w
      /\ timers w' = timers w /\ scheduled w' = scheduled w.
Proof.
  split; [reflexivity|].
  destruct parsed as [data|].
  - destruct (onmessage_deliveries data w)
      as (w' & Hrun & H1 & H2 & H3 & H4 & _).
    by exists w'.
  - by exists w.
Qed.

(** X6. A frame with a type reaches the [message] listeners and then the
    listeners of the event named by the type. A frame whose type is
    [message] therefore reaches every [message] listener twice. *)
Theorem typed_frame_dispatched_twice (data : JSON) (type : string)
    (w : World A) :
  prop "type" data = JStr type -> type <> EmptyString ->
  exists w',
    onmessage call (Some data) w = (w', Return tt)
    /\ invoked w'
       = invoked w
         ++ map (fun cb => (cb, data))
                (default [] (listeners (this w) !! "message"))
         ++ map (fun cb => (cb, data))
                (default [] (listeners (this w) !! type))
    /\ (type = "message" ->
        forall cb,
          length (filter (fun c => fst c = cb)
                         (drop (length (invoked w)) (invoked w')))
          = 2 * length (filter (fun c => c = cb)
                               (default []
                                  (listeners (this w) !! "message")))).
Proof.
  intros Hty Hne.
  destruct (onmessage_deliveries data w) as (w' & Hrun & _ & _ & _ & _ & Hinv).
  rewrite Hty in Hinv.
  assert (Htr : truthy (JStr type) = true).
  { cbn. destruct type; [done|reflexivity]. }
  rewrite Htr in Hinv.
  exists w'. split; [exact Hrun|]. split; [exact Hinv|].
  intros -> cb. rewrite Hinv, drop_app_length, filter_app, length_app.
  assert (Hcount : forall l : list nat,
            length (filter (fun c => fst c = cb)
                           (map (fun cb0 => (cb0, data)) l))
            = length (filter (fun c => c = cb) l)).
  { induction l as [|x l IH]; [done|]. cbn [map].
    rewrite !filter_cons.
    destruct (decide (x = cb)) as [->|Hx].
    - rewrite decide_True by done. cbn. by rewrite IH.
    - rewrite decide_False by done. exact IH. }
  rewrite Hcount. lia.
Qed.

(** X7. When the token getter rejects, [connect] leaves no trace: the
    state is the one before the call, with no socket constructed, the
    in-progress flag down again and no timer set, so nothing retries;
    a later [connect] passes the guard as this one did. *)
Theorem rejected_token_leaves_no_trace (groupId : string) (fn : nat)
    (w : World A) :
  getToken (this w) = Some fn ->
  isConnecting (this w) = false -> isConnected w = false ->
  awaiting (connect groupId w) = awaiting w ++ [groupId]
  /\ isConnecting (this (connect groupId w)) = true
  /\ step call (TokenSettled (length (awaiting w)) Rejected)
          (connect groupId w) = Some w.
Proof.
  intros Hgt Hic Hopen. rewrite connect_fresh by done. rewrite Hgt.
  split; [reflexivity|]. split; [reflexivity|].
  unfold step. cbn [awaiting set_awaiting].
  rewrite lookup_app_r by lia. rewrite Nat.sub_diag. cbn.
  rewrite (delete_middle (awaiting w) [] groupId), app_nil_r.
  f_equal. destruct w as [svc so tm aw loc a sch em inv].
  destruct svc as [h n l c g]. cbn in *. by subst.
Qed.





End TransportMore.



(** * More on call signalling *)

Section CallMore.
Import VoiceCall VoiceCallSession.

(** [send] on an open connection. *)
Lemma send_when_open {A : Type} (data : JSON) (w : wsService.World A) :
  wsService.readyState w = Some OPEN ->
  exists w',
    wsService.send data w = (w', Return true)
    /\ wsService.app w' = wsService.app w
    /\ wsService.this w' = wsService.this w
    /\ sock_sent <$> wsService.current_socket w'
       = (fun l => l ++ [stringify data])
           <$> (sock_sent <$> wsService.current_socket w).
Proof.
  unfold wsService.readyState, wsService.current_socket, wsService.send.
  destruct (wsService.ws (wsService.this w)) as [h|] eqn:Hws; [|done].
  cbn. destruct (wsService.sockets w !! h) as [s|] eqn:Hs; [|done].
  cbn. intros Hopen. injection Hopen as Hopen.
  rewrite bool_decide_eq_true_2 by done.
  unfold sock_send. rewrite Hopen.
  eexists. split; [reflexivity|]. split; [reflexivity|].
  split; [reflexivity|]. cbn. rewrite Hws. cbn.
  rewrite list_lookup_insert_eq by (by apply lookup_lt_Some in Hs).
  reflexivity.
Qed.

Lemma send_when_not_open {A : Type} (data : JSON) (w : wsService.World A) :
  wsService.readyState w <> Some OPEN ->
  wsService.send data w = (w, Return false).
Proof.
  unfold wsService.readyState, wsService.current_socket, wsService.send.
  destruct (wsService.ws (wsService.this w)) as [h|]; [|done].
  cbn. destruct (wsService.sockets w !! h) as [s|]; [|done].
  cbn. intros Hnot.
  rewrite bool_decide_eq_false_2; [done|]. intros Hopen. apply Hnot.
  by rewrite Hopen.
Qed.

(** X9. A candidate from a sender without an entry is ignored. For a
    sender with an entry the handler returns normally whatever the
    browser answers, never removes the entry and never changes its
    signalling or connection state or its descriptions; the candidate is
    added when the browser accepts it and a remote description is already
    set, and is lost otherwise. No other entry changes and nothing is
    sent. *)
Theorem candidate_never_removes (candidate : JSON) (sender : string)
    (v : Verdicts) (w : W) :
  exists w',
    handleIceCandidate candidate sender v w = (w', Return tt)
    /\ (peersRef (comp w) !! sender = None -> w' = w)
    /\ (forall pc,
          peersRef (comp w) !! sender = Some pc ->
          peersRef (comp w') !! sender
          = Some (mkPeer (signalingState pc) (connectionState pc)
                    (localDescription pc) (remoteDescription pc)
                    (senders pc)
                    (if accept_candidate v
                        && bool_decide (is_Some (remoteDescription pc))
                     then candidates pc ++ [candidate]
                     else candidates pc)))
    /\ (forall other, other <> sender ->
          peersRef (comp w') !! other = peersRef (comp w) !! other)
    /\ wsService.sockets w' = wsService.sockets w.
Proof.
  unfold handleIceCandidate.
  destruct (peersRef (comp w) !! sender) as [pc|] eqn:Hpc.
  2:{ exists w. repeat split; try done. }
  unfold try_catch, peer_do.
  change (peersRef (comp (log_rtc sender AddIceCall w)))
    with (peersRef (comp w)).
  rewrite Hpc. unfold addIceCandidate.
  destruct (remoteDescription pc) as [d|] eqn:Hd.
  - destruct (accept_candidate v).
    + eexists. split; [reflexivity|]. split; [done|]. split.
      { intros pc0 Hpc0. injection Hpc0 as <-. rewrite Hd.
        change (<[sender := mkPeer (signalingState pc) (connectionState pc)
                              (localDescription pc) (Some d) (senders pc)
                              (candidates pc ++ [candidate])]>
                  (peersRef (comp w)) !! sender = Some
                  (mkPeer (signalingState pc) (connectionState pc)
                     (localDescription pc) (Some d) (senders pc)
                     (candidates pc ++ [candidate]))).
        apply lookup_insert_eq. }
      split; [|reflexivity].
      intros other Hne.
      change (<[sender := mkPeer (signalingState pc) (connectionState pc)
                            (localDescription pc) (Some d) (senders pc)
                            (candidates pc ++ [candidate])]>
                (peersRef (comp w)) !! other = peersRef (comp w) !! other).
      by rewrite lookup_insert_ne.
    + eexists. split; [reflexivity|]. split; [done|]. split.
      { intros pc0 Hpc0. injection Hpc0 as <-. rewrite Hd.
        change (peersRef (comp w) !! sender = Some
                  (mkPeer (signalingState pc) (connectionState pc)
                     (localDescription pc) (Some d) (senders pc)
                     (candidates pc))).
        rewrite Hpc, <- Hd. by destruct pc. }
      split; [done|reflexivity].
  - eexists. split; [reflexivity|]. split; [done|]. split.
    { intros pc0 Hpc0. injection Hpc0 as <-. rewrite Hd.
      rewrite andb_false_r.
      change (peersRef (comp w) !! sender = Some
                (mkPeer (signalingState pc) (connectionState pc)
                   (localDescription pc) None (senders pc)
                   (candidates pc))).
      rewrite Hpc, <- Hd. by destruct pc. }
    split; [done|reflexivity].
Qed.

(** [handleOffer] when the browser goes along. *)
Lemma offer_accepted (offer answer : JSON) (P : string) (v : Verdicts)
    (w : W) (pc : PeerConnection) :
  localStreamRef (comp w) <> None ->
  peersRef (comp (ensure_peer P w)) !! P = Some pc ->
  signalingState pc = stable ->
  accept_remote v = true -> built_answer v = Some answer ->
  accept_local v = true ->
  exists w1 sent w',
    handleOffer offer P v w = (w', Return tt)
    /\ comp w1
       = set_peersRef
           (<[P := mkPeer stable (connectionState pc) (Some answer)
                     (Some offer) (senders pc) (candidates pc)]>
              (peersRef (comp (ensure_peer P w))))
           (set_rtcCalls
              (rtcCalls (comp w)
               ++ [(P, SetRemoteCall sdp_offer); (P, CreateAnswerCall);
                   (P, SetLocalCall sdp_answer)])
              (comp (ensure_peer P w)))
    /\ wsService.this w1 = wsService.this w
    /\ wsService.sockets w1 = wsService.sockets w
    /\ wsService.send
         (JObj [("type", JStr "webrtc_answer"); ("answer", answer);
                ("target_user_id", JStr P);
                ("group_id", json_of (groupId (comp w)))]) w1
       = (w', Return sent).
Proof.
  intros Hstream Hpc Hst Hr Ha Hl. unfold handleOffer.
  destruct (localStreamRef (comp w)); [|done].
  set (w0 := ensure_peer P w) in *.
  assert (Hrtc0 : rtcCalls (comp w0) = rtcCalls (comp w)).
  { unfold w0, ensure_peer. by destruct (peersRef (comp w) !! P). }
  assert (Hgid : groupId (comp w0) = groupId (comp w)).
  { unfold w0, ensure_peer. by destruct (peersRef (comp w) !! P). }
  assert (Hw0 : wsService.this w0 = wsService.this w
                /\ wsService.sockets w0 = wsService.sockets w).
  { unfold w0, ensure_peer. by destruct (peersRef (comp w) !! P). }
  rewrite Hpc.
  rewrite bool_decide_eq_false_2 by (rewrite Hst; intros H; by apply H).
  unfold try_catch, handleOffer_try, JS.bind, peer_do, peer_ask.
  change (peersRef (comp (log_rtc P (SetRemoteCall sdp_offer) w0)))
    with (peersRef (comp w0)).
  rewrite Hpc. unfold setRemoteDescription. rewrite Hst, Hr.
  set (pc1 := mkPeer have_remote_offer (connectionState pc)
                (localDescription pc) (Some offer) (senders pc)
                (candidates pc)).
  set (wa := upd (fun c => set_peersRef (<[P:=pc1]> (peersRef c)) c)
               (log_rtc P (SetRemoteCall sdp_offer) w0)).
  assert (Hpa : peersRef (comp (log_rtc P CreateAnswerCall wa)) !! P
                = Some pc1).
  { change (<[P:=pc1]> (peersRef (comp w0)) !! P = Some pc1).
    apply lookup_insert_eq. }
  rewrite Hpa. unfold createAnswer. cbn [signalingState pc1]. rewrite Ha.
  change (peersRef
            (comp (log_rtc P (SetLocalCall sdp_answer)
                     (log_rtc P CreateAnswerCall wa))))
    with (peersRef (comp (log_rtc P CreateAnswerCall wa))).
  rewrite Hpa. unfold setLocalDescription. cbn [signalingState pc1].
  rewrite Hl.
  set (wb := upd _ (log_rtc P (SetLocalCall sdp_answer)
                      (log_rtc P CreateAnswerCall wa))).
  destruct (send_frame
              (JObj [("type", JStr "webrtc_answer"); ("answer", answer);
                     ("target_user_id", JStr P);
                     ("group_id", json_of (groupId (comp wb)))]) wb)
    as (sent & w' & Hrun & _).
  exists wb, sent, w'. rewrite Hrun. split; [reflexivity|].
  split.
  { unfold wb, wa, upd, log_rtc, comp. cbn. fold (comp w0).
    rewrite Hrtc0, insert_insert_eq, <- !app_assoc. reflexivity. }
  split; [exact (proj1 Hw0)|]. split; [exact (proj2 Hw0)|].
  rewrite <- Hgid. exact Hrun.
Qed.

(** X10. An offer from a participant without an entry, with a local
    stream and a browser that goes along: the entry is created with the
    local tracks and ends stable, holding the offer as remote and the
    answer as local description; no other entry changes. The answer frame
    leaves on an open transport channel; on any other it is not sent, and
    the entry is stable all the same. *)
Theorem offer_answered (offer answer : JSON) (P : string) (v : Verdicts)
    (w : W) :
  localStreamRef (comp w) <> None ->
  peersRef (comp w) !! P = None ->
  accept_remote v = true -> built_answer v = Some answer ->
  accept_local v = true ->
  exists w',
    handleWebRTCMessage (webrtc_offer offer P) v w = (w', Return tt)
    /\ peersRef (comp w') !! P
       = Some (mkPeer stable new (Some answer) (Some offer)
                 (default [] (localStreamRef (comp w))) [])
    /\ (forall q, q <> P ->
          peersRef (comp w') !! q = peersRef (comp w) !! q)
    /\ (wsService.readyState w = Some OPEN ->
        sock_sent <$> wsService.current_socket w'
        = (fun l =>
             l ++ [stringify
                     (JObj [("type", JStr "webrtc_answer");
                            ("answer", answer);
                            ("target_user_id", JStr P);
                            ("group_id", json_of (groupId (comp w)))])])
            <$> (sock_sent <$> wsService.current_socket w))
    /\ (wsService.readyState w <> Some OPEN ->
        wsService.sockets w' = wsService.sockets w).
Proof.
  intros Hstream Hnone Hr Ha Hl.
  assert (Hpc : peersRef (comp (ensure_peer P w)) !! P
                = Some (new_peer (default [] (localStreamRef (comp w))))).
  { unfold ensure_peer. rewrite Hnone.
    change (<[P := new_peer (default [] (localStreamRef (comp w)))]>
              (peersRef (comp w)) !! P
            = Some (new_peer (default [] (localStreamRef (comp w))))).
    apply lookup_insert_eq. }
  destruct (offer_accepted offer answer P v w _ Hstream Hpc eq_refl Hr Ha Hl)
    as (w1 & sent & w' & Hrun & Hcomp & Hthis & Hsock & Hsend).
  exists w'. split.
  { unfold handleWebRTCMessage, detached. by rewrite Hrun. }
  assert (Hready : wsService.readyState w1 = wsService.readyState w).
  { unfold wsService.readyState, wsService.current_socket.
    by rewrite Hthis, Hsock. }
  assert (Hcur : wsService.current_socket w1 = wsService.current_socket w).
  { unfold wsService.current_socket. by rewrite Hthis, Hsock. }
  assert (Happ : comp w' = comp w1).
  { destruct (send_app
                (JObj [("type", JStr "webrtc_answer"); ("answer", answer);
                       ("target_user_id", JStr P);
                       ("group_id", json_of (groupId (comp w)))]) w1)
      as (sent' & w'' & Hrun' & Happ).
    rewrite Hsend in Hrun'. injection Hrun' as -> _. exact Happ. }
  split.
  { rewrite Happ, Hcomp.
    change (<[P := mkPeer stable new (Some answer) (Some offer)
                     (default [] (localStreamRef (comp w))) []]>
              (peersRef (comp (ensure_peer P w))) !! P = Some
              (mkPeer stable new (Some answer) (Some offer)
                 (default [] (localStreamRef (comp w))) [])).
    apply lookup_insert_eq. }
  split.
  { intros q Hq. rewrite Happ, Hcomp.
    change (<[P := mkPeer stable new (Some answer) (Some offer)
                     (default [] (localStreamRef (comp w))) []]>
              (peersRef (comp (ensure_peer P w))) !! q
            = peersRef (comp w) !! q).
    rewrite lookup_insert_ne by done. by apply ensure_peer_others. }
  split.
  - intros Hopen. rewrite <- Hready in Hopen.
    destruct (send_when_open
                (JObj [("type", JStr "webrtc_answer"); ("answer", answer);
                       ("target_user_id", JStr P);
                       ("group_id", json_of (groupId (comp w)))]) w1 Hopen)
      as (w'' & Hrun' & _ & _ & Hsent).
    rewrite Hsend in Hrun'. injection Hrun' as -> _.
    by rewrite Hsent, Hcur.
  - intros Hnot. rewrite <- Hready in Hnot.
    rewrite (send_when_not_open _ _ Hnot) in Hsend.
    injection Hsend as <- _. exact Hsock.
Qed.

(** [handleAnswer] when the browser accepts the answer. *)
Lemma answer_accepted (answer : JSON) (P : string) (v : Verdicts) (w : W)
    (pc : PeerConnection) :
  peersRef (comp w) !! P = Some pc ->
  signalingState pc = have_local_offer ->
  accept_remote v = true ->
  exists w',
    handleAnswer answer P v w = (w', Return tt)
    /\ peersRef (comp w')
       = <[P := mkPeer stable (connectionState pc) (localDescription pc)
                  (Some answer) (senders pc) (candidates pc)]>
           (peersRef (comp w))
    /\ wsService.sockets w' = wsService.sockets w
    /\ offers_created w' = offers_created w.
Proof.
  intros Hpc Hst Hr. unfold handleAnswer. rewrite Hpc.
  rewrite bool_decide_eq_false_2 by (rewrite Hst; intros H; by apply H).
  unfold try_catch, handleAnswer_try, peer_do.
  change (peersRef (comp (log_rtc P (SetRemoteCall sdp_answer) w)))
    with (peersRef (comp w)).
  rewrite Hpc. unfold setRemoteDescription. rewrite Hst, Hr.
  eexists. split; [reflexivity|]. split; [reflexivity|].
  split; [reflexivity|]. unfold offers_created.
  change (fst <$> filter (fun c => snd c = CreateOfferCall)
                    (rtcCalls (comp w) ++ [(P, SetRemoteCall sdp_answer)])
          = fst <$> filter (fun c => snd c = CreateOfferCall)
                      (rtcCalls (comp w))).
  rewrite filter_app. cbn. by rewrite app_nil_r.
Qed.

(** X11. Offer and answer make a round trip: after [createOfferForUser]
    for a participant without an entry, with a browser that builds and
    accepts the offer, a second [createOfferForUser] for the same
    participant does nothing, and the answer of that participant, once
    accepted, leaves the entry stable with the offer as local and the
    answer as remote description. *)
Theorem offer_then_answer (offer answer : JSON) (P : string)
    (v v2 va : Verdicts) (w : W) :
  localStreamRef (comp w) <> None ->
  peersRef (comp w) !! P = None ->
  built_offer v = Some offer -> accept_local v = true ->
  accept_remote va = true ->
  exists w1 w2,
    createOfferForUser P v w = (w1, Return tt)
    /\ createOfferForUser P v2 w1 = (w1, Return tt)
    /\ handleWebRTCMessage (webrtc_answer answer P) va w1 = (w2, Return tt)
    /\ peersRef (comp w2) !! P
       = Some (mkPeer stable new (Some offer) (Some answer)
                 (default [] (localStreamRef (comp w))) [])
    /\ (forall q, q <> P ->
          peersRef (comp w2) !! q = peersRef (comp w) !! q)
    /\ offers_created w2 = offers_created w ++ [P].
Proof.
  intros Hstream Hnone Ho Hl Hr.
  destruct (offer_for_new_peer P v w Hstream Hnone)
    as (w1 & Hrun & Hoffers & Hsame & _ & Hothers & Hentry).
  specialize (Hentry offer Ho Hl).
  destruct (answer_accepted answer P va w1 _ Hentry eq_refl Hr)
    as (w2 & Hrun2 & Hpeers & _ & Hkept).
  exists w1, w2. split; [exact Hrun|]. split.
  { unfold createOfferForUser. rewrite Hsame.
    destruct (localStreamRef (comp w)); [|done].
    unfold offer_skipped. rewrite Hentry. reflexivity. }
  split.
  { unfold handleWebRTCMessage, detached. by rewrite Hrun2. }
  split.
  { rewrite Hpeers. apply lookup_insert_eq. }
  split.
  { intros q Hq. rewrite Hpeers, lookup_insert_ne by done. by apply Hothers. }
  by rewrite Hkept.
Qed.






Lemma stream_id_inj (a b : string) :
  "stream-" +:+ a = "stream-" +:+ b -> a = b.
Proof. intros H. cbn in H. by simplify_eq. Qed.

(** Two filters that agree on the elements of the list. *)
Lemma filter_ext_in {X : Type} (P Q : X -> Prop)
    `{!forall x, Decision (P x)} `{!forall x, Decision (Q x)} (l : list X) :
  (forall x, x ∈ l -> P x <-> Q x) -> filter P l = filter Q l.
Proof.
  induction l as [|a l IH]; intros Hall; [reflexivity|].
  assert (Hl : filter P l = filter Q l).
  { apply IH. intros x Hx. apply Hall. by right. }
  destruct (decide (P a)) as [Hp|Hp].
  - rewrite filter_cons_True by done.
    rewrite (filter_cons_True Q) by (apply Hall; [left|done]).
    by rewrite Hl.
  - rewrite filter_cons_False by done.
    rewrite (filter_cons_False Q); [done|].
    intros Hq. apply Hp, Hall; [left|done].
Qed.

Lemma filter_none {X : Type} (P : X -> Prop)
    `{!forall x, Decision (P x)} (l : list X) :
  (forall x, x ∈ l -> ~ P x) -> filter P l = [].
Proof.
  induction l as [|a l IH]; intros Hall; [reflexivity|].
  rewrite filter_cons_False by (apply Hall; left).
  apply IH. intros x Hx. apply Hall. by right.
Qed.

Lemma filter_all {X : Type} (P : X -> Prop)
    `{!forall x, Decision (P x)} (l : list X) :
  (forall x, x ∈ l -> P x) -> filter P l = l.
Proof.
  induction l as [|a l IH]; intros Hall; [reflexivity|].
  rewrite filter_cons_True by (apply Hall; left).
  f_equal. apply IH. intros x Hx. apply Hall. by right.
Qed.

(** The [remoteStreams] cell after [ontrack]. *)
Lemma ontrack_streams (uid : string) (ms : MediaStream) (w : W) :
  let fresh_stream := mkRemoteStream ms uid ("stream-" +:+ uid) in
  let same (s : RemoteStream) := String.eqb (id s) ("stream-" +:+ uid) in
  remoteStreams (comp (ontrack uid ms w))
  = (if existsb same (remoteStreams (comp w))
     then map (fun s => if same s then fresh_stream else s)
              (remoteStreams (comp w))
     else remoteStreams (comp w) ++ [fresh_stream])
  /\ localStream (comp (ontrack uid ms w)) = localStream (comp w)
  /\ localStreamRef (comp (ontrack uid ms w)) = localStreamRef (comp w)
  /\ peersRef (comp (ontrack uid ms w)) = peersRef (comp w).
Proof.
  unfold ontrack, fetchParticipantName.
  match goal with
  | |- context [if ?b then _ else _] => destruct b
  end; repeat split; reflexivity.
Qed.

(** On a list of streams whose ids are built from their users, the
    replacement of [ontrack] keeps the others and leaves one stream for
    the user. *)
Lemma replace_stream (uid : string) (ms : MediaStream)
    (l : list RemoteStream) :
  let fresh_stream := mkRemoteStream ms uid ("stream-" +:+ uid) in
  let same (s : RemoteStream) := String.eqb (id s) ("stream-" +:+ uid) in
  let l' := if existsb same l
            then map (fun s => if same s then fresh_stream else s) l
            else l ++ [fresh_stream] in
  NoDup (id <$> l) ->
  (forall s, s ∈ l -> id s = "stream-" +:+ userId s) ->
  filter (fun s => userId s = uid) l' = [fresh_stream]
  /\ filter (fun s => userId s <> uid) l'
     = filter (fun s => userId s <> uid) l
  /\ id <$> l' = (if existsb same l then id <$> l
                  else (id <$> l) ++ ["stream-" +:+ uid])
  /\ (forall s, s ∈ l' -> id s = "stream-" +:+ userId s).
Proof.
  intros fresh_stream same l' Hnd Hshape.
  assert (Hsame : forall s, s ∈ l -> same s = true <-> userId s = uid).
  { intros s Hs. unfold same. rewrite String.eqb_eq, (Hshape s Hs).
    split; [apply stream_id_inj|by intros ->]. }
  assert (Hmap : forall k : list RemoteStream,
            (forall s, s ∈ k -> userId s <> uid) ->
            (forall s, s ∈ k -> same s = true <-> userId s = uid) ->
            map (fun s => if same s then fresh_stream else s) k = k
            /\ existsb same k = false).
  { induction k as [|a k IH]; intros Hno Hk; [done|].
    destruct (IH (fun s Hs => Hno s (list_elem_of_further _ _ _ Hs))
                 (fun s Hs => Hk s (list_elem_of_further _ _ _ Hs)))
      as [IH1 IH2].
    assert (Ha : same a = false).
    { destruct (same a) eqn:E; [|done].
      apply Hk in E; [|left]. by destruct (Hno a (list_elem_of_here _ _)). }
    cbn. by rewrite Ha, IH1, IH2. }
  subst l'.
  destruct (existsb same l) eqn:Hex.
  - clear Hmap. revert Hnd Hshape Hsame Hex.
    induction l as [|a l IH]; intros Hnd Hshape Hsame Hex; [done|].
    rewrite fmap_cons in Hnd. apply NoDup_cons in Hnd as [Hnotin Hnd].
    assert (Hshape' : forall s, s ∈ l -> id s = "stream-" +:+ userId s).
    { intros s Hs. apply Hshape. by right. }
    assert (Hsame' : forall s, s ∈ l -> same s = true <-> userId s = uid).
    { intros s Hs. apply Hsame. by right. }
    destruct (same a) eqn:Ha.
    + assert (Hua : userId a = uid) by (apply Hsame; [left|done]).
      assert (Hnone : forall s, s ∈ l -> userId s <> uid).
      { intros s Hs Hu. apply Hnotin. apply list_elem_of_fmap.
        exists s. split; [|done].
        rewrite (Hshape a (list_elem_of_here _ _)), (Hshape' s Hs).
        by rewrite Hua, Hu. }
      assert (Hrest : map (fun s => if same s then fresh_stream else s) l
                      = l).
      { clear IH Hex Hnd Hnotin Hshape Hsame.
        induction l as [|b l IH]; [done|].
        assert (Hb : same b = false).
        { destruct (same b) eqn:E; [|done].
          apply Hsame' in E; [|left].
          by destruct (Hnone b (list_elem_of_here _ _)). }
        cbn. rewrite Hb. f_equal. apply IH.
        - intros s Hs. apply Hshape'. by right.
        - intros s Hs. apply Hsame'. by right.
        - intros s Hs. apply Hnone. by right. }
      cbn [map]. rewrite Ha, Hrest.
      rewrite filter_cons_True by done.
      rewrite (filter_none _ l) by (intros s Hs; by apply Hnone).
      split; [done|].
      rewrite filter_cons_False by (intros H; by apply H).
      rewrite (filter_cons_False _ a) by (intros H; by apply H).
      split; [done|]. split.
      { rewrite !fmap_cons. f_equal. cbn.
        by rewrite (Hshape a (list_elem_of_here _ _)), Hua. }
      intros s Hs. apply elem_of_cons in Hs as [->|Hs]; [done|].
      by apply Hshape'.
    + assert (Hua : userId a <> uid).
      { intros Hu. apply Hsame in Hu; [|left]. by rewrite Ha in Hu. }
      cbn in Hex. rewrite Ha in Hex. cbn in Hex.
      destruct (IH Hnd Hshape' Hsame' Hex) as (IH1 & IH2 & IH3 & IH4).
      cbn [map]. rewrite Ha.
      rewrite filter_cons_False by (intros H; by apply Hua).
      split; [exact IH1|].
      rewrite filter_cons_True by done.
      rewrite (filter_cons_True _ a) by done.
      split; [by rewrite IH2|]. split.
      { rewrite !fmap_cons. by rewrite IH3. }
      intros s Hs. apply elem_of_cons in Hs as [->|Hs].
      * apply Hshape. left.
      * by apply IH4.
  - assert (Hnone : forall s, s ∈ l -> userId s <> uid).
    { intros s Hs Hu. apply Hsame in Hu; [|done].
      assert (existsb same l = true); [|congruence].
      apply existsb_exists. exists s. split; [|done].
      by apply list_elem_of_In. }
    rewrite !filter_app.
    rewrite (filter_none _ l) by (intros s Hs; by apply Hnone).
    split; [by rewrite filter_cons_True|].
    split.
    { rewrite (filter_cons_False _ fresh_stream)
        by (intros H; by apply H).
      by rewrite filter_nil, app_nil_r. }
    split; [by rewrite fmap_app|].
    intros s Hs. apply elem_of_app in Hs as [Hs|Hs]; [by apply Hshape|].
    apply list_elem_of_singleton in Hs as ->. done.
Qed.

(** [ontrack] keeps the component tidy. *)
Lemma ontrack_tidy (uid : string) (ms : MediaStream) (w : W) :
  tidy w -> tidy (ontrack uid ms w).
Proof.
  intros (Hlocal & Hnd & Hshape).
  destruct (ontrack_streams uid ms w) as (Hs & Hl & Hr & _).
  destruct (replace_stream uid ms _ Hnd Hshape) as (_ & _ & Hids & Hsh).
  unfold tidy. rewrite Hs, Hl, Hr. split; [done|]. split; [|exact Hsh].
  rewrite Hids.
  destruct (existsb _ (remoteStreams (comp w))) eqn:Hex; [done|].
  apply NoDup_app. split; [done|]. split; [|apply NoDup_singleton].
  intros x Hx Hin. apply list_elem_of_singleton in Hin as ->.
  apply list_elem_of_fmap in Hx as (s & Hid & Hs').
  assert (existsb
            (fun s => String.eqb (id s) ("stream-" +:+ uid))
            (remoteStreams (comp w)) = true); [|congruence].
  apply existsb_exists. exists s. split; [by apply list_elem_of_In|].
  apply String.eqb_eq. done.
Qed.

(** The streams of the others after [ontrack]. *)
Lemma ontrack_others (uid : string) (ms : MediaStream)
    (w : W) :
  tidy w ->
  filter (fun s => userId s <> uid)
         (remoteStreams (comp (ontrack uid ms w)))
  = filter (fun s => userId s <> uid) (remoteStreams (comp w)).
Proof.
  intros (_ & Hnd & Hshape).
  destruct (ontrack_streams uid ms w) as (Hs & _).
  destruct (replace_stream uid ms _ Hnd Hshape) as (_ & H2 & _).
  by rewrite Hs.
Qed.


(** The cells after [onconnectionstatechange]. *)
Lemma connection_change_cells (uid : string) (state : ConnectionState)
    (w : W) :
  let w' := onconnectionstatechange uid state w in
  let marked :=
    alter (fun pc => mkPeer (signalingState pc) state (localDescription pc)
                       (remoteDescription pc) (senders pc) (candidates pc))
          uid (peersRef (comp w)) in
  localStream (comp w') = localStream (comp w)
  /\ localStreamRef (comp w') = localStreamRef (comp w)
  /\ (state = failed \/ state = disconnected ->
      peersRef (comp w') = delete uid marked
      /\ remoteStreams (comp w')
         = filter (fun s => id s <> "stream-" +:+ uid)
                  (remoteStreams (comp w)))
  /\ (state <> failed -> state <> disconnected ->
      peersRef (comp w') = marked
      /\ remoteStreams (comp w') = remoteStreams (comp w)).
Proof.
  unfold onconnectionstatechange.
  destruct (bool_decide (state = failed)
            || bool_decide (state = disconnected)) eqn:E.
  - apply orb_true_iff in E.
    rewrite !bool_decide_eq_true in E.
    split; [reflexivity|]. split; [reflexivity|]. split; [done|].
    intros H1 H2. by destruct E.
  - apply orb_false_iff in E as [E1 E2].
    apply bool_decide_eq_false in E1, E2.
    split; [reflexivity|]. split; [reflexivity|]. split; [|done].
    intros [H|H]; done.
Qed.

(** X16. When the connection to [uid] fails or is disconnected, the
    entry of [uid] and the remote stream of [uid] are dropped and nothing
    else; in every other connection state, closed included, no entry and
    no stream is dropped. A stream delivered and then lost this way leaves
    the list of a participant unknown before as it was. *)
Theorem failed_connection_dropped (uid : string) (state : ConnectionState)
    (w : W) :
  tidy w ->
  let w' := onconnectionstatechange uid state w in
  (forall q, q <> uid ->
     peersRef (comp w') !! q = peersRef (comp w) !! q)
  /\ (state = failed \/ state = disconnected ->
      peersRef (comp w') !! uid = None
      /\ remoteStreams (comp w')
         = filter (fun s => userId s <> uid) (remoteStreams (comp w)))
  /\ (state <> failed -> state <> disconnected ->
      remoteStreams (comp w') = remoteStreams (comp w)
      /\ dom (peersRef (comp w')) = dom (peersRef (comp w)))
  /\ (forall ms,
        (forall s, s ∈ remoteStreams (comp w) -> userId s <> uid) ->
        remoteStreams
          (comp (onconnectionstatechange uid failed (ontrack uid ms w)))
        = remoteStreams (comp w)).
Proof.
  intros Htidy w'.
  destruct (connection_change_cells uid state w) as (_ & _ & Hbad & Hok).
  fold w' in Hbad, Hok.
  assert (Hfilter : forall x : W, tidy x ->
            filter (fun s => id s <> "stream-" +:+ uid)
                   (remoteStreams (comp x))
            = filter (fun s => userId s <> uid) (remoteStreams (comp x))).
  { intros x (_ & _ & Hshape). apply filter_ext_in. intros s Hs.
    rewrite (Hshape s Hs). split.
    - intros H Hu. apply H. by rewrite Hu.
    - intros H Hid. by apply H, stream_id_inj. }
  split; [|split; [|split]].
  - intros q Hq.
    destruct (decide (state = failed \/ state = disconnected)) as [Hs|Hs].
    + destruct (Hbad Hs) as [-> _].
      rewrite lookup_delete_ne by done. by rewrite lookup_alter_ne.
    + destruct (Hok (fun H => Hs (or_introl H)) (fun H => Hs (or_intror H)))
        as [-> _].
      by rewrite lookup_alter_ne.
  - intros Hs. destruct (Hbad Hs) as [-> ->].
    split; [apply lookup_delete_eq|]. by apply Hfilter.
  - intros H1 H2. destruct (Hok H1 H2) as [-> ->]. split; [done|].
    apply set_eq. intros k. rewrite !elem_of_dom.
    apply lookup_alter_is_Some.
  - intros ms Hnone.
    destruct (connection_change_cells uid failed (ontrack uid ms w))
      as (_ & _ & Hbad' & _).
    destruct (Hbad' (or_introl eq_refl)) as [_ ->].
    rewrite (Hfilter _ (ontrack_tidy uid ms w Htidy)).
    rewrite (ontrack_others uid ms w Htidy).
    by apply filter_all.
Qed.



(** The track objects after the streams in [seen] are stopped. *)
Lemma stop_all_lookup (seen : list RemoteStream) (store : list Track)
    (h : nat) :
  foldl (fun st s => update_tracks (fun _ => true) stop (stream s) st)
        store seen !! h
  = if bool_decide (Exists (fun s => h ∈ stream s) seen)
    then stop <$> store !! h else store !! h.
Proof.
  revert store. induction seen as [|s rest IH]; intros store.
  - rewrite bool_decide_eq_false_2; [done|]. by intros H%Exists_nil.
  - cbn [foldl]. rewrite IH.
    rewrite update_tracks_lookup by apply stop_idempotent.
    destruct (decide (h ∈ stream s)) as [Hin|Hnin].
    + rewrite (bool_decide_eq_true_2 (Exists _ (s :: rest)))
        by (by apply Exists_cons_hd).
      case_bool_decide; [|done].
      by destruct (store !! h).
    + case_bool_decide as Hrest.
      * by rewrite bool_decide_eq_true_2 by (by apply Exists_cons_tl).
      * rewrite bool_decide_eq_false_2; [done|].
        intros [H|H]%Exists_cons; done.
Qed.

(** [cleanup] acts on the component only. *)
Lemma cleanup_shape (seen : list RemoteStream) (w : W) :
  cleanup seen w = wsService.set_app (comp (cleanup seen w)) w.
Proof.
  unfold cleanup, upd, comp. cbn [wsService.app wsService.set_app].
  cbn [localStreamRef set_peersRef].
  destruct (localStreamRef (wsService.app w)); reflexivity.
Qed.

(** On a component already torn down [cleanup] changes nothing. *)
Lemma torn_down (seen : list RemoteStream) (w : W) :
  peersRef (comp w) = ∅ -> localStreamRef (comp w) = None ->
  remoteStreams (comp w) = [] -> remoteAudioRefs (comp w) = [] ->
  foldl (fun st s => update_tracks (fun _ => true) stop (stream s) st)
        (tracks (comp w)) seen = tracks (comp w) ->
  comp (cleanup seen w) = comp w.
Proof.
  unfold cleanup, upd, comp. cbn [wsService.app wsService.set_app].
  cbn [localStreamRef set_peersRef].
  generalize (wsService.app w). intros c Hp Href Hrs Hra Htr.
  rewrite Href. destruct c. cbn in *. subst. by rewrite Htr.
Qed.

(** X18. Teardown may run twice: a second [cleanup], for streams the
    first one has seen (or for none, as on unmount after the End Call
    button), changes nothing. *)
Theorem cleanup_twice (seen seen' : list RemoteStream) (w : W) :
  seen' ⊆ seen ->
  cleanup seen' (cleanup seen w) = cleanup seen w.
Proof.
  intros Hsub.
  assert (Htracks : forall store : list Track,
            foldl (fun st s =>
                     update_tracks (fun _ => true) stop (stream s) st)
                  (foldl (fun st s =>
                            update_tracks (fun _ => true) stop (stream s) st)
                         store seen) seen'
            = foldl (fun st s =>
                       update_tracks (fun _ => true) stop (stream s) st)
                    store seen).
  { intros store. apply list_eq. intros h. rewrite !stop_all_lookup.
    case_bool_decide as H'; [|done].
    rewrite bool_decide_eq_true_2.
    - by destruct (store !! h).
    - apply Exists_exists in H' as (s & Hs & Hh).
      apply Exists_exists. exists s. split; [by apply Hsub|done]. }
  pose proof (cleanup_spec seen w) as
    (_ & _ & _ & Hp & Href & _ & Hrs & Hra & _ & _ & _ & _ & _ & Htr).
  pose proof (cleanup_shape seen w) as Hshape.
  remember (cleanup seen w) as w0 eqn:Hw0. clear Hw0.
  assert (Hc : comp (cleanup seen' w0) = comp w0).
  { apply torn_down; [exact Hp|exact Href|exact Hrs|exact Hra|].
    rewrite Htr. apply Htracks. }
  rewrite (cleanup_shape seen' w0). rewrite Hc.
  rewrite Hshape at 2 3. reflexivity.
Qed.

Lemma isConnected_open {A : Type} (w : wsService.World A) :
  wsService.isConnected w = true <-> wsService.readyState w = Some OPEN.
Proof.
  unfold wsService.isConnected, wsService.readyState.
  destruct (wsService.current_socket w) as [s|]; cbn; [|done].
  rewrite bool_decide_eq_true. split; [by intros ->|by intros [= ->]].
Qed.

(** X19. The call notification needs a channel that is already open.
    Mounted on an open channel the component sends [call_start] at once and
    sets the timer that announces it. Mounted on any other, nothing is
    sent; and when its own [connect] goes on with the token, the new
    socket is still connecting when [startCall] runs: the socket is
    created with nothing sent on it, the timer is set all the same. *)
Theorem call_start_needs_open_socket (fn : nat) (ct cn : JSON) (g : string)
    (w : W) :
  groupId (comp w) = Some g -> truthy (JStr g) = true ->
  let frame :=
    stringify (JObj [("type", JStr "call_start"); ("call_type", ct);
                     ("caller_name", cn)]) in
  let w' := mount fn ct cn w in
  (wsService.isConnected w = true ->
   sock_sent <$> wsService.current_socket w'
   = (fun l => l ++ [frame]) <$> (sock_sent <$> wsService.current_socket w)
   /\ pending (comp w') = pending (comp w) ++ [mkTimer 1000 AnnounceReady])
  /\ (wsService.isConnected w = false ->
      wsService.sockets w' = wsService.sockets w)
  /\ (wsService.isConnected w = false ->
      wsService.isConnecting (wsService.this w) = false ->
      forall token, exists w1,
        token_settled (length (wsService.awaiting w))
          (wsService.Resolved token) ct cn w' = Some w1
        /\ wsService.sockets w1
           = wsService.sockets w
             ++ [mkSocket (wsService.wsUrl (wsService.location w) g token)
                   g CONNECTING []]
        /\ wsService.ws (wsService.this w1)
           = Some (length (wsService.sockets w))
        /\ pending (comp w1)
           = pending (comp w) ++ [mkTimer 1000 AnnounceReady]).
Proof.
  intros Hg Htruthy frame w'.
  set (w0 := wsService.setGetToken fn w).
  assert (Hmount : w' = if wsService.isConnecting (wsService.this w)
                           || wsService.isConnected w
                        then fst (initializeCall_resume ct cn
                                    (wsService.connect g w0))
                        else wsService.connect g w0).
  { unfold w', mount. fold w0.
    change (groupId (comp w0)) with (groupId (comp w)).
    rewrite Hg, Htruthy. reflexivity. }
  assert (Hguard : wsService.isConnecting (wsService.this w)
                   || wsService.isConnected w = true ->
                   wsService.connect g w0 = w0).
  { intros H. unfold wsService.connect.
    change (wsService.isConnecting (wsService.this w0))
      with (wsService.isConnecting (wsService.this w)).
    change (wsService.isConnected w0) with (wsService.isConnected w).
    by rewrite H. }
  split; [|split].
  - intros Hopen. rewrite Hmount, Hopen, orb_true_r.
    rewrite Hguard by (by rewrite Hopen, orb_true_r).
    assert (Hready : wsService.readyState w0 = Some OPEN).
    { change (wsService.readyState w0) with (wsService.readyState w).
      by apply isConnected_open. }
    destruct (send_when_open
                (JObj [("type", JStr "call_start"); ("call_type", ct);
                       ("caller_name", cn)]) w0 Hready)
      as (w1 & Hrun & Happ & Hthis & Hsent).
    unfold initializeCall_resume, wsService.startCall, JS.bind.
    rewrite Hrun. cbn [fst exec].
    split.
    + change (wsService.current_socket (setTimeout AnnounceReady 1000 w1))
        with (wsService.current_socket w1).
      exact Hsent.
    + change (pending (comp (setTimeout AnnounceReady 1000 w1)))
        with (pending (wsService.app w1) ++ [mkTimer 1000 AnnounceReady]).
      by rewrite Happ.
  - intros Hclosed. rewrite Hmount, Hclosed, orb_false_r.
    destruct (wsService.isConnecting (wsService.this w)) eqn:Hc.
    + rewrite Hguard by (rewrite ?Hc; done).
      unfold initializeCall_resume, wsService.startCall, JS.bind.
      rewrite send_when_not_open; [reflexivity|].
      change (wsService.readyState w0) with (wsService.readyState w).
      intros H%isConnected_open. congruence.
    + unfold wsService.connect.
      change (wsService.isConnecting (wsService.this w0)) with
        (wsService.isConnecting (wsService.this w)).
      change (wsService.isConnected w0) with (wsService.isConnected w).
      rewrite Hc, Hclosed. reflexivity.
  - intros Hclosed Hc token. rewrite Hmount, Hclosed, Hc.
    cbn [orb].
    assert (Hconn : wsService.connect g w0
                    = wsService.set_awaiting (wsService.awaiting w ++ [g])
                        (wsService.set_isConnecting true w0)).
    { unfold wsService.connect.
      change (wsService.isConnecting (wsService.this w0)) with
        (wsService.isConnecting (wsService.this w)).
      change (wsService.isConnected w0) with (wsService.isConnected w).
      rewrite Hc, Hclosed. reflexivity. }
    rewrite Hconn. unfold token_settled.
    change (wsService.awaiting
              (wsService.set_awaiting (wsService.awaiting w ++ [g])
                 (wsService.set_isConnecting true w0)))
      with (wsService.awaiting w ++ [g]).
    rewrite list_lookup_middle by done.
    set (wr := wsService.connect_resume g (wsService.Resolved token) _).
    assert (Hsock : wsService.sockets wr
                    = wsService.sockets w
                      ++ [mkSocket
                            (wsService.wsUrl (wsService.location w) g token)
                            g CONNECTING []])
      by reflexivity.
    assert (Hws : wsService.ws (wsService.this wr)
                  = Some (length (wsService.sockets w))) by reflexivity.
    assert (Hnot : wsService.readyState wr <> Some OPEN).
    { unfold wsService.readyState, wsService.current_socket.
      rewrite Hws, Hsock. cbn [mbind option_bind].
      rewrite list_lookup_middle by done. done. }
    unfold initializeCall_resume, wsService.startCall, JS.bind.
    rewrite (send_when_not_open _ _ Hnot). cbn [fst exec].
    eexists. split; [reflexivity|]. split; [exact Hsock|].
    split; [exact Hws|reflexivity].
Qed.

(** [requestMediaAccess] when [getUserMedia] hands out a stream. *)
Lemma media_granted (ts : list Track) (name : string) (s : W * Notice) :
  let s' := requestMediaAccess (GotStream ts) name s in
  let stream := seq (length (tracks (comp (fst s)))) (length ts) in
  permissionStatus (comp (fst s')) = granted
  /\ localStream (comp (fst s')) = Some stream
  /\ localStreamRef (comp (fst s')) = Some stream
  /\ isConnected (comp (fst s')) = true
  /\ tracks (comp (fst s')) = tracks (comp (fst s)) ++ ts
  /\ remoteStreams (comp (fst s')) = remoteStreams (comp (fst s))
  /\ snd s' = mkNotice EmptyString None.
Proof.
  unfold requestMediaAccess. cbv zeta. cbn [fst snd].
  set (w1 := upd _ (upd (set_permissionStatus requesting) (fst s))).
  change (groupId (comp w1)) with (groupId (comp (fst s))).
  change (user_id (comp w1)) with (user_id (comp (fst s))).
  destruct (groupId (comp (fst s))) as [g|]; [|by repeat split].
  destruct (user_id (comp (fst s))) as [u|]; [|by repeat split].
  destruct (truthy (JStr g) && truthy (JStr u)); [|by repeat split].
  match goal with
  | |- context [wsService.send ?d w1] =>
      destruct (send_app d w1) as (sent & w2 & Hrun & Happ)
  end.
  rewrite Hrun. cbn [fst].
  match goal with
  | |- context [upd ?F w2] =>
      assert (Hcomp : comp (upd F w2) = F (comp w1))
        by (unfold upd, comp; cbn [wsService.app wsService.set_app];
            by rewrite Happ)
  end.
  rewrite !Hcomp. by repeat split.
Qed.

(** The text of a refusal is never empty. *)
Lemma classify_text (name : string) (message : option string) :
  snd (classify name message) <> EmptyString.
Proof.
  unfold classify.
  repeat match goal with
         | |- context [if ?b then _ else _] => destruct b
         end; done.
Qed.

(** X20. The permission state never stays at requesting once the media
    request has settled. It is granted only when [getUserMedia] exists and
    hands out a stream: state cell and ref then hold the same stream, whose
    handles are those of the new tracks, and no error is shown. Otherwise
    stream, tracks and participants are as before, nothing is announced on
    the channel and an error text is shown. *)
Theorem media_access_settles (has_getUserMedia : bool)
    (query : PermissionQuery) (result : MediaResult) (name : string)
    (s : W * Notice) :
  let s' := checkPermissionsAndInitialize has_getUserMedia query result
              name s in
  permissionStatus (comp (fst s')) <> requesting
  /\ (permissionStatus (comp (fst s')) = granted ->
      has_getUserMedia = true
      /\ exists ts,
           result = GotStream ts
           /\ localStream (comp (fst s')) = localStreamRef (comp (fst s'))
           /\ localStreamRef (comp (fst s'))
              = Some (seq (length (tracks (comp (fst s)))) (length ts))
           /\ (forall i t, ts !! i = Some t ->
                 tracks (comp (fst s'))
                   !! (length (tracks (comp (fst s))) + i) = Some t)
           /\ isConnected (comp (fst s')) = true
           /\ snd s' = mkNotice EmptyString None)
  /\ (permissionStatus (comp (fst s')) <> granted ->
      localStream (comp (fst s')) = localStream (comp (fst s))
      /\ localStreamRef (comp (fst s')) = localStreamRef (comp (fst s))
      /\ tracks (comp (fst s')) = tracks (comp (fst s))
      /\ participants (comp (fst s')) = participants (comp (fst s))
      /\ wsService.sockets (fst s') = wsService.sockets (fst s)
      /\ error_text (snd s') <> EmptyString).
Proof.
  unfold checkPermissionsAndInitialize.
  destruct has_getUserMedia; cbn [negb].
  2:{ cbn [fst snd]. split; [done|]. split; [done|]. by repeat split. }
  match goal with
  | |- context [if ?b then _ else _] => destruct b
  end.
  { cbn [fst snd]. split; [done|]. split; [done|]. by repeat split. }
  destruct result as [ts|ename message].
  - destruct (media_granted ts name s)
      as (Hp & Hl & Hr & Hc & Ht & _ & Hn).
    cbv zeta. rewrite Hp. split; [done|]. split; [|done].
    intros _. split; [done|]. exists ts. split; [done|].
    rewrite Hl, Hr, Ht. split; [done|]. split; [done|]. split; [|done].
    intros i t Hi. rewrite lookup_app_r by lia.
    by replace (length (tracks (comp (fst s))) + i
                - length (tracks (comp (fst s)))) with i by lia.
  - unfold requestMediaAccess. cbn [fst snd]. split; [done|].
    split; [done|]. intros _. repeat split. apply classify_text.
Qed.

End CallMore.

(** * The call session as a whole *)

Section SessionFacts.
Import VoiceCall VoiceCallSession.

Lemma tidy_media (w w' : W) : media w' = media w -> tidy w -> tidy w'.
Proof.
  unfold media, tidy. intros [= Hl Hr Hs]. by rewrite Hl, Hr, Hs.
Qed.

Lemma km_ret {T : Type} (x : T) : keeps_media (ret x).
Proof. by intros w. Qed.

Lemma km_bind {T U : Type} (m : js W T) (k : T -> js W U) :
  keeps_media m -> (forall x, keeps_media (k x)) ->
  keeps_media (JS.bind m k).
Proof.
  intros Hm Hk w. unfold JS.bind. specialize (Hm w).
  destruct (m w) as [w1 [x|]]; [|exact Hm].
  rewrite (Hk x w1). exact Hm.
Qed.

Lemma km_try_catch {T : Type} (body handler : js W T) :
  keeps_media body -> keeps_media handler ->
  keeps_media (try_catch body handler).
Proof.
  intros Hb Hh w. unfold try_catch. specialize (Hb w).
  destruct (body w) as [w1 [x|]]; [exact Hb|].
  rewrite (Hh w1). exact Hb.
Qed.

Lemma km_exec (f : W -> W) :
  (forall w, media (f w) = media w) -> keeps_media (exec f).
Proof. intros Hf w. apply Hf. Qed.

Lemma km_peer_ask {T : Type} (P : string) (op : RtcCall)
    (f : PeerConnection -> Completion T) :
  keeps_media (peer_ask P op f).
Proof.
  intros w. unfold peer_ask. cbv zeta.
  by destruct (peersRef (comp (log_rtc P op w)) !! P).
Qed.

Lemma km_peer_do (P : string) (op : RtcCall)
    (f : PeerConnection -> Completion PeerConnection) :
  keeps_media (peer_do P op f).
Proof.
  intros w. unfold peer_do. cbv zeta.
  destruct (peersRef (comp (log_rtc P op w)) !! P) as [pc|]; [|done].
  by destruct (f pc).
Qed.

Lemma km_send {T : Type} (frame : W -> JSON) :
  keeps_media (fun w => wsService.send (frame w) w).
Proof.
  intros w. destruct (send_app (frame w) w) as (sent & w1 & Hrun & Happ).
  rewrite Hrun. unfold media, comp. cbn [fst]. by rewrite Happ.
Qed.

Lemma km_forEach {X : Type} (f : X -> js W unit) (items : list X) :
  (forall x, keeps_media (f x)) -> keeps_media (forEach f items).
Proof.
  intros Hf. induction items as [|x rest IH]; [apply km_ret|].
  cbn [forEach]. apply km_bind; [apply Hf|]. intros _. exact IH.
Qed.

Lemma km_ensure_peer (P : string) (w : W) :
  media (ensure_peer P w) = media w.
Proof. unfold ensure_peer. by destruct (peersRef (comp w) !! P). Qed.

Lemma km_fetchParticipantName (P : string) (w : W) :
  media (fetchParticipantName P w) = media w.
Proof.
  unfold fetchParticipantName.
  match goal with |- context [if ?b then _ else _] => by destruct b end.
Qed.

Lemma km_createOfferForUser (P : string) (v : Verdicts) :
  keeps_media (createOfferForUser P v).
Proof.
  intros w. unfold createOfferForUser.
  destruct (localStreamRef (comp w)); [|done].
  destruct (offer_skipped P w); [done|].
  rewrite <- (km_ensure_peer P w).
  apply (km_try_catch (createOfferForUser_try P v) (forget P)).
  - unfold createOfferForUser_try.
    apply km_bind; [apply km_peer_ask|]. intros offer.
    apply km_bind; [apply km_peer_do|]. intros _.
    apply km_bind; [apply (km_send (T := unit))|]. intros _. apply km_ret.
  - by intros x.
Qed.

Lemma km_handleOffer (offer : JSON) (P : string) (v : Verdicts) :
  keeps_media (handleOffer offer P v).
Proof.
  intros w. unfold handleOffer.
  destruct (localStreamRef (comp w)); [|done]. cbv zeta.
  destruct (peersRef (comp (ensure_peer P w)) !! P) as [pc|];
    [|apply km_ensure_peer].
  destruct (bool_decide (signalingState pc ≠ stable));
    [apply km_ensure_peer|].
  rewrite <- (km_ensure_peer P w).
  apply (km_try_catch (handleOffer_try offer P v) (forget P)).
  - unfold handleOffer_try.
    apply km_bind; [apply km_peer_do|]. intros _.
    apply km_bind; [apply km_peer_ask|]. intros answer.
    apply km_bind; [apply km_peer_do|]. intros _.
    apply km_bind; [apply (km_send (T := unit))|]. intros _. apply km_ret.
  - by intros x.
Qed.

Lemma km_handleAnswer (answer : JSON) (P : string) (v : Verdicts) :
  keeps_media (handleAnswer answer P v).
Proof.
  intros w. unfold handleAnswer.
  destruct (peersRef (comp w) !! P) as [pc|]; [|done].
  destruct (bool_decide (signalingState pc ≠ have_local_offer)); [done|].
  apply (km_try_catch (handleAnswer_try answer P v) (forget P)).
  - apply km_peer_do.
  - by intros x.
Qed.

Lemma km_handleIceCandidate (candidate : JSON) (P : string) (v : Verdicts) :
  keeps_media (handleIceCandidate candidate P v).
Proof.
  intros w. unfold handleIceCandidate.
  destruct (peersRef (comp w) !! P) as [pc|]; [|done].
  apply (km_try_catch
           (peer_do P AddIceCall
              (addIceCandidate candidate (accept_candidate v))) (ret tt)).
  - apply km_peer_do.
  - apply km_ret.
Qed.

Lemma km_handleWebRTCMessage (data : Inbound) (v : Verdicts) :
  keeps_media (handleWebRTCMessage data v).
Proof.
  intros w. unfold handleWebRTCMessage. cbv zeta.
  destruct data as [sdp P|sdp P|cand P|uid|uid|listed|uid m|].
  - apply km_handleOffer.
  - apply km_handleAnswer.
  - apply km_handleIceCandidate.
  - destruct (bool_decide (Some uid ≠ user_id (comp w))); [|done].
    by destruct (localStreamRef (comp w)).
  - destruct (bool_decide (Some uid ≠ user_id (comp w))); [|done].
    by destruct (localStreamRef (comp w)).
  - destruct listed as [[|first others]|]; [done| |done].
    destruct (localStreamRef (comp w)); [|done].
    apply (km_forEach (fun p => offer_to_listed (snd p) (fst p))).
    intros [k p] x. unfold offer_to_listed. cbn [fst snd].
    match goal with
    | |- context [if ?b then _ else _] => destruct b
    end; [|done].
    cbn [fst]. by rewrite km_fetchParticipantName.
  - by destruct (bool_decide (Some uid ≠ user_id (comp w))).
  - done.
Qed.

Lemma km_fire (k : nat) (v : Verdicts) (w w' : W) :
  fire k v w = Some w' -> media w' = media w.
Proof.
  unfold fire. destruct (pending (comp w) !! k) as [t|]; [|done].
  cbv zeta.
  set (w1 := upd (fun c => set_pending (delete k (pending c)) c) w).
  destruct (timer_action t) as [g|uid|]; [done| |].
  - intros [= <-]. by rewrite (km_createOfferForUser uid v w1).
  - change (localStreamRef (comp w1)) with (localStreamRef (comp w)).
    destruct (localStreamRef (comp w)); [|by intros [= <-]].
    intros [= <-].
    match goal with
    | |- context [wsService.send ?d w1] =>
        apply (km_send (T := unit) (fun _ => d) w1)
    end.
Qed.

Lemma km_toggleMute : keeps_media toggleMute.
Proof.
  intros w. destruct (toggleMute_comp w) as (w' & Hrun & Hc).
  rewrite Hrun. unfold media. cbn [fst]. rewrite Hc.
  destruct (localStream (comp w)) eqn:E; [|by rewrite E].
  cbn [localStream localStreamRef remoteStreams set_isMuted set_tracks].
  by rewrite E.
Qed.

Lemma connection_change_tidy (uid : string) (state : ConnectionState)
    (w : W) :
  tidy w -> tidy (onconnectionstatechange uid state w).
Proof.
  intros (Hlocal & Hnd & Hshape).
  destruct (connection_change_cells uid state w) as (Hl & Hr & Hbad & Hok).
  unfold tidy. rewrite Hl, Hr. split; [done|].
  destruct (decide (state = failed \/ state = disconnected)) as [Hs|Hs].
  - destruct (Hbad Hs) as [_ ->]. split.
    + apply (NoDup_fmap_2_strong id); [|by apply NoDup_filter,
        (NoDup_fmap_1 id)].
      intros x y Hx%list_elem_of_filter Hy%list_elem_of_filter Hid.
      destruct Hx as [_ Hx], Hy as [_ Hy].
      apply list_elem_of_lookup in Hx as [i Hi].
      apply list_elem_of_lookup in Hy as [j Hj].
      assert (i = j).
      { apply (NoDup_lookup (id <$> remoteStreams (comp w)) i j (id x));
          [done| |]; rewrite list_lookup_fmap.
        - by rewrite Hi.
        - by rewrite Hj, Hid. }
      subst j. congruence.
    + intros s [_ Hs']%list_elem_of_filter. by apply Hshape.
  - destruct (Hok (fun H => Hs (or_introl H)) (fun H => Hs (or_intror H)))
      as [_ ->].
    done.
Qed.

(** X21. Whatever happens to a mounted component, in whatever order
    (frames received, timers fired, tracks, candidates and connection
    states from the browser, profiles, the media request, the three
    buttons), the state cell and the ref hold the same local stream and
    the remote streams carry distinct ids, each built from its user. *)
Theorem session_stays_tidy (actions : list Action) (s s' : W * Notice) :
  tidy (fst s) -> session actions s = Some s' -> tidy (fst s').
Proof.
  revert s. induction actions as [|a rest IH]; intros s Htidy Hrun.
  - by injection Hrun as <-.
  - cbn [session] in Hrun. destruct (act a s) as [s1|] eqn:Hact; [|done].
    apply (IH s1); [|exact Hrun]. clear IH Hrun.
    destruct a as [data v|k v|uid ms|uid cand|uid state|uid profile|uid
                  |result name| | |]; cbn [act] in Hact.
    + injection Hact as <-. cbn [fst].
      by apply (tidy_media _ _ (km_handleWebRTCMessage data v (fst s))).
    + destruct (fire k v (fst s)) as [w1|] eqn:Hfire; [|done].
      injection Hact as <-. cbn [fst].
      by apply (tidy_media _ _ (km_fire _ _ _ _ Hfire)).
    + injection Hact as <-. cbn [fst]. by apply ontrack_tidy.
    + injection Hact as <-. cbn [fst].
      refine (tidy_media _ _ _ Htidy).
      destruct cand as [c|]; [|done].
      apply (km_bind (fun w => wsService.send _ w) (fun _ => ret tt));
        [apply (km_send (T := unit))|intros _; apply km_ret].
    + injection Hact as <-. cbn [fst]. by apply connection_change_tidy.
    + injection Hact as <-. cbn [fst]. by apply (tidy_media (fst s)).
    + injection Hact as <-. cbn [fst]. by apply (tidy_media (fst s)).
    + injection Hact as <-.
      destruct Htidy as (Hlocal & Hnd & Hshape).
      destruct result as [ts|ename message].
      * destruct (media_granted ts name s) as (_ & Hl & Hr & _ & _ & Hs & _).
        unfold tidy. rewrite Hl, Hr, Hs. done.
      * done.
    + injection Hact as <-. cbn [fst].
      by apply (tidy_media _ _ (km_toggleMute (fst s))).
    + injection Hact as <-. cbn [fst]. refine (tidy_media _ _ _ Htidy).
      unfold toggleVideo. by destruct (localStream (comp (fst s))).
    + injection Hact as <-. cbn [fst].
      destruct Htidy as (Hlocal & _).
      pose proof (cleanup_spec (remoteStreams (comp (fst s))) (fst s)) as
        (_ & _ & _ & _ & Href & Hl & Hrs & _).
      unfold tidy, handleEndCall. rewrite Href, Hrs, (Hl Hlocal).
      split; [done|]. split; [apply NoDup_nil_2|].
      intros x Hx. by apply elem_of_nil in Hx.
Qed.

End SessionFacts.

(** * The chat room on the transport channel *)

Section ChatFacts.
Import WebSocketService ChatRoom.

(** What a frame does to the application through the listeners: those of
    [message] run, then those of the event the frame names. *)
Lemma onmessage_app {A : Type}
    (call : nat -> JSON -> A -> A * Completion unit) (data : JSON)
    (w : World A) :
  exists w',
    onmessage call (Some data) w = (w', Return tt)
    /\ this w' = this w /\ sockets w' = sockets w
    /\ app w'
       = foldl (fun a cb => fst (call cb data a))
           (foldl (fun a cb => fst (call cb data a)) (app w)
              (default [] (listeners (this w) !! "message")))
           match prop "type" data with
           | JStr t =>
               if truthy (JStr t)
               then default [] (listeners (this w) !! t) else []
           | _ => []
           end.
Proof.
  unfold onmessage, try_catch. unfold JS.bind at 1.
  destruct (emit_spec call "message" data w)
    as (w1 & Hrun1 & _ & Happ1 & Hthis & Hs & _).
  rewrite Hrun1.
  assert (Hbase : this w1 = this w /\ sockets w1 = sockets w
                  /\ app w1
                     = foldl (fun a cb => fst (call cb data a))
                         (foldl (fun a cb => fst (call cb data a)) (app w)
                            (default [] (listeners (this w) !! "message")))
                         []).
  { done. }
  destruct data; cbn [prop];
    try (exists w1; split; [reflexivity|exact Hbase]).
  destruct (assoc "type" fields) eqn:Hty;
    try (exists w1; split; [reflexivity|exact Hbase]).
  destruct (truthy (JStr s)) eqn:Htr;
    try (exists w1; split; [reflexivity|exact Hbase]).
  destruct (emit_spec call s (JObj fields) w1)
    as (w2 & Hrun2 & _ & Happ2 & Hthis2 & Hs2 & _).
  rewrite Hrun2. exists w2. split; [reflexivity|].
  by rewrite Hthis2, Hs2, Happ2, Happ1, Hthis.
Qed.

Lemma handleMessage_appends (data : JSON) (messages : list JSON) :
  fst (handleMessage data messages)
  = messages
    ++ (if has_type "message" data || has_type "new_message" data
        then [messageData data] else []).
Proof.
  unfold handleMessage.
  destruct data; cbn [has_type prop orb]; rewrite ?app_nil_r; try done;
    match goal with
    | |- context [if ?b then _ else _] => destruct b
    end; cbn [fst]; by rewrite ?app_nil_r.
Qed.

Lemma fold_quiet (data : JSON) (cbs : list nat) (messages : list JSON) :
  0 ∉ cbs ->
  foldl (fun a cb => fst (listener cb data a)) messages cbs = messages.
Proof.
  induction cbs as [|c rest IH]; intros Hnot; [done|].
  cbn [foldl]. unfold listener at 2.
  destruct c as [|c]; [exfalso; apply Hnot, elem_of_cons; by left|].
  cbn [Nat.eqb fst]. apply IH. intros Hin. apply Hnot, elem_of_cons. by right.
Qed.

Lemma fold_once (data : JSON) (cbs : list nat) (messages : list JSON) :
  0 ∉ cbs ->
  foldl (fun a cb => fst (listener cb data a)) messages (cbs ++ [0])
  = fst (handleMessage data messages).
Proof.
  intros Hnot. rewrite foldl_app. rewrite (fold_quiet data cbs) by done.
  reflexivity.
Qed.

Lemma connect_listeners {A : Type} (g : string) (w : World A) :
  listeners (this (connect g w)) = listeners (this w)
  /\ app (connect g w) = app w.
Proof.
  unfold connect.
  destruct (isConnecting (this w) || isConnected w); [done|].
  cbv zeta. by destruct (getToken (this (set_isConnecting true w))).
Qed.

Lemma remove_first_subset (c x : nat) (cbs : list nat) :
  x ∈ remove_first c cbs -> x ∈ cbs.
Proof.
  induction cbs as [|a rest IH]; [done|]. cbn [remove_first].
  destruct (bool_decide (a = c)); intros Hin.
  - by right.
  - apply elem_of_cons in Hin as [->|Hin]; [left|right; by apply IH].
Qed.

(** Registering another callback, or taking one out, leaves
    [handleMessage] where it is: nowhere, the event [ev] apart. *)
Lemma quiet_on (ev event : string) (callback : nat)
    (w : World (list JSON)) :
  callback <> 0 ->
  (forall e cbs, e <> ev -> listeners (this w) !! e = Some cbs -> 0 ∉ cbs) ->
  forall e cbs, e <> ev ->
    listeners (this (on event callback w)) !! e = Some cbs -> 0 ∉ cbs.
Proof.
  intros Hcb Hq e cbs Hev. destruct (decide (e = event)) as [->|Hne].
  - rewrite on_registers. intros [= <-].
    intros [Hin|Hin]%elem_of_app.
    + destruct (listeners (this w) !! event) as [old|] eqn:Hold;
        [by apply (Hq event old)|by apply elem_of_nil in Hin].
    + apply list_elem_of_singleton in Hin. by apply Hcb.
  - rewrite on_other by done. by apply Hq.
Qed.

Lemma quiet_off (event : string) (callback : nat) (w : World (list JSON)) :
  (forall e cbs, listeners (this w) !! e = Some cbs -> 0 ∉ cbs) ->
  forall e cbs, listeners (this (off event callback w)) !! e = Some cbs ->
                0 ∉ cbs.
Proof.
  intros Hq e cbs. destruct (decide (e = event)) as [->|Hne].
  - rewrite off_listeners.
    destruct (listeners (this w) !! event) as [old|] eqn:Hold; [|done].
    intros [= <-] Hin%remove_first_subset. by apply (Hq event old).
  - rewrite off_other by done. by apply Hq.
Qed.

Lemma off_keeps {A : Type} (event : string) (callback : nat) (w : World A) :
  sockets (off event callback w) = sockets w
  /\ ws (this (off event callback w)) = ws (this w)
  /\ app (off event callback w) = app w.
Proof. unfold off. by destruct (listeners (this w) !! event). Qed.

(** A frame on a service where [handleMessage] is registered nowhere. *)
Lemma quiet_frame (data : JSON) (w : World (list JSON)) :
  (forall e cbs, listeners (this w) !! e = Some cbs -> 0 ∉ cbs) ->
  exists w', onmessage listener (Some data) w = (w', Return tt)
             /\ app w' = app w.
Proof.
  intros Hq.
  assert (Hd : forall e, 0 ∉ default [] (listeners (this w) !! e)).
  { intros e. destruct (listeners (this w) !! e) as [cbs|] eqn:He;
      [by apply (Hq e)|apply not_elem_of_nil]. }
  destruct (onmessage_app listener data w) as (w' & Hrun & _ & _ & Happ).
  exists w'. split; [exact Hrun|]. rewrite Happ.
  rewrite (fold_quiet data _ (app w)) by apply Hd.
  apply fold_quiet.
  destruct (prop "type" data); try apply not_elem_of_nil.
  destruct (truthy (JStr s)); [apply Hd|apply not_elem_of_nil].
Qed.

(** X22. In the chat room a frame of type [message] is appended to the
    messages twice, once as a [message] event and once as the event its
    type names; a frame of type [new_message] is appended once, any other
    frame not at all. After the page's cleanup no frame changes the
    messages, and the connection is as the page left it: the cleanup
    does not disconnect. *)
Theorem chat_frame_appended (fn : nat) (g : string) (data : JSON)
    (w : World (list JSON)) :
  (forall e cbs, listeners (this w) !! e = Some cbs -> 0 ∉ cbs) ->
  exists w2 w3,
    onmessage listener (Some data) (mount fn g w) = (w2, Return tt)
    /\ app w2
       = app w
         ++ (if has_type "message" data
             then [messageData data; messageData data]
             else if has_type "new_message" data then [messageData data]
             else [])
    /\ onmessage listener (Some data) (unmount (mount fn g w))
       = (w3, Return tt)
    /\ app w3 = app w
    /\ sockets (unmount (mount fn g w)) = sockets (mount fn g w)
    /\ ws (this (unmount (mount fn g w))) = ws (this (mount fn g w)).
Proof.
  intros Hq.
  set (w0 := connect g (setGetToken fn w)).
  assert (Hq0 : forall e cbs, listeners (this w0) !! e = Some cbs -> 0 ∉ cbs).
  { intros e cbs. unfold w0.
    rewrite (proj1 (connect_listeners g (setGetToken fn w))). apply Hq. }
  assert (Happ0 : app w0 = app w).
  { unfold w0. by rewrite (proj2 (connect_listeners g _)). }
  set (old := default [] (listeners (this w0) !! "message")).
  assert (Hold : 0 ∉ old).
  { unfold old. destruct (listeners (this w0) !! "message") as [cbs|] eqn:He;
      [by apply (Hq0 "message")|apply not_elem_of_nil]. }
  set (w1 := mount fn g w).
  assert (Hmsg : listeners (this w1) !! "message" = Some (old ++ [0])).
  { unfold w1, mount. fold w0.
    rewrite !on_other by done. apply on_registers. }
  assert (Hrest : forall e cbs, e <> "message" ->
            listeners (this w1) !! e = Some cbs -> 0 ∉ cbs).
  { unfold w1, mount. fold w0.
    do 3 (apply quiet_on; [done|]).
    intros e cbs Hne. rewrite on_other by done. apply Hq0. }
  assert (Happ1 : app w1 = app w) by exact Happ0.
  destruct (onmessage_app listener data w1) as (w2 & Hrun & _ & _ & Happ).
  assert (Hquiet : forall e cbs,
            listeners (this (unmount w1)) !! e = Some cbs -> 0 ∉ cbs).
  { unfold unmount. do 3 apply quiet_off.
    intros e cbs. destruct (decide (e = "message")) as [->|Hne].
    - rewrite off_listeners, Hmsg. intros [= <-].
      by rewrite remove_first_last.
    - rewrite off_other by done. by apply Hrest. }
  destruct (quiet_frame data (unmount w1) Hquiet) as (w3 & Hrun3 & Happ3).
  exists w2, w3. split; [exact Hrun|]. split.
  { rewrite Happ, Hmsg, Happ1. cbn [default].
    rewrite (fold_once data old) by done. rewrite handleMessage_appends.
    destruct (has_type "message" data) eqn:Hm.
    - assert (Hty : prop "type" data = JStr "message").
      { unfold has_type in Hm. destruct (prop "type" data); try done.
        by apply String.eqb_eq in Hm as ->. }
      rewrite Hty. cbn [truthy String.eqb negb]. rewrite Hmsg. cbn [default].
      rewrite (fold_once data old) by done.
      rewrite handleMessage_appends, Hm.
      cbn [orb]. by rewrite <- app_assoc.
    - cbn [orb]. apply fold_quiet.
      destruct (prop "type" data) as [| | | |t| |] eqn:Hty;
        try apply not_elem_of_nil.
      destruct (truthy (JStr t)); [|apply not_elem_of_nil].
      assert (Hne : t <> "message").
      { intros ->. unfold has_type in Hm. rewrite Hty in Hm. done. }
      destruct (listeners (this w1) !! t) as [cbs|] eqn:Ht;
        [by apply (Hrest t)|apply not_elem_of_nil]. }
  split; [exact Hrun3|]. split.
  { rewrite Happ3. unfold unmount.
    rewrite !(proj2 (proj2 (off_keeps _ _ _))). exact Happ1. }
  unfold unmount. split.
  - by rewrite !(proj1 (off_keeps _ _ _)).
  - by rewrite !(proj1 (proj2 (off_keeps _ _ _))).
Qed.

End ChatFacts.

(** * What reaches the signalling handler *)

Section SubscriptionFacts.
Import WebSocketService VoiceCallSession.
Context {A : Type}.
Variable call : nat -> JSON -> A -> A * Completion unit.

Lemma listen_lookup (handler : nat) (events : list string) (e : string) :
  forall w : World A,
    NoDup events ->
    default []
      (listeners (this (foldl (fun w event => on event handler w) w events))
         !! e)
    = default [] (listeners (this w) !! e)
      ++ (if bool_decide (e ∈ events) then [handler] else []).
Proof.
  induction events as [|a rest IH]; intros w Hnd.
  - cbn [foldl]. rewrite bool_decide_eq_false_2 by apply not_elem_of_nil.
    by rewrite app_nil_r.
  - apply NoDup_cons in Hnd as [Hnotin Hnd]. cbn [foldl].
    rewrite (IH (on a handler w) Hnd).
    destruct (decide (e = a)) as [->|Hne].
    + rewrite on_registers. cbn [default].
      rewrite (bool_decide_eq_false_2 (a ∈ rest)) by done.
      rewrite (bool_decide_eq_true_2 (a ∈ a :: rest))
        by (apply elem_of_cons; by left).
      by rewrite app_nil_r.
    + rewrite on_other by done.
      assert (Hiff : e ∈ a :: rest <-> e ∈ rest).
      { rewrite elem_of_cons.
        split; [intros [Heq|Hin]; [by destruct Hne|done]|by right]. }
      by rewrite (bool_decide_ext _ _ Hiff).
Qed.

Lemma unlisten_lookup (handler : nat) (events : list string) (e : string) :
  forall w : World A,
    NoDup events ->
    default []
      (listeners (this (foldl (fun w event => off event handler w) w events))
         !! e)
    = if bool_decide (e ∈ events)
      then remove_first handler (default [] (listeners (this w) !! e))
      else default [] (listeners (this w) !! e).
Proof.
  induction events as [|a rest IH]; intros w Hnd.
  - cbn [foldl]. by rewrite bool_decide_eq_false_2 by apply not_elem_of_nil.
  - apply NoDup_cons in Hnd as [Hnotin Hnd]. cbn [foldl].
    rewrite (IH (off a handler w) Hnd).
    destruct (decide (e = a)) as [->|Hne].
    + rewrite off_listeners.
      rewrite (bool_decide_eq_false_2 (a ∈ rest)) by done.
      rewrite (bool_decide_eq_true_2 (a ∈ a :: rest))
        by (apply elem_of_cons; by left).
      by destruct (listeners (this w) !! a).
    + rewrite off_other by done.
      assert (Hiff : e ∈ a :: rest <-> e ∈ rest).
      { rewrite elem_of_cons.
        split; [intros [Heq|Hin]; [by destruct Hne|done]|by right]. }
      by rewrite (bool_decide_ext _ _ Hiff).
Qed.

Lemma fold_on_keeps (handler : nat) (events : list string) :
  forall w : World A,
    invoked (foldl (fun w event => on event handler w) w events) = invoked w.
Proof.
  induction events as [|a rest IH]; intros w; [done|].
  cbn [foldl]. by rewrite IH.
Qed.

Lemma fold_off_keeps (handler : nat) (events : list string) :
  forall w : World A,
    invoked (foldl (fun w event => off event handler w) w events)
    = invoked w.
Proof.
  induction events as [|a rest IH]; intros w; [done|].
  cbn [foldl]. rewrite IH. unfold off.
  by destruct (listeners (this w) !! a).
Qed.

(** The calls of [handler] among the invocations a dispatch adds. *)
Lemma deliveries_to (handler : nat) (data : JSON) (cbs : list nat) :
  filter (fun c : nat * JSON => fst c = handler)
         (map (fun cb => (cb, data)) cbs)
  = map (fun cb => (cb, data)) (filter (fun cb => cb = handler) cbs).
Proof.
  induction cbs as [|c rest IH]; [done|]. cbn [map].
  destruct (decide (c = handler)) as [Hc|Hc].
  - rewrite !filter_cons_True by done. cbn [map]. by rewrite IH.
  - by rewrite !filter_cons_False by done.
Qed.

Lemma subscribed_NoDup : NoDup subscribed.
Proof. apply (bool_decide_eq_true (NoDup subscribed)). reflexivity. Qed.

(** X23. After the component has subscribed its signalling handler, a
    frame reaches the handler once when its type is one of the six
    subscribed events and not at all otherwise. A frame of type
    [participant_mute_status] is therefore never handed to
    [handleWebRTCMessage], whose branch for it does not run. After the
    subscription is undone no frame reaches the handler. *)
Theorem signalling_subscription (handler : nat) (data : JSON) (t : string)
    (w : World A) :
  (forall e cbs, listeners (this w) !! e = Some cbs -> handler ∉ cbs) ->
  prop "type" data = JStr t -> t <> EmptyString ->
  exists w' w'',
    onmessage call (Some data) (listen handler w) = (w', Return tt)
    /\ length (filter (fun c => fst c = handler)
                      (drop (length (invoked w)) (invoked w')))
       = (if bool_decide (t ∈ subscribed) then 1 else 0)
    /\ (t = "participant_mute_status" ->
        filter (fun c => fst c = handler)
               (drop (length (invoked w)) (invoked w')) = [])
    /\ onmessage call (Some data) (unlisten handler (listen handler w))
       = (w'', Return tt)
    /\ filter (fun c => fst c = handler)
              (drop (length (invoked w)) (invoked w'')) = [].
Proof.
  intros Hq Hty Hne.
  assert (Hold : forall e, handler ∉ default [] (listeners (this w) !! e)).
  { intros e. destruct (listeners (this w) !! e) as [cbs|] eqn:He;
      [by apply (Hq e)|apply not_elem_of_nil]. }
  assert (Htruthy : truthy (JStr t) = true).
  { cbn. by destruct t. }
  assert (Hcount : forall (w1 w' : World A),
            invoked w1 = invoked w ->
            onmessage call (Some data) w1 = (w', Return tt) ->
            filter (fun c => fst c = handler)
                   (drop (length (invoked w)) (invoked w'))
            = map (fun cb => (cb, data))
                  (filter (fun cb => cb = handler)
                          (default [] (listeners (this w1) !! "message")
                           ++ default [] (listeners (this w1) !! t)))).
  { intros w1 w' Hinv Hrun.
    destruct (onmessage_deliveries call data w1)
      as (w2 & Hrun2 & _ & _ & _ & _ & Hinv2).
    rewrite Hrun in Hrun2. injection Hrun2 as <-.
    rewrite Hinv2, Hty, Htruthy, Hinv, drop_app_length.
    by rewrite <- map_app, deliveries_to. }
  destruct (onmessage_deliveries call data (listen handler w))
    as (w' & Hrun & _).
  destruct (onmessage_deliveries call data
              (unlisten handler (listen handler w)))
    as (w'' & Hrun' & _).
  exists w', w''.
  pose proof (Hcount _ _ (fold_on_keeps handler subscribed w) Hrun) as Hc.
  assert (Hinv' : invoked (unlisten handler (listen handler w)) = invoked w).
  { unfold unlisten. rewrite fold_off_keeps. apply fold_on_keeps. }
  pose proof (Hcount _ _ Hinv' Hrun') as Hc'.
  assert (Hl : forall e,
            default [] (listeners (this (listen handler w)) !! e)
            = default [] (listeners (this w) !! e)
              ++ (if bool_decide (e ∈ subscribed) then [handler] else [])).
  { intros e. apply listen_lookup, subscribed_NoDup. }
  assert (Hu : forall e,
            default []
              (listeners (this (unlisten handler (listen handler w))) !! e)
            = default [] (listeners (this w) !! e)).
  { intros e. unfold unlisten.
    rewrite unlisten_lookup by apply subscribed_NoDup. rewrite Hl.
    case_bool_decide; [|by rewrite app_nil_r].
    by apply remove_first_last. }
  assert (Hmsg : "message" ∉ subscribed).
  { apply (bool_decide_eq_true ("message" ∉ subscribed)). reflexivity. }
  assert (Hfilter : filter (fun c : nat * JSON => fst c = handler)
                      (drop (length (invoked w)) (invoked w'))
                    = if bool_decide (t ∈ subscribed) then [(handler, data)]
                      else []).
  { rewrite Hc, !Hl, (bool_decide_eq_false_2 _ Hmsg), app_nil_r.
    rewrite !filter_app.
    rewrite !(filter_none (fun cb => cb = handler)
                (default [] (listeners (this w) !! _)))
      by (intros x Hx ->; by apply (Hold _ Hx)).
    case_bool_decide; [|done].
    by rewrite filter_cons_True by done. }
  split; [exact Hrun|]. split.
  { rewrite Hfilter. by case_bool_decide. }
  split.
  { intros ->. rewrite Hfilter. reflexivity. }
  split; [exact Hrun'|].
  rewrite Hc', !Hu, filter_app.
  rewrite !(filter_none (fun cb => cb = handler)
              (default [] (listeners (this w) !! _)))
    by (intros x Hx ->; by apply (Hold _ Hx)).
  reflexivity.
Qed.

End SubscriptionFacts.

(** * The statements above on the concrete situations *)

Section MoreInstances.
Import VoiceCall VoiceCallSession Scenario.

Lemma disconnect_then_reconnects_on_first_attempt :
  exists w1 w2,
    Lifecycle.step quiet (Lifecycle.SocketClosed 0)
      (wsService.disconnect first_attempt) = Some w1
    /\ Lifecycle.step quiet (Lifecycle.TimerFired 0) w1 = Some w2
    /\ wsService.isConnecting (wsService.this w2) = true.
Proof.
  edestruct (disconnect_then_reconnects quiet first_attempt 0)
    as (w1 & w2 & H1 & _ & H2 & H3 & _);
    [reflexivity|reflexivity|right; reflexivity|].
  exists w1, w2. split; [exact H1|]. split; [exact H2|exact H3].
Defined.

Lemma open_resets_backoff_on_first_attempt :
  exists w1 w2,
    Lifecycle.step quiet (Lifecycle.SocketOpened 0) first_attempt = Some w1
    /\ wsService.reconnectAttempts (wsService.this w1) = 0
    /\ Lifecycle.step quiet (Lifecycle.SocketClosed 0) w1 = Some w2
    /\ wsService.reconnectAttempts (wsService.this w2) = 1.
Proof.
  edestruct (open_resets_backoff quiet first_attempt 0)
    as (w1 & w2 & H1 & H2 & _ & _ & H3 & H4 & _);
    [reflexivity|reflexivity|].
  exists w1, w2. split; [exact H1|]. split; [exact H2|].
  split; [exact H3|exact H4].
Defined.

Lemma typed_frame_dispatched_twice_on_message :
  exists w',
    wsService.onmessage quiet
      (Some (JObj [("type", JStr "message"); ("content", JStr "hi")]))
      (wsService.on "message" 3 first_attempt) = (w', Return tt)
    /\ length (wsService.invoked w') = 2.
Proof.
  destruct (typed_frame_dispatched_twice quiet
              (JObj [("type", JStr "message"); ("content", JStr "hi")])
              "message" (wsService.on "message" 3 first_attempt))
    as (w' & Hrun & Hinv & _); [reflexivity|discriminate|].
  exists w'. split; [exact Hrun|]. rewrite Hinv. reflexivity.
Defined.

Lemma rejected_token_leaves_no_trace_on_page :
  Lifecycle.step quiet (Lifecycle.TokenSettled 0 wsService.Rejected)
    (wsService.connect "g1"
       (wsService.setGetToken 7 (Lifecycle.start page tt)))
  = Some (wsService.setGetToken 7 (Lifecycle.start page tt)).
Proof.
  apply (rejected_token_leaves_no_trace quiet "g1" 7
           (wsService.setGetToken 7 (Lifecycle.start page tt)));
    reflexivity.
Defined.


Lemma offer_answered_when_alone :
  exists w',
    handleWebRTCMessage (webrtc_offer (JStr "offer-sdp") "u2") accepting
      alone = (w', Return tt)
    /\ peersRef (comp w') !! "u2"
       = Some (mkPeer stable new (Some (JStr "answer-sdp"))
                 (Some (JStr "offer-sdp")) [0] []).
Proof.
  destruct (offer_answered (JStr "offer-sdp") (JStr "answer-sdp") "u2"
              accepting alone)
    as (w' & Hrun & Hentry & _);
    [discriminate|reflexivity|reflexivity|reflexivity|reflexivity|].
  exists w'. split; [exact Hrun|exact Hentry].
Defined.

Lemma offer_then_answer_when_alone :
  exists w1 w2,
    createOfferForUser "u2" accepting alone = (w1, Return tt)
    /\ createOfferForUser "u2" accepting w1 = (w1, Return tt)
    /\ handleWebRTCMessage (webrtc_answer (JStr "answer-sdp") "u2")
         accepting w1 = (w2, Return tt)
    /\ peersRef (comp w2) !! "u2"
       = Some (mkPeer stable new (Some (JStr "offer-sdp"))
                 (Some (JStr "answer-sdp")) [0] []).
Proof.
  destruct (offer_then_answer (JStr "offer-sdp") (JStr "answer-sdp") "u2"
              accepting accepting accepting alone)
    as (w1 & w2 & H1 & H2 & H3 & H4 & _);
    [discriminate|reflexivity|reflexivity|reflexivity|reflexivity|].
  exists w1, w2. split; [exact H1|]. split; [exact H2|].
  split; [exact H3|exact H4].
Defined.

Lemma repeated_signal_offers_when_alone :
  exists w2 c,
    handleWebRTCMessage (call_participant_ready "u2") accepting
      (fst (handleWebRTCMessage (user_joined "u2") accepting alone))
    = (w2, Return tt)
    /\ OfferTasks.play
         [OfferTasks.Fires 0; OfferTasks.Fires 0;
          OfferTasks.Resumes 0 accepting; OfferTasks.Resumes 1 accepting;
          OfferTasks.Resumes 0 accepting; OfferTasks.Resumes 0 accepting]
         (OfferTasks.mkCalls w2 [] []) = Some c
    /\ OfferTasks.running c = []
    /\ OfferTasks.sent (OfferTasks.world c)
       = [stringify (OfferTasks.offer_frame (JStr "offer-sdp") "u2" alone);
          stringify (OfferTasks.offer_frame (JStr "offer-sdp") "u2" alone)].
Proof.
  destruct (repeated_signal_offers "u2" accepting accepting alone)
    as (w2 & Hrun & _ & _ & Htwice & _);
    [discriminate|discriminate|reflexivity|].
  destruct (Htwice accepting accepting accepting accepting
              (JStr "offer-sdp") (JStr "offer-sdp")
              eq_refl eq_refl eq_refl eq_refl eq_refl)
    as (c & Hplay & Hend & Hsent & _).
  exists w2, c. split; [exact Hrun|]. split; [exact Hplay|].
  split; [exact Hend|exact Hsent].
Defined.

Lemma in_call_tidy : tidy in_call.
Proof.
  split; [reflexivity|]. split; [apply NoDup_nil_2|].
  intros s Hs. exfalso. exact (proj1 (elem_of_nil s) Hs).
Defined.

Lemma alone_tidy : tidy alone.
Proof.
  split; [reflexivity|]. split; [apply NoDup_nil_2|].
  intros s Hs. exfalso. exact (proj1 (elem_of_nil s) Hs).
Defined.


Lemma failed_connection_dropped_in_call :
  peersRef (comp (onconnectionstatechange "u2" failed in_call)) !! "u2"
  = None.
Proof.
  exact (proj1 (proj1 (proj2 (failed_connection_dropped "u2" failed in_call
                                in_call_tidy))
                  (or_introl eq_refl))).
Defined.


Lemma cleanup_twice_in_call :
  cleanup [] (cleanup [] in_call) = cleanup [] in_call.
Proof.
  apply (cleanup_twice [] [] in_call). intros x Hx. exact Hx.
Defined.

Lemma call_start_needs_open_socket_in_call :
  pending (comp (mount 7 (JStr "voice") (JStr "Ann") in_call))
  = [mkTimer 1000 AnnounceReady].
Proof.
  exact (proj2 (proj1 (call_start_needs_open_socket 7 (JStr "voice")
                         (JStr "Ann") "g1" in_call eq_refl eq_refl)
                  eq_refl)).
Defined.

Lemma session_stays_tidy_when_alone :
  exists s',
    session
      [Receive (user_joined "u2") accepting; Fire 0 accepting;
       TrackArrived "u2" [1]; PressMute; ConnectionChanged "u2" failed;
       PressEndCall]
      (alone, mkNotice EmptyString None) = Some s'
    /\ tidy (fst s').
Proof.
  eexists. split; [reflexivity|].
  apply (session_stays_tidy
           [Receive (user_joined "u2") accepting; Fire 0 accepting;
            TrackArrived "u2" [1]; PressMute; ConnectionChanged "u2" failed;
            PressEndCall]
           (alone, mkNotice EmptyString None));
    [exact alone_tidy|reflexivity].
Defined.

Lemma chat_frame_appended_on_page :
  exists w2,
    wsService.onmessage ChatRoom.listener
      (Some (JObj [("type", JStr "message"); ("content", JStr "hi")]))
      (ChatRoom.mount 7 "g1" (Lifecycle.start page [])) = (w2, Return tt)
    /\ length (wsService.app w2) = 2.
Proof.
  destruct (chat_frame_appended 7 "g1"
              (JObj [("type", JStr "message"); ("content", JStr "hi")])
              (Lifecycle.start page []))
    as (w2 & w3 & Hrun & Happ & _).
  { intros e cbs H.
    change ((∅ : gmap string (list nat)) !! e = Some cbs) in H.
    rewrite lookup_empty in H. discriminate H. }
  exists w2. split; [exact Hrun|]. rewrite Happ. reflexivity.
Defined.

Lemma signalling_subscription_mute_status :
  exists w',
    wsService.onmessage quiet
      (Some (JObj [("type", JStr "participant_mute_status");
                   ("user_id", JStr "u2"); ("is_muted", JBool true)]))
      (listen 0 first_attempt) = (w', Return tt)
    /\ filter (fun c => fst c = 0)
              (drop (length (wsService.invoked first_attempt))
                    (wsService.invoked w')) = [].
Proof.
  destruct (signalling_subscription quiet 0
              (JObj [("type", JStr "participant_mute_status");
                     ("user_id", JStr "u2"); ("is_muted", JBool true)])
              "participant_mute_status" first_attempt)
    as (w' & w'' & Hrun & _ & Hnone & _); [|reflexivity|discriminate|].
  { intros e cbs H.
    change ((∅ : gmap string (list nat)) !! e = Some cbs) in H.
    rewrite lookup_empty in H. discriminate H. }
  exists w'. split; [exact Hrun|exact (Hnone eq_refl)].
Defined.

End MoreInstances.
